(** * Queue-integrity engine of the scheduled-post bot

    A shallow embedding of [src/utils.py], [src/post_slot.py],
    [scripts/approve_range.py], [scripts/generate_queue.py] and the length
    check of [scripts/validate_queue.py], followed by the properties the
    specification states about them.

    Conventions of the embedding.
    - A Python [str] is the list of its Unicode code points ([str]), so
      [len] is [length] and [==] is equality of lists.
    - A raised exception is a [None], or a [Raise] carrying the exception
      where the caller tells exceptions apart.
    - The clock ([today_jst], [utc_iso]), the random source, the publishing
      endpoint and the two large library tables the code relies on
      ([str.lower] and [datetime.strptime]) are arguments of the functions
      that use them.
    - Console output is not part of the model. *)

From stdpp Require Import gmap list strings sorting.

(** ** Python strings *)

Definition codepoint := N.
Definition str := list codepoint.

Definition SP : codepoint := 32%N.
Definition TAB : codepoint := 9%N.
Definition LF : codepoint := 10%N.

(** Decoder for the string literals of this file, which are UTF-8 encoded
    like the literals of the source files: [pending] continuation bytes are
    still expected and [acc] holds the bits read so far. *)
Fixpoint utf8_decode (pending : nat) (acc : N) (bs : list N) : str :=
  match bs with
  | [] => []
  | b :: r =>
      if (b <? 0x80)%N then b :: utf8_decode 0 0%N r
      else if (b <? 0xC0)%N then
        let acc' := (acc * 64 + (b - 0x80))%N in
        match pending with
        | 0%nat => utf8_decode 0 0%N r
        | 1%nat => acc' :: utf8_decode 0 0%N r
        | S k => utf8_decode k acc' r
        end
      else if (b <? 0xE0)%N then utf8_decode 1 (b - 0xC0)%N r
      else if (b <? 0xF0)%N then utf8_decode 2 (b - 0xE0)%N r
      else utf8_decode 3 (b - 0xF0)%N r
  end.

Definition py (s : string) : str :=
  utf8_decode 0 0%N (map Byte.to_N (String.list_byte_of_string s)).

(** [str.encode("utf-8")]: a lone surrogate raises [UnicodeEncodeError]. *)
Definition encode_codepoint (c : codepoint) : option (list N) :=
  if (c <? 0x80)%N then Some [c]
  else if (c <? 0x800)%N then
    Some [(0xC0 + c / 64)%N; (0x80 + c mod 64)%N]
  else if (c <? 0x10000)%N then
    if ((0xD800 <=? c) && (c <=? 0xDFFF))%N then None
    else Some [(0xE0 + c / 4096)%N; (0x80 + (c / 64) mod 64)%N;
               (0x80 + c mod 64)%N]
  else if (c <? 0x110000)%N then
    Some [(0xF0 + c / 262144)%N; (0x80 + (c / 4096) mod 64)%N;
          (0x80 + (c / 64) mod 64)%N; (0x80 + c mod 64)%N]
  else None.

Fixpoint encode_utf8 (t : str) : option (list N) :=
  match t with
  | [] => Some []
  | c :: r =>
      match encode_codepoint c, encode_utf8 r with
      | Some bs, Some rest => Some (bs ++ rest)
      | _, _ => None
      end
  end.

(** The code points that can be UTF-8 encoded: Unicode scalar values. *)
Definition scalar_value (c : codepoint) : Prop :=
  (c < 0xD800 ∨ 0xDFFF < c < 0x110000)%N.

Global Instance scalar_value_dec c : Decision (scalar_value c).
Proof. unfold scalar_value. apply _. Defined.

(** Python's lexicographic comparison of strings, [a <= b]. *)
Fixpoint str_le (a b : str) : bool :=
  match a, b with
  | [], _ => true
  | _ :: _, [] => false
  | x :: a', y :: b' =>
      if (x <? y)%N then true
      else if (y <? x)%N then false
      else str_le a' b'
  end.

(** [str.startswith] and the substring test [needle in hay]. *)
Fixpoint starts_with (needle hay : str) : bool :=
  match needle, hay with
  | [], _ => true
  | _ :: _, [] => false
  | x :: n', y :: h' => bool_decide (x = y) && starts_with n' h'
  end.

Fixpoint contains (needle hay : str) : bool :=
  starts_with needle hay ||
  match hay with
  | [] => false
  | _ :: h' => contains needle h'
  end.

(** [hay.replace(old, new)] for a non-empty [old]: occurrences are found
    left to right and do not overlap; [skip] counts the characters of the
    occurrence just replaced that are still to be passed over. *)
Fixpoint replace_from (old new : str) (skip : nat) (hay : str) : str :=
  match hay with
  | [] => []
  | c :: r =>
      match skip with
      | S k => replace_from old new k r
      | O =>
          if starts_with old hay
          then new ++ replace_from old new (length old - 1) r
          else c :: replace_from old new 0 r
      end
  end.

Definition replace (old new hay : str) : str := replace_from old new 0 hay.

(** [sep.join(parts)]. *)
Fixpoint join (sep : str) (parts : list str) : str :=
  match parts with
  | [] => []
  | [p] => p
  | p :: rest => p ++ sep ++ join sep rest
  end.

(** [text.split("\n")[0]]: the text up to its first line feed. *)
Fixpoint first_line (text : str) : str :=
  match text with
  | [] => []
  | c :: r => if bool_decide (c = LF) then [] else c :: first_line r
  end.

(** ** utils.py: normalisation *)

Definition is_blank (c : codepoint) : bool :=
  bool_decide (c = SP) || bool_decide (c = TAB).

Definition is_newline (c : codepoint) : bool := bool_decide (c = LF).

(** The characters [str.strip()] removes (CPython's [Py_UNICODE_ISSPACE]). *)
Definition is_space (c : codepoint) : bool :=
  ((0x09 <=? c) && (c <=? 0x0D) || (0x1C <=? c) && (c <=? 0x20)
   || bool_decide (c = 0x85) || bool_decide (c = 0xA0)
   || bool_decide (c = 0x1680) || (0x2000 <=? c) && (c <=? 0x200A)
   || bool_decide (c = 0x2028) || bool_decide (c = 0x2029)
   || bool_decide (c = 0x202F) || bool_decide (c = 0x205F)
   || bool_decide (c = 0x3000))%N.

(** [t] does not begin, respectively end, with a character of class [p]. *)
Definition not_first (p : codepoint → bool) (t : str) : Prop :=
  ∀ c, head t = Some c → p c = false.

Definition not_last (p : codepoint → bool) (t : str) : Prop :=
  ∀ c, last t = Some c → p c = false.

Fixpoint run_length (p : codepoint → bool) (t : str) : nat :=
  match t with
  | [] => 0
  | c :: r => if p c then S (run_length p r) else 0
  end.

(** [re.sub] for a pattern [[class]{lo,}] (with [1 <= lo]) and a literal
    replacement: at each position the longest run of class characters is
    tried; if it has at least [lo] characters it is replaced and the scan
    resumes after it ([skip] characters later), otherwise the character is
    copied and the scan moves one position on. *)
Fixpoint re_sub_runs (p : codepoint → bool) (lo : nat) (repl : str)
    (skip : nat) (t : str) : str :=
  match t with
  | [] => []
  | c :: r =>
      match skip with
      | S k => re_sub_runs p lo repl k r
      | O =>
          let n := run_length p t in
          if (lo <=? n)%nat
          then repl ++ re_sub_runs p lo repl (n - 1) r
          else c :: re_sub_runs p lo repl 0 r
      end
  end.

Fixpoint lstrip (t : str) : str :=
  match t with
  | [] => []
  | c :: r => if is_space c then lstrip r else t
  end.

Definition rstrip (t : str) : str := reverse (lstrip (reverse t)).

Definition starts_unspaced (t : str) : Prop :=
  match t with
  | [] => True
  | c :: _ => is_space c = false
  end.

Definition strip (t : str) : str := rstrip (lstrip t).

Definition normalize_text (text : str) : str :=
  let text := re_sub_runs is_blank 1 [SP] 0 text in
  let text := re_sub_runs is_newline 3 [LF; LF] 0 text in
  strip text.

(** Two one-pass readings of the substitutions, used in the proofs:
    [squeeze_blanks in_run] drops a blank that follows a blank and turns the
    first blank of a run into a space; [cap_newlines k], with [k] line feeds
    just before, drops a line feed that follows two or more. *)
Fixpoint squeeze_blanks (in_run : bool) (t : str) : str :=
  match t with
  | [] => []
  | c :: r =>
      if is_blank c
      then (if in_run then squeeze_blanks true r
            else SP :: squeeze_blanks true r)
      else c :: squeeze_blanks false r
  end.

Fixpoint cap_newlines (k : nat) (t : str) : str :=
  match t with
  | [] => []
  | c :: r =>
      if is_newline c
      then (if (k <? 2)%nat then c :: cap_newlines (S k) r
            else cap_newlines (S k) r)
      else c :: cap_newlines 0 r
  end.

Fixpoint blanks_tidy (after_blank : bool) (t : str) : bool :=
  match t with
  | [] => true
  | c :: r =>
      if is_blank c
      then bool_decide (c = SP) && negb after_blank && blanks_tidy true r
      else blanks_tidy false r
  end.

Fixpoint newlines_capped (k : nat) (t : str) : bool :=
  match t with
  | [] => true
  | c :: r =>
      if is_newline c
      then (k <? 2)%nat && newlines_capped (S k) r
      else newlines_capped 0 r
  end.

(** ** hashlib.sha256 (FIPS 180-4) on 32-bit words held in [N] *)

Module Sha256.

Definition w32 (x : N) : N := (x mod 0x100000000)%N.
Definition add32 (a b : N) : N := w32 (a + b).
Definition rotr (n x : N) : N :=
  N.lor (N.shiftr x n) (w32 (N.shiftl x (32 - n))).
Definition not32 (x : N) : N := N.lxor x 0xFFFFFFFF%N.

Definition Ch (x y z : N) : N := N.lxor (N.land x y) (N.land (not32 x) z).
Definition Maj (x y z : N) : N :=
  N.lxor (N.land x y) (N.lxor (N.land x z) (N.land y z)).
Definition Sigma0 (x : N) : N :=
  N.lxor (rotr 2 x) (N.lxor (rotr 13 x) (rotr 22 x)).
Definition Sigma1 (x : N) : N :=
  N.lxor (rotr 6 x) (N.lxor (rotr 11 x) (rotr 25 x)).
Definition sigma0 (x : N) : N :=
  N.lxor (rotr 7 x) (N.lxor (rotr 18 x) (N.shiftr x 3)).
Definition sigma1 (x : N) : N :=
  N.lxor (rotr 17 x) (N.lxor (rotr 19 x) (N.shiftr x 10)).

(** The constants are cut from roots of the first primes: [K] holds the
    first 32 bits of the fractional part of the cube root of each of the
    first 64 primes, [H0] those of the square root of the first 8. *)
Definition primes : list N :=
  [2; 3; 5; 7; 11; 13; 17; 19; 23; 29; 31; 37; 41; 43; 47; 53; 59; 61; 67;
   71; 73; 79; 83; 89; 97; 101; 103; 107; 109; 113; 127; 131; 137; 139; 149;
   151; 157; 163; 167; 173; 179; 181; 191; 193; 197; 199; 211; 223; 227; 229;
   233; 239; 241; 251; 257; 263; 269; 271; 277; 281; 283; 293; 307; 311]%N.

(** The largest [r] below [2 ^ bits] with [r ^ 3 <= n], bit by bit. *)
Fixpoint cube_root (bits : nat) (n r : N) : N :=
  match bits with
  | O => r
  | S b =>
      let r' := (r + 2 ^ N.of_nat b)%N in
      cube_root b n (if (r' * r' * r' <=? n)%N then r' else r)
  end.

Definition K : list N :=
  Eval vm_compute in map (λ p, w32 (cube_root 40 (p * 2 ^ 96) 0))%N primes.

Record state := State { ha : N; hb : N; hc : N; hd : N;
                        he : N; hf : N; hg : N; hh : N }.

Definition H0 : state :=
  Eval vm_compute in
    let h := λ p : N, w32 (N.sqrt (p * 2 ^ 64)) in
    State (h 2%N) (h 3%N) (h 5%N) (h 7%N) (h 11%N) (h 13%N) (h 17%N) (h 19%N).

(** Big-endian words of a block. *)
Fixpoint words (bs : list N) : list N :=
  match bs with
  | a :: b :: c :: d :: r =>
      (a * 0x1000000 + b * 0x10000 + c * 0x100 + d)%N :: words r
  | _ => []
  end.

(** The message schedule: [n] more words after the ones in [w]. *)
Fixpoint schedule (n : nat) (w : list N) : list N :=
  match n with
  | O => w
  | S n' =>
      let i := length w in
      let wi := add32 (add32 (sigma1 (nth (i - 2) w 0%N)) (nth (i - 7) w 0%N))
                      (add32 (sigma0 (nth (i - 15) w 0%N)) (nth (i - 16) w 0%N))
      in schedule n' (w ++ [wi])
  end.

Definition round (s : state) (kw : N * N) : state :=
  let t1 := add32 (add32 (add32 (hh s) (Sigma1 (he s)))
                         (add32 (Ch (he s) (hf s) (hg s)) kw.1)) kw.2 in
  let t2 := add32 (Sigma0 (ha s)) (Maj (ha s) (hb s) (hc s)) in
  State (add32 t1 t2) (ha s) (hb s) (hc s) (add32 (hd s) t1) (he s) (hf s) (hg s).

Definition compress (s : state) (block : list N) : state :=
  let w := schedule 48 (words block) in
  let r := fold_left round (zip K w) s in
  State (add32 (ha s) (ha r)) (add32 (hb s) (hb r)) (add32 (hc s) (hc r))
        (add32 (hd s) (hd r)) (add32 (he s) (he r)) (add32 (hf s) (hf r))
        (add32 (hg s) (hg r)) (add32 (hh s) (hh r)).

Definition be64 (x : N) : list N :=
  map (λ i : N, (x / 256 ^ i) mod 256)%N [7; 6; 5; 4; 3; 2; 1; 0]%N.

Definition pad (msg : list N) : list N :=
  let len := length msg in
  let zeros := ((64 - (len + 9) mod 64) mod 64)%nat in
  msg ++ [0x80%N] ++ repeat 0%N zeros ++ be64 (8 * N.of_nat len).

Fixpoint blocks (n : nat) (bs : list N) (s : state) : state :=
  match n with
  | O => s
  | S n' => blocks n' (drop 64 bs) (compress s (take 64 bs))
  end.

Definition digest (msg : list N) : state :=
  let padded := pad msg in
  blocks (length padded / 64) padded H0.

Definition hex_digit (d : N) : codepoint :=
  if (d <? 10)%N then (48 + d)%N else (87 + d)%N.

Definition hex_word (w : N) : str :=
  map (λ i : N, hex_digit ((w / 16 ^ i) mod 16))%N [7; 6; 5; 4; 3; 2; 1; 0]%N.

Definition hexdigest (s : state) : str :=
  hex_word (ha s) ++ hex_word (hb s) ++ hex_word (hc s) ++ hex_word (hd s) ++
  hex_word (he s) ++ hex_word (hf s) ++ hex_word (hg s) ++ hex_word (hh s).

End Sha256.

Definition sha256_hexdigest (bs : list N) : str :=
  Sha256.hexdigest (Sha256.digest bs).

Definition is_lower_hex (c : codepoint) : bool :=
  ((48 <=? c) && (c <=? 57) || (97 <=? c) && (c <=? 102))%N.

(** ** utils.py: fingerprints, queue records and the duplicate guard *)

Definition MAX_TEXT_LENGTH : nat := 260.

Definition FORBIDDEN_WORDS : list str :=
  map py
    ["必ず稼げる"; "保証"; "確実に"; "誰でも月収"; "絶対に"; "100%";
     "ノーリスク";
     "RTして"; "リツイートして"; "いいねして"; "フォローして"; "拡散希望";
     "広めて"; "シェアして";
     "トレンド"; "バズ"; "バズる";
     "炎上"; "バカ"; "情弱"; "養分"; "終わってる";
     "無料プレゼント"; "期間限定で無料"; "今だけ無料"; "LINE登録";
     "DM送って"].

(** [None] is the [UnicodeEncodeError] of [encode]. *)
Definition calculate_fingerprint (text : str) : option str :=
  let normalized := normalize_text text in
  sha256_hexdigest <$> encode_utf8 normalized.

(** A queue record: the ten keys of the queue document, each holding a
    string or missing ([None]); the code reads every key with [dict.get].
    A key without a value (JSON null, as the generator writes [tweet_id] and
    [posted_at_utc] of a draft) reads as [None] too.  The records are those
    of the data model: [date] and [text] hold strings when present, and so
    does [posted_at_utc] once [update_posted_item] has made a record
    posted. *)
Record item := Item {
  item_date : option str;
  item_slot : option str;
  item_pillar : option str;
  item_format : option str;
  item_hook : option str;
  item_text : option str;
  item_status : option str;
  item_fingerprint : option str;
  item_tweet_id : option str;
  item_posted_at_utc : option str
}.

Abbreviation queue := (list item).

Definition extract_hook (it : item) : str :=
  match item_hook it with
  | Some (c :: h) => normalize_text (c :: h)
  | _ =>
      let text := default [] (item_text it) in
      let first := match text with [] => [] | _ => first_line text end in
      normalize_text first
  end.

(** [lower] stands for [str.lower], the Unicode lower-case mapping. *)
Definition check_forbidden_words (lower : str → str) (text : str) : list str :=
  let text_lower := lower text in
  filter (λ word, contains (lower word) text_lower = true) FORBIDDEN_WORDS.

Definition validate_text_length (text : str) : bool * nat :=
  let len := length text in
  (bool_decide (len ≤ MAX_TEXT_LENGTH), len).

(** The sort key of [get_posted_items], for a record that holds a time
    stamp or lacks the key; a key holding JSON null is the matter of
    [Raising] below. *)
Definition posted_key (it : item) : str := default [] (item_posted_at_utc it).

(** [recent x y]: [x] is at least as recent as [y]. *)
Definition recent (x y : item) : Prop :=
  str_le (posted_key y) (posted_key x) = true.

(** [list.sort(key=posted_key, reverse=True)]: the sort is stable, also when
    reversed, so a record comes before the records that follow it in the
    list and have a key that is not greater. *)
Fixpoint insert_desc (x : item) (sorted : list item) : list item :=
  match sorted with
  | [] => [x]
  | y :: rest =>
      if str_le (posted_key y) (posted_key x)
      then x :: sorted
      else y :: insert_desc x rest
  end.

Fixpoint sort_desc (l : list item) : list item :=
  match l with
  | [] => []
  | x :: rest => insert_desc x (sort_desc rest)
  end.

Definition is_posted (it : item) : Prop := item_status it = Some (py "posted").

Definition get_posted_items (q : queue) (limit : nat) : list item :=
  let posted := filter is_posted q in
  take limit (sort_desc posted).

Definition check_fingerprint_duplicate
    (fingerprint : str) (q : queue) (limit : nat) : bool :=
  let posted := get_posted_items q limit in
  existsb (λ it, bool_decide (item_fingerprint it = Some fingerprint)) posted.

Definition check_hook_duplicate (hook : str) (q : queue) (limit : nat) : bool :=
  let posted := get_posted_items q limit in
  let normalized_hook := normalize_text hook in
  existsb (λ it, bool_decide (normalize_text (extract_hook it) = normalized_hook))
          posted.

(** The recency window as the specification words it: [w] holds [n] of the
    posted records of [q] (all of them if there are fewer), most recent
    first, and no posted record left out is more recent than one in [w]. *)
Definition spec_recent_window (n : nat) (q : queue) (w : list item) : Prop :=
  ∃ rest,
    filter is_posted q ≡ₚ w ++ rest ∧
    length w = n `min` length (filter is_posted q) ∧
    StronglySorted recent w ∧
    ∀ x y, x ∈ w → y ∈ rest → recent x y.

(** *** The window when a time stamp is null

    [x.get("posted_at_utc", "")] is [""] only for a record without the
    key.  For a key that holds JSON null, which is what the generator
    writes, it is [None], and [list.sort] raises [TypeError] when it
    compares that key with another one; with two records or more it compares
    every key.  In this module [item_posted_at_utc it = None] is read as the
    key holding null, and the result [None] is the [TypeError].  Where the
    sort returns, it returns what [sort_desc] gives. *)
Module Raising.

Definition null_stamp (it : item) : bool :=
  bool_decide (item_posted_at_utc it = None).

Definition sort_raises (posted : list item) : bool :=
  bool_decide (2 ≤ length posted) && existsb null_stamp posted.

Definition get_posted_items (q : queue) (limit : nat) : option (list item) :=
  let posted := filter is_posted q in
  if sort_raises posted then None else Some (take limit (sort_desc posted)).

Definition check_fingerprint_duplicate
    (fingerprint : str) (q : queue) (limit : nat) : option bool :=
  posted ← get_posted_items q limit;
  Some (existsb (λ it, bool_decide (item_fingerprint it = Some fingerprint))
                posted).

End Raising.

Inductive validation_failure :=
  | TextTooLong (len : nat)
  | ForbiddenWordsFound (found : list str)
  | DuplicateFingerprint
  | DuplicateHook (hook : str).

Inductive exn :=
  | PostValidationError (why : validation_failure)
  | PostAPIError
  | UnicodeEncodeError.

Inductive result (A : Type) :=
  | Return (a : A)
  | Raise (e : exn).
Arguments Return {A} a.
Arguments Raise {A} e.

(** ** validate_queue.py: the length check and the hook warning *)

Module ValidateQueue.

Inductive length_finding := TooLong (len : nat) | TooShort (len : nat).

Definition validate_text_length (it : item) : list length_finding :=
  let text := default [] (item_text it) in
  let len := length text in
  (if bool_decide (MAX_TEXT_LENGTH < len) then [TooLong len] else []) ++
  (if bool_decide (len < 10) then [TooShort len] else []).

(** [Counter(hooks)]: the distinct hooks in order of first appearance, each
    with the number of times it appears. *)
Fixpoint counter (seen : list str) (hooks : list str) : list (str * nat) :=
  match hooks with
  | [] => []
  | h :: rest =>
      if decide (h ∈ seen) then counter seen rest
      else (h, S (length (filter (λ x, x = h) rest))) :: counter (h :: seen) rest
  end.

(** The hook-frequency warnings: hook and number of appearances. *)
Definition validate_hook_duplicates (q : queue) : list (str * nat) :=
  let hooks := map (λ it, normalize_text (extract_hook it)) q in
  filter (λ hc, 3 < hc.2 ∧ hc.1 ≠ []) (counter [] hooks).

End ValidateQueue.

(** ** What a run of a script does to the world *)

Inductive event :=
  | Loaded
  | Saved (q : queue)
  | Published (text : str).

Inductive ending :=
  | Exit (code : nat)
  | Uncaught (e : exn).

(** [events] in the order they happen; [memory] is the queue held in memory
    when the script ends ([[]] if it was never loaded). *)
Record outcome := Outcome {
  ending_of : ending;
  events : list event;
  memory : queue
}.

(** The queue document after a run that started from [document]: what was
    saved last, if anything was. *)
Definition document_after (document : option queue) (o : outcome)
    : option queue :=
  fold_left (λ doc e, match e with Saved q => Some q | _ => doc end)
            (events o) document.

(** [load_queue]: a missing document reads as the empty queue. *)
Definition load_queue (document : option queue) : queue := default [] document.

(** ** post_slot.py *)

Module PostSlot.

Definition is_target (today slot : str) (it : item) : Prop :=
  item_date it = Some today ∧ item_slot it = Some slot ∧
  item_status it = Some (py "approved").

Global Instance is_target_dec today slot it : Decision (is_target today slot it).
Proof. unfold is_target. apply _. Defined.

Fixpoint find_target_post (today : str) (q : queue) (slot : str) : option item :=
  match q with
  | [] => None
  | it :: rest =>
      if decide (is_target today slot it) then Some it
      else find_target_post today rest slot
  end.

(** The position of the record [find_target_post] returns: the returned
    dictionary is the queue's own, so updating it updates the queue there. *)
Fixpoint find_target_index (today : str) (q : queue) (slot : str) : option nat :=
  match q with
  | [] => None
  | it :: rest =>
      if decide (is_target today slot it) then Some 0
      else S <$> find_target_index today rest slot
  end.

(** [item.get("fingerprint") or calculate_fingerprint(text)]. *)
Definition fingerprint_to_check (it : item) : option str :=
  match item_fingerprint it with
  | Some (c :: f) => Some (c :: f)
  | _ => calculate_fingerprint (default [] (item_text it))
  end.

Definition validate_post (lower : str → str) (it : item) (q : queue)
    : result unit :=
  let text := default [] (item_text it) in
  let '(is_valid, len) := validate_text_length text in
  if negb is_valid then Raise (PostValidationError (TextTooLong len)) else
  let forbidden := check_forbidden_words lower text in
  match forbidden with
  | _ :: _ => Raise (PostValidationError (ForbiddenWordsFound forbidden))
  | [] =>
      match fingerprint_to_check it with
      | None => Raise UnicodeEncodeError
      | Some fingerprint =>
          if check_fingerprint_duplicate fingerprint q 50
          then Raise (PostValidationError DuplicateFingerprint)
          else
            let hook := extract_hook it in
            if check_hook_duplicate hook q 14
            then Raise (PostValidationError (DuplicateHook (take 30 hook)))
            else Return ()
      end
  end.

(** The four checks of the re-validation in the order they are made, each
    with what the error tells; a check is made only if the ones before it
    passed. *)
Definition failed_check (lower : str → str) (it : item) (q : queue)
    (why : validation_failure) : Prop :=
  let text := default [] (item_text it) in
  (MAX_TEXT_LENGTH < length text ∧ why = TextTooLong (length text)) ∨
  (length text ≤ MAX_TEXT_LENGTH ∧
   ((check_forbidden_words lower text ≠ [] ∧
     why = ForbiddenWordsFound (check_forbidden_words lower text)) ∨
    (check_forbidden_words lower text = [] ∧
     ∃ fp, fingerprint_to_check it = Some fp ∧
       ((check_fingerprint_duplicate fp q 50 = true ∧
         why = DuplicateFingerprint) ∨
        (check_fingerprint_duplicate fp q 50 = false ∧
         check_hook_duplicate (extract_hook it) q 14 = true ∧
         why = DuplicateHook (take 30 (extract_hook it))))))).

(** What the publishing endpoint answers to [post_tweet]: status 201 with
    the identifier found in the body (if any), another status (which
    [post_tweet] turns into [PostAPIError]), or a failure of the request. *)
Inductive response :=
  | Created (tweet_id : option str)
  | Refused
  | Failed.

Definition update_posted_item (it : item) (tweet_id : option str) (now : str)
    : item :=
  Item (item_date it) (item_slot it) (item_pillar it) (item_format it)
       (item_hook it) (item_text it) (Some (py "posted"))
       (item_fingerprint it) tweet_id (Some now).

(** The surroundings of one run of [main]. *)
Record world := World {
  env_slot : option str;        (* the environment variable SLOT *)
  dry_run : bool;               (* --dry-run *)
  today_jst : str;
  utc_iso : str;
  document : option queue;      (* queue.json, if it exists *)
  credentials : bool;           (* the four X_* variables are all set *)
  endpoint : str → response
}.

Definition main (lower : str → str) (w : world) : outcome :=
  let slot := default (py "17") (env_slot w) in
  if negb (bool_decide (slot ∈ [py "17"; py "19"])) then Outcome (Exit 1) [] []
  else
    let q := load_queue (document w) in
    match q with
    | [] => Outcome (Exit 0) [Loaded] q
    | _ =>
        match find_target_post (today_jst w) q slot,
              find_target_index (today_jst w) q slot with
        | Some target, Some i =>
            match validate_post lower target q with
            | Raise (PostValidationError _) => Outcome (Exit 1) [Loaded] q
            | Raise e => Outcome (Uncaught e) [Loaded] q
            | Return _ =>
                if dry_run w then Outcome (Exit 0) [Loaded] q
                else if negb (credentials w) then Outcome (Exit 1) [Loaded] q
                else
                  let text := default [] (item_text target) in
                  match endpoint w text with
                  | Created tweet_id =>
                      let q' :=
                        <[i := update_posted_item target tweet_id (utc_iso w)]> q in
                      Outcome (Exit 0) [Loaded; Published text; Saved q'] q'
                  | Refused | Failed =>
                      Outcome (Exit 1) [Loaded; Published text] q
                  end
            end
        | _, _ => Outcome (Exit 0) [Loaded] q
        end
    end.

End PostSlot.

(** ** approve_range.py *)

Module ApproveRange.

(** A [datetime] built from a date only: year, month, day (midnight). *)
Definition datetime := (nat * nat * nat)%type.

Definition datetime_le (a b : datetime) : bool :=
  let '(ya, ma, da) := a in
  let '(yb, mb, db) := b in
  (ya <? yb) || (ya =? yb) && ((ma <? mb) || (ma =? mb) && (da <=? db)).

Definition datetime_gt (a b : datetime) : bool := negb (datetime_le a b).

Section WithStrptime.

(** [strptime] stands for [datetime.strptime(_, "%Y-%m-%d")]; [None] is its
    [ValueError]. *)
Variable strptime : str → option datetime.

Definition parse_date (date_str : str) : option datetime := strptime date_str.

Definition is_in_range (date_str : str) (from_date to_date : datetime) : bool :=
  match parse_date date_str with
  | Some date => datetime_le from_date date && datetime_le date to_date
  | None => false
  end.

Definition approve (it : item) : item :=
  Item (item_date it) (item_slot it) (item_pillar it) (item_format it)
       (item_hook it) (item_text it) (Some (py "approved"))
       (item_fingerprint it) (item_tweet_id it) (item_posted_at_utc it).

Definition selected (from_date to_date : datetime) (it : item) : bool :=
  let date_str := default [] (item_date it) in
  let status := default [] (item_status it) in
  bool_decide (status = py "draft") && is_in_range date_str from_date to_date.

(** The records the specification has range approval act on: drafts whose
    date parses and lies between the two bounds, bounds included. *)
Definition draft_in_window (from_date to_date : datetime) (it : item) : Prop :=
  item_status it = Some (py "draft") ∧
  ∃ date, parse_date (default [] (item_date it)) = Some date ∧
          datetime_le from_date date = true ∧ datetime_le date to_date = true.

(** The loop of [main] over the records: the queue after it and
    [approved_count]. *)
Fixpoint approve_loop (dry : bool) (from_date to_date : datetime) (q : queue)
    (approved_count : nat) : queue * nat :=
  match q with
  | [] => ([], approved_count)
  | it :: rest =>
      if selected from_date to_date it
      then
        let '(rest', n) := approve_loop dry from_date to_date rest (S approved_count) in
        ((if dry then it else approve it) :: rest', n)
      else
        let '(rest', n) := approve_loop dry from_date to_date rest approved_count in
        (it :: rest', n)
  end.

Record args := Args {
  arg_from : str;               (* --from *)
  arg_to : str;                 (* --to *)
  arg_dry_run : bool            (* --dry-run *)
}.

(** [main] once [parse_args] has returned the arguments; what
    [parse_args] itself can end with is in [ApproveRangeScript] below. *)
Definition main (a : args) (document : option queue) : outcome :=
  match parse_date (arg_from a), parse_date (arg_to a) with
  | Some from_date, Some to_date =>
      if datetime_gt from_date to_date then Outcome (Exit 1) [] []
      else
        let q := load_queue document in
        match q with
        | [] => Outcome (Exit 0) [Loaded] q
        | _ =>
            let '(q', approved_count) :=
              approve_loop (arg_dry_run a) from_date to_date q 0 in
            if arg_dry_run a then Outcome (Exit 0) [Loaded] q'
            else if bool_decide (0 < approved_count)
                 then Outcome (Exit 0) [Loaded; Saved q'] q'
                 else Outcome (Exit 0) [Loaded] q'
        end
  | _, _ => Outcome (Exit 1) [] []
  end.

End WithStrptime.

End ApproveRange.

(** ** generate_queue.py *)

Module GenerateQueue.

(** *** The random source

    The module-level generator of [random] is a state read by every call:
    [rng] is the sequence of numbers still to be drawn.  [None] stands for
    an exception, which ends the generation of the record. *)
Definition rng := nat → nat.

Definition M (A : Type) : Type := rng → option (A * rng).

Global Instance M_ret : MRet M := λ A a g, Some (a, g).
Global Instance M_bind : MBind M := λ A B f m g,
  match m g with
  | Some (a, g') => f a g'
  | None => None
  end.

Definition raise {A} : M A := λ _, None.

(** One number below [n] (for [0 < n]). *)
Definition randbelow (n : nat) : M nat :=
  λ g, Some (g 0 mod n, λ i, g (S i)).

(** [random.choice]: [IndexError] on an empty sequence. *)
Definition random_choice {A} (l : list A) : M A :=
  match l with
  | [] => raise
  | _ => i ← randbelow (length l);
         match l !! i with Some x => mret x | None => raise end
  end.

Fixpoint sample_from {A} (k : nat) (pool : list A) : M (list A) :=
  match k with
  | O => mret []
  | S k' =>
      i ← randbelow (length pool);
      match pool !! i with
      | Some x => rest ← sample_from k' (delete i pool); mret (x :: rest)
      | None => raise
      end
  end.

(** [random.sample(population, k)]: [k] elements at distinct positions;
    [ValueError] if [k] is negative or larger than the population. *)
Definition random_sample {A} (population : list A) (k : Z) : M (list A) :=
  if bool_decide (0 ≤ k ≤ Z.of_nat (length population))%Z
  then sample_from (Z.to_nat k) population
  else raise.

(** *** The template and lexicon documents *)

(** [items_count] / [steps_count]: a list to choose from, or a number. *)
Inductive count_spec :=
  | CountList (choices : list Z)
  | CountInt (n : Z).

(** A template.  A list that is missing reads as the empty list everywhere
    it is used, so only the other keys are optional. *)
Record template := Template {
  t_structure : option str;
  t_format : option str;
  t_hook_patterns : list str;
  t_closing_patterns : list str;
  t_lesson_patterns : list str;
  t_advice_patterns : list str;
  t_items_format : option str;
  t_items_count : option count_spec;
  t_steps_format : option str;
  t_steps_count : option count_spec
}.

(** The [options] object of a pillar, when it has at least one key. *)
Record pillar_options := PillarOptions {
  option_a : option str;
  option_b : option str
}.

Record pillar := Pillar {
  p_topic : option str;
  p_actions : option (list str);
  p_options : option pillar_options;
  p_check_items : list str;
  p_cautions : list str;
  p_story_elements : list str;
  p_examples : list str
}.

Record lexicon := Lexicon {
  l_pillars : list (str * pillar);
  l_counts : option (list str);            (* common.counts *)
  l_required_tags : list str;              (* hashtags.required *)
  l_pillar_tags : list (str * list str)    (* hashtags.pillar *)
}.

(** [templates["templates"]]: slot to templates. *)
Definition templates := list (str * list template).

(** [d.get(key)] on an object given by its entries. *)
Fixpoint dict_get {V} (d : list (str * V)) (key : str) : option V :=
  match d with
  | [] => None
  | (k, v) :: rest => if decide (k = key) then Some v else dict_get rest key
  end.

(** *** The composer *)

Definition replace_all (replacements : list (str * str)) (pattern : str) : str :=
  fold_left (λ acc kv, replace kv.1 kv.2 acc) replacements pattern.

Definition generate_hook (t : template) (pillar_data : pillar)
    (counts : option (list str)) : M str :=
  let hook_patterns := t_hook_patterns t in
  match hook_patterns with
  | [] => mret []
  | _ =>
      pattern ← random_choice hook_patterns;
      count ← random_choice (default [py "5"] counts);
      action ← random_choice (default [py "対応"] (p_actions pillar_data));
      let options := p_options pillar_data in
      let replacements :=
        [(py "{pillar_topic}", default [] (p_topic pillar_data));
         (py "{count}", count);
         (py "{action}", action);
         (py "{option_a}", default (py "A") (options ≫= option_a));
         (py "{option_b}", default (py "B") (options ≫= option_b))] in
      mret (replace_all replacements pattern)
  end.

Inductive item_type := Items | Steps.

(** [enumerate(selected)] with the numbered glyphs: [IndexError] from the
    seventh item on. *)
Fixpoint numbered (glyphs : str) (selected : list str) : option (list str) :=
  match selected with
  | [] => Some []
  | x :: rest =>
      match glyphs with
      | [] => None
      | g :: glyphs' => (λ tl, (g :: py " " ++ x) :: tl) <$> numbered glyphs' rest
      end
  end.

Definition generate_items (t : template) (pillar_data : pillar)
    (ty : item_type) : M str :=
  let items_format :=
    default (py "bullet")
      (match ty with Items => t_items_format t | Steps => t_steps_format t end) in
  let item_count :=
    default (CountList [4%Z])
      (match ty with Items => t_items_count t | Steps => t_steps_count t end) in
  count ← match item_count with
          | CountList l => random_choice l
          | CountInt n => mret n
          end;
  let all_items :=
    match ty with
    | Items => p_check_items pillar_data ++ p_cautions pillar_data
    | Steps => default [] (p_actions pillar_data) ++ p_check_items pillar_data
    end in
  let count := if bool_decide (Z.of_nat (length all_items) < count)%Z
               then Z.of_nat (length all_items) else count in
  selected ← match all_items with
             | [] => mret []
             | _ => random_sample all_items count
             end;
  if decide (items_format = py "checkbox")
  then mret (join [LF] (map (λ x, py "☑ " ++ x) selected))
  else if decide (items_format = py "numbered")
  then match numbered (py "①②③④⑤⑥") selected with
       | Some lines => mret (join [LF] lines)
       | None => raise
       end
  else mret (join [LF] (map (λ x, py "・" ++ x) selected)).

Definition generate_closing (t : template) : M str :=
  match t_closing_patterns t with
  | [] => mret []
  | closing_patterns => random_choice closing_patterns
  end.

Definition generate_story_body (pillar_data : pillar) : M str :=
  let story_elements := p_story_elements pillar_data in
  let examples := p_examples pillar_data in
  part1 ← match story_elements with
          | [] => mret []
          | _ => x ← random_choice story_elements; mret [x]
          end;
  part2 ← match examples with
          | [] => mret []
          | _ => x ← random_choice examples; mret [x]
          end;
  let parts := part1 ++ part2 in
  match parts with
  | [] => mret (py "実際にあった話です。")
  | _ => mret (join [LF] parts)
  end.

Definition generate_criteria_body (pillar_data : pillar) : M str :=
  let cautions := p_cautions pillar_data in
  let check_items := p_check_items pillar_data in
  items ← random_sample (cautions ++ check_items)
            (Z.of_nat (3 `min` (length cautions + length check_items)));
  mret (join [LF] (map (λ x, py "・" ++ x) items)).

Definition generate_options (pillar_data : pillar) : M str :=
  let actions := default [] (p_actions pillar_data) in
  match p_options pillar_data with
  | Some options =>
      mret (py "A: " ++ default (py "A") (option_a options) ++ [LF] ++
            py "B: " ++ default (py "B") (option_b options))
  | None =>
      if bool_decide (2 ≤ length actions)
      then
        selected ← random_sample actions 2;
        match selected with
        | a :: b :: _ => mret (py "A: " ++ a ++ [LF] ++ py "B: " ++ b)
        | _ => raise
        end
      else mret (py "A: する" ++ [LF] ++ py "B: しない")
  end.

Definition generate_lesson (t : template) : M str :=
  match t_lesson_patterns t with
  | [] => mret []
  | lesson_patterns => random_choice lesson_patterns
  end.

Definition generate_post_text (t : template) (pillar_data : pillar)
    (counts : option (list str)) : M (str * str) :=
  let structure := default (py "{hook}") (t_structure t) in
  hook ← generate_hook t pillar_data counts;
  closing ← generate_closing t;
  items ← generate_items t pillar_data Items;
  steps ← generate_items t pillar_data Steps;
  template_body ← generate_story_body pillar_data;
  comparison ← generate_criteria_body pillar_data;
  story_body ← generate_story_body pillar_data;
  lesson ← generate_lesson t;
  criteria_body ← generate_criteria_body pillar_data;
  options ← generate_options pillar_data;
  context ← generate_closing t;
  insight ← generate_story_body pillar_data;
  case_description ← generate_story_body pillar_data;
  let advice := match t_advice_patterns t with
                | first :: _ => first
                | [] => py "専門家に相談を"
                end in
  let parts :=
    [(py "{hook}", hook); (py "{closing}", closing); (py "{items}", items);
     (py "{steps}", steps); (py "{template_body}", template_body);
     (py "{comparison}", comparison); (py "{story_body}", story_body);
     (py "{lesson}", lesson); (py "{criteria_body}", criteria_body);
     (py "{options}", options); (py "{context}", context);
     (py "{insight}", insight); (py "{case_description}", case_description);
     (py "{advice}", advice)] in
  mret (hook, normalize_text (replace_all parts structure)).

Definition generate_hashtags (lex : lexicon) (pillar_key : str) : M str :=
  let required := l_required_tags lex in
  let pillar_tags := default [] (dict_get (l_pillar_tags lex) pillar_key) in
  tags ← match pillar_tags with
         | [] => mret required
         | _ => tag ← random_choice pillar_tags; mret (required ++ [tag])
         end;
  mret (join [SP] tags).

(** The loop [for _ in range(5)] of [generate_single_post] with [n] rounds
    to go: [last] is the hook and text of the round before, and the result
    carries the set of used hooks as the loop leaves it. *)
Fixpoint retry_loop (n : nat) (t : template) (pillar_data : pillar)
    (counts : option (list str)) (last : option (str * str))
    (used_hooks : gset str) : M (option (str * str) * gset str) :=
  match n with
  | O => mret (last, used_hooks)
  | S n' =>
      '(hook, text) ← generate_post_text t pillar_data counts;
      let normalized_hook := normalize_text hook in
      if decide (normalized_hook ∉ used_hooks)
      then mret (Some (hook, text), {[normalized_hook]} ∪ used_hooks)
      else retry_loop n' t pillar_data counts (Some (hook, text)) used_hooks
  end.

(** A round of the loop collides when its normalised hook is in the set. *)
Definition collides (used : gset str) (o : str * str) : Prop :=
  normalize_text o.1 ∈ used.

(** [k] calls of [generate_post_text] in a row: the hooks and texts they
    return, in order. *)
Fixpoint attempts (k : nat) (t : template) (pillar_data : pillar)
    (counts : option (list str)) : M (list (str * str)) :=
  match k with
  | O => mret []
  | S k' =>
      x ← generate_post_text t pillar_data counts;
      rest ← attempts k' t pillar_data counts;
      mret (x :: rest)
  end.

(** The text of the record: the composed text, followed by the line of
    hashtags after an empty line if there are hashtags. *)
Definition with_hashtags (text hashtags : str) : str :=
  match hashtags with
  | [] => text
  | _ => text ++ [LF; LF] ++ hashtags
  end.

(** The result is the returned record ([None] for Python's [None]) and the
    set of used hooks after the call. *)
Definition generate_single_post (date slot : str) (tpls : templates)
    (lex : lexicon) (used_hooks : gset str) : M (option item * gset str) :=
  let slot_templates := default [] (dict_get tpls slot) in
  let pillars := l_pillars lex in
  let counts := l_counts lex in
  match slot_templates, pillars with
  | [], _ | _, [] => mret (None, used_hooks)
  | _, _ =>
      t ← random_choice slot_templates;
      pillar_key ← random_choice (map fst pillars);
      match dict_get pillars pillar_key with
      | None => raise
      | Some pillar_data =>
          '(last, used_hooks) ← retry_loop 5 t pillar_data counts None used_hooks;
          match last with
          | None => raise
          | Some (hook, text) =>
              hashtags ← generate_hashtags lex pillar_key;
              let text := with_hashtags text hashtags in
              match calculate_fingerprint text with
              | None => raise
              | Some fingerprint =>
                  mret (Some (Item (Some date) (Some slot) (Some pillar_key)
                                   (Some (default [] (t_format t)))
                                   (Some hook) (Some text) (Some (py "draft"))
                                   (Some fingerprint) None None),
                        used_hooks)
              end
          end
      end
  end.

End GenerateQueue.

(** ** Further parts of the scripts *)

(** How a run of [post_slot.main] ends on an exception of [validate_post]:
    [PostValidationError] is caught and turned into exit status 1, anything
    else leaves [main] uncaught. *)
Definition ending_for (e : exn) : ending :=
  match e with
  | PostValidationError _ => Exit 1
  | _ => Uncaught e
  end.

(** *** approve_range.py: the command line

    [parser.parse_args()] is the first thing [main] does.  It ends the
    script itself, with status 0 when help is asked for and with status 2
    when it rejects the command line (a missing [--from] or [--to], an
    option it does not know); otherwise it returns the arguments, and the
    script goes on as [ApproveRange.main] has it. *)
Module ApproveRangeScript.

Inductive command_line :=
  | Help
  | Rejected
  | Accepted (a : ApproveRange.args).

Definition main (strptime : str → option ApproveRange.datetime)
    (cl : command_line) (document : option queue) : outcome :=
  match cl with
  | Help => Outcome (Exit 0) [] []
  | Rejected => Outcome (Exit 2) [] []
  | Accepted a => ApproveRange.main strptime a document
  end.

End ApproveRangeScript.

(** The counts [generate_items] can come to use for a template: the choices
    of the list, or the one number; [[4]] when the key is missing. *)
Definition possible_counts (spec : option GenerateQueue.count_spec) : list Z :=
  match default (GenerateQueue.CountList [4%Z]) spec with
  | GenerateQueue.CountList l => l
  | GenerateQueue.CountInt n => [n]
  end.

(** *** validate_queue.py: the schema check, the duplicate check and [main] *)

Module ValidateQueueScript.

Definition REQUIRED_FIELDS : list (str * (item → option str)) :=
  [(py "date", item_date); (py "slot", item_slot); (py "pillar", item_pillar);
   (py "format", item_format); (py "hook", item_hook); (py "text", item_text);
   (py "status", item_status); (py "fingerprint", item_fingerprint)].

Definition VALID_SLOTS : list str := [py "17"; py "19"].
Definition VALID_PILLARS : list str :=
  [py "unpaid"; py "unitprice"; py "tax"; py "vehicle"; py "ops"; py "risk";
   py "case"].
Definition VALID_FORMATS : list str :=
  [py "checklist"; py "template"; py "howto"; py "story"; py "criteria";
   py "question"].
Definition VALID_STATUSES : list str := [py "draft"; py "approved"; py "posted"].

(** The error messages, by what they tell. *)
Inductive error :=
  | MissingField (index : nat) (field : str)
  | InvalidDate (index : nat) (date : str)
  | InvalidSlot (index : nat) (slot : str)
  | InvalidPillar (index : nat) (pillar : str)
  | InvalidFormat (index : nat) (format_type : str)
  | InvalidStatus (index : nat) (status : str)
  | BadLength (index : nat) (finding : ValidateQueue.length_finding)
  | ForbiddenWords (index : nat) (forbidden : list str)
  | DuplicateFingerprints (indices : list nat) (fp : str)
  | DuplicateDateSlot (indices : list nat) (pair : option str * option str).

Definition HYPHEN : codepoint := 45%N.

(** [Counter(l).items()]: the distinct elements in order of first
    appearance, each with the number of times it appears. *)
Fixpoint count_elements {A} `{EqDecision A} (seen l : list A) : list (A * nat) :=
  match l with
  | [] => []
  | h :: rest =>
      if decide (h ∈ seen) then count_elements seen rest
      else (h, S (length (filter (λ x, x = h) rest)))
             :: count_elements (h :: seen) rest
  end.

(** [[i for i, x in enumerate(l) if p(x)]]. *)
Definition indices_where {A} (p : A → bool) (l : list A) : list nat :=
  (filter (λ ix, p ix.2 = true) (imap pair l)).*1.

(** The values of [item.get("fingerprint")] that are truthy. *)
Definition fingerprints (q : queue) : list str :=
  omap (λ it, match item_fingerprint it with
              | Some (c :: f) => Some (c :: f)
              | _ => None
              end) q.

Definition is_pending (it : item) : bool :=
  bool_decide (item_status it = Some (py "approved")) ||
  bool_decide (item_status it = Some (py "draft")).

(** [date_slot_pairs]: position and (date, slot) of the records that are
    approved or drafts. *)
Definition date_slot_pairs (q : queue) : list (nat * (option str * option str)) :=
  omap (λ ix, if is_pending ix.2
              then Some (ix.1, (item_date ix.2, item_slot ix.2)) else None)
       (imap pair q).

Definition validate_duplicates (q : queue) : list error :=
  flat_map (λ fc, if bool_decide (1 < fc.2)
                  then [DuplicateFingerprints
                          (indices_where
                             (λ it, bool_decide (item_fingerprint it = Some fc.1)) q)
                          (take 16 fc.1)]
                  else [])
           (count_elements [] (fingerprints q)) ++
  flat_map (λ pc, if bool_decide (1 < pc.2)
                  then [DuplicateDateSlot
                          ((filter (λ p, p.2 = pc.1) (date_slot_pairs q)).*1) pc.1]
                  else [])
           (count_elements [] ((date_slot_pairs q).*2)).

Section Checks.

(** [is_digit] stands for the class [\d] of [re] on [str]: the Unicode
    decimal digits. *)
Variable is_digit : codepoint → bool.
Variable lower : str → str.

(** [re.match(r"^\d{4}-\d{2}-\d{2}$", date_str)]: [$] matches at the end of
    the string and also just before a newline that ends it. *)
Definition validate_date_format (date_str : str) : bool :=
  let shape y1 y2 y3 y4 h1 m1 m2 h2 d1 d2 :=
    is_digit y1 && is_digit y2 && is_digit y3 && is_digit y4 &&
    bool_decide (h1 = HYPHEN) && is_digit m1 && is_digit m2 &&
    bool_decide (h2 = HYPHEN) && is_digit d1 && is_digit d2 in
  match date_str with
  | [y1; y2; y3; y4; h1; m1; m2; h2; d1; d2] =>
      shape y1 y2 y3 y4 h1 m1 m2 h2 d1 d2
  | [y1; y2; y3; y4; h1; m1; m2; h2; d1; d2; nl] =>
      shape y1 y2 y3 y4 h1 m1 m2 h2 d1 d2 && bool_decide (nl = LF)
  | _ => false
  end.

(** [if value and value not in valid]. *)
Definition invalid_in (valid : list str) (value : str) : bool :=
  bool_decide (value ≠ []) && bool_decide (value ∉ valid).

Definition validate_schema (it : item) (index : nat) : list error :=
  flat_map (λ fg, match fg.2 it with
                  | None => [MissingField index fg.1]
                  | Some _ => []
                  end) REQUIRED_FIELDS ++
  (let date := default [] (item_date it) in
   if bool_decide (date ≠ []) && negb (validate_date_format date)
   then [InvalidDate index date] else []) ++
  (let slot := default [] (item_slot it) in
   if invalid_in VALID_SLOTS slot then [InvalidSlot index slot] else []) ++
  (let pillar := default [] (item_pillar it) in
   if invalid_in VALID_PILLARS pillar then [InvalidPillar index pillar] else []) ++
  (let format_type := default [] (item_format it) in
   if invalid_in VALID_FORMATS format_type
   then [InvalidFormat index format_type] else []) ++
  (let status := default [] (item_status it) in
   if invalid_in VALID_STATUSES status then [InvalidStatus index status] else []).

Definition validate_forbidden (it : item) (index : nat) : list error :=
  let text := default [] (item_text it) in
  let forbidden := check_forbidden_words lower text in
  match forbidden with
  | [] => []
  | _ => [ForbiddenWords index forbidden]
  end.

(** The loop of [main] over the records. *)
Definition validate_items (q : queue) : list error :=
  concat (imap (λ i it,
                  validate_schema it i ++
                  (BadLength i <$> ValidateQueue.validate_text_length it) ++
                  validate_forbidden it i) q).

(** What a run prints and how it ends. *)
Record report := Report {
  run : outcome;
  all_errors : list error;
  all_warnings : list (str * nat)
}.

Definition main (document : option queue) : report :=
  let q := load_queue document in
  match q with
  | [] => Report (Outcome (Exit 0) [Loaded] q) [] []
  | _ =>
      let all_errors := validate_items q ++ validate_duplicates q in
      let all_warnings := ValidateQueue.validate_hook_duplicates q in
      match all_errors with
      | _ :: _ => Report (Outcome (Exit 1) [Loaded] q) all_errors all_warnings
      | [] => Report (Outcome (Exit 0) [Loaded] q) all_errors all_warnings
      end
  end.

End Checks.

End ValidateQueueScript.

(** *** generate_queue.py: [main] *)

Module GenerateQueueScript.

Import GenerateQueue.

Record args := Args {
  arg_days : Z;                 (* --days *)
  arg_append : bool             (* --append *)
}.

(** [used_hooks] as [main] fills it from the existing queue. *)
Definition seed_hooks (existing_queue : queue) : gset str :=
  fold_left (λ used_hooks it,
               match item_hook it with
               | Some (c :: h) => {[normalize_text (c :: h)]} ∪ used_hooks
               | _ => used_hooks
               end) existing_queue ∅.

(** The loop over the slots of one day. *)
Fixpoint slots_loop (date_str : str) (slots : list str) (tpls : templates)
    (lex : lexicon) (new_posts : list item) (used_hooks : gset str)
    : M (list item * gset str) :=
  match slots with
  | [] => mret (new_posts, used_hooks)
  | slot :: rest =>
      '(post, used_hooks) ← generate_single_post date_str slot tpls lex used_hooks;
      let new_posts := match post with
                       | Some p => new_posts ++ [p]
                       | None => new_posts
                       end in
      slots_loop date_str rest tpls lex new_posts used_hooks
  end.

(** The loop over the days; [date_of d] is the date string of the day [d]
    days after the start. *)
Fixpoint days_loop (date_of : nat → str) (day_offsets : list nat)
    (tpls : templates) (lex : lexicon) (new_posts : list item)
    (used_hooks : gset str) : M (list item * gset str) :=
  match day_offsets with
  | [] => mret (new_posts, used_hooks)
  | day_offset :: rest =>
      '(new_posts, used_hooks) ←
        slots_loop (date_of day_offset) [py "17"; py "19"] tpls lex
                   new_posts used_hooks;
      days_loop date_of rest tpls lex new_posts used_hooks
  end.

(** [main], with the two content documents as loaded.  [start_date] is
    [None] when [--start] does not parse, which ends the script with an
    exception before the queue is read; the random source is the state the
    computation starts from, seeded or not. *)
Definition main (a : args) (start_date : option (nat → str))
    (tpls : templates) (lex : lexicon) (document : option queue) : M outcome :=
  match start_date with
  | None => raise
  | Some date_of =>
      let existing_queue := if arg_append a then load_queue document else [] in
      let used_hooks := seed_hooks existing_queue in
      '(new_posts, _) ←
        days_loop date_of (seq 0 (Z.to_nat (arg_days a))) tpls lex [] used_hooks;
      let final_queue :=
        if arg_append a then existing_queue ++ new_posts else new_posts in
      mret (Outcome (Exit 0)
                    ((if arg_append a then [Loaded] else []) ++ [Saved final_queue])
                    final_queue)
  end.

End GenerateQueueScript.

(** ** Concrete inputs

    The inputs at which the properties below are tried out. *)

Module Examples.

(** [str.lower] on texts whose only cased letters are ASCII. *)
Definition lower_ascii (t : str) : str :=
  map (λ c, if bool_decide (65 ≤ c ≤ 90)%N then (c + 32)%N else c) t.

Definition digit (c : codepoint) : option nat :=
  if bool_decide (48 ≤ c ≤ 57)%N then Some (N.to_nat (c - 48)) else None.

Definition days_in_month (y m : nat) : nat :=
  if bool_decide (m = 2)
  then (if bool_decide (y mod 4 = 0 ∧ (y mod 100 ≠ 0 ∨ y mod 400 = 0))
        then 29 else 28)
  else if bool_decide (m ∈ [4; 6; 9; 11]) then 30 else 31.

(** [strptime(_, "%Y-%m-%d")] on zero-padded ASCII dates. *)
Definition strptime_padded (s : str) : option ApproveRange.datetime :=
  match s with
  | [y1; y2; y3; y4; h1; m1; m2; h2; d1; d2] =>
      y1 ← digit y1; y2 ← digit y2; y3 ← digit y3; y4 ← digit y4;
      m1 ← digit m1; m2 ← digit m2; d1 ← digit d1; d2 ← digit d2;
      let y := 1000 * y1 + 100 * y2 + 10 * y3 + y4 in
      let m := 10 * m1 + m2 in
      let d := 10 * d1 + d2 in
      if bool_decide (h1 = 45%N ∧ h2 = 45%N ∧ 1 ≤ y ∧ 1 ≤ m ≤ 12 ∧
                      1 ≤ d ≤ days_in_month y m)
      then Some (y, m, d) else None
  | _ => None
  end.

Definition hookless_item : item :=
  Item None None None None (Some []) (Some (py " 最初  の行
二行目")) (Some (py "posted")) None None None.

Definition record (date slot hook text status fingerprint : string)
    (posted_at : option string) : item :=
  Item (Some (py date)) (Some (py slot)) (Some (py "tax")) (Some (py "howto"))
       (Some (py hook)) (Some (py text)) (Some (py status))
       (Some (py fingerprint)) ((λ _, py "1900000000000000001") <$> posted_at)
       (py <$> posted_at).

(** A queue for range approval: a draft inside the window, a draft after
    it, an approved record inside it and a draft with a date that does not
    parse. *)
Definition draft_inside : item :=
  record "2025-01-03" "17" "確認の手順" "確認の手順を三つ" "draft" "f1" None.
Definition draft_outside : item :=
  record "2025-02-01" "17" "請求の基本" "請求の基本を整理" "draft" "f2" None.
Definition approved_inside : item :=
  record "2025-01-04" "19" "経費の記録" "経費の記録を続ける" "approved" "f3" None.
Definition draft_undated : item :=
  record "来週" "19" "車両の点検" "車両の点検は毎朝" "draft" "f4" None.

Definition approval_queue : queue :=
  [draft_inside; draft_outside; approved_inside; draft_undated].

Definition first_week : ApproveRange.args :=
  ApproveRange.Args (py "2025-01-01") (py "2025-01-07") false.

Definition inverted_week : ApproveRange.args :=
  ApproveRange.Args (py "2025-01-07") (py "2025-01-01") false.

Definition first_week_preview : ApproveRange.args :=
  ApproveRange.Args (py "2025-01-01") (py "2025-01-07") true.

(** A dispatch whose target repeats the fingerprint of a posted record. *)
Definition posted_before : item :=
  record "2024-12-31" "17" "年末の確認" "年末の確認を忘れずに" "posted" "f9"
         (Some "2024-12-31T08:00:00Z").
Definition repeated_target : item :=
  record "2025-01-01" "17" "年始の確認" "年始の確認を忘れずに" "approved" "f9" None.

Definition repeating_world : PostSlot.world :=
  PostSlot.World None false (py "2025-01-01") (py "2025-01-01T08:00:00Z")
                 (Some [posted_before; repeated_target]) true
                 (λ _, PostSlot.Created (Some (py "1"))).

Definition posted_late : item :=
  record "2025-01-02" "19" "経費の確認" "経費の確認は月末に" "posted" "f8"
         (Some "2025-01-02T10:00:00Z").
(** A posted record without a time stamp. *)
Definition posted_undated : item :=
  record "2024-12-30" "19" "請求の確認" "請求の確認は早めに" "posted" "f7" None.

Definition history : queue :=
  [posted_undated; posted_before; draft_inside; posted_late].




(** A dispatch that goes through. *)
Definition fresh_target : item :=
  record "2025-01-01" "17" "年始の確認" "年始の確認を忘れずに" "approved" "f5" None.

Definition fresh_world : PostSlot.world :=
  PostSlot.World None false (py "2025-01-01") (py "2025-01-01T08:00:00Z")
                 (Some [posted_before; fresh_target]) true
                 (λ _, PostSlot.Created (Some (py "1"))).

(** Two approved records for one day and slot, and an endpoint that
    refuses. *)
Definition second_target : item :=
  record "2025-01-01" "17" "年始の準備" "年始の準備は前日に" "approved" "f6" None.

Definition double_world : PostSlot.world :=
  PostSlot.World (Some (py "17")) false (py "2025-01-01")
                 (py "2025-01-01T08:00:00Z")
                 (Some [posted_before; fresh_target; second_target]) true
                 (λ _, PostSlot.Created (Some (py "2"))).

Definition refusing_world : PostSlot.world :=
  PostSlot.World None false (py "2025-01-01") (py "2025-01-01T08:00:00Z")
                 (Some [posted_before; fresh_target]) true
                 (λ _, PostSlot.Refused).

(** Generation: a lexicon with one pillar and two kinds of hashtags. *)
Definition tax_pillar : GenerateQueue.pillar :=
  GenerateQueue.Pillar (Some (py "確定申告")) (Some [py "記帳"; py "領収書の整理"])
    None [py "控除の確認"; py "期限の確認"] [py "申告漏れ"] [] [].

Definition small_lexicon : GenerateQueue.lexicon :=
  GenerateQueue.Lexicon [(py "tax", tax_pillar)] (Some [py "3"; py "5"])
    [py "#軽貨物"] [(py "tax", [py "#確定申告"])].

Definition bare_lexicon : GenerateQueue.lexicon :=
  GenerateQueue.Lexicon [(py "tax", tax_pillar)] None [] [].

Definition checklist_template : GenerateQueue.template :=
  GenerateQueue.Template
    (Some (py "{hook}

{items}

{closing}"))
    (Some (py "checklist"))
    [py "{pillar_topic}の確認{count}点"] [py "今日のうちに。"] [] []
    (Some (py "checkbox")) (Some (GenerateQueue.CountInt 2)) None None.

(** A template whose only hook pattern has 261 characters. *)
Definition long_template : GenerateQueue.template :=
  GenerateQueue.Template None None [repeat 12354%N 261] [] [] []
                         None None None None.

(** A template whose only hook pattern has [n] characters. *)
Definition template_of_length (n : nat) : GenerateQueue.template :=
  GenerateQueue.Template None None [replicate n 12354%N] [] [] []
                         None None None None.

(** A template whose hook is always the same. *)
Definition fixed_template : GenerateQueue.template :=
  GenerateQueue.Template None None [py "今日の確認"] [] [] [] None None None None.

Definition counting : GenerateQueue.rng := λ i, i.

Definition text_of
    (r : option (option item * gset str * GenerateQueue.rng)) : option str :=
  match r with
  | Some (Some rec, _, _) => item_text rec
  | _ => None
  end.

Definition text_length_of
    (r : option (option item * gset str * GenerateQueue.rng)) : option nat :=
  length <$> text_of r.

End Examples.

(** * Properties *)

(** ** Normalisation *)

Section Normalisation.

Lemma re_sub_blanks_squeeze t :
  re_sub_runs is_blank 1 [SP] 0 t = squeeze_blanks false t ∧
  re_sub_runs is_blank 1 [SP] (run_length is_blank t) t = squeeze_blanks true t.
Proof.
  induction t as [|c r [IH0 IH1]]; [done|].
  cbn [re_sub_runs squeeze_blanks run_length].
  destruct (is_blank c) eqn:Hc; cbn [Nat.leb].
  - replace (S (run_length is_blank r) - 1) with (run_length is_blank r) by lia.
    rewrite IH1. done.
  - rewrite IH0. done.
Qed.

Lemma re_sub_newlines_unfold t :
  re_sub_runs is_newline 3 [LF; LF] 0 t =
  if (3 <=? run_length is_newline t)%nat
  then [LF; LF] ++ re_sub_runs is_newline 3 [LF; LF] (run_length is_newline t) t
  else match t with
       | [] => []
       | c :: r => c :: re_sub_runs is_newline 3 [LF; LF] 0 r
       end.
Proof.
  destruct t as [|c r]; [done|].
  cbn [re_sub_runs run_length].
  destruct (is_newline c); [|done].
  replace (S (run_length is_newline r) - 1) with (run_length is_newline r) by lia.
  done.
Qed.

Lemma cap_newlines_re_sub t k :
  cap_newlines k t =
  if (k + run_length is_newline t <? 3)%nat
  then re_sub_runs is_newline 3 [LF; LF] 0 t
  else repeat LF (2 - k) ++
       re_sub_runs is_newline 3 [LF; LF] (run_length is_newline t) t.
Proof.
  revert k. induction t as [|c r IH]; intros k.
  - cbn [cap_newlines re_sub_runs run_length].
    destruct (Nat.ltb_spec (k + 0) 3); [done|].
    replace (2 - k) with 0 by lia. done.
  - cbn [cap_newlines].
    rewrite (re_sub_newlines_unfold (c :: r)).
    cbn [run_length]. destruct (is_newline c) eqn:Hc.
    + assert (c = LF) as -> by (unfold is_newline in Hc; by case_bool_decide).
      rewrite IH. cbn [re_sub_runs].
      destruct (Nat.ltb_spec (S k + run_length is_newline r) 3),
               (Nat.ltb_spec (k + S (run_length is_newline r)) 3),
               (Nat.leb_spec 3 (S (run_length is_newline r))),
               (Nat.ltb_spec k 2); try lia; try done.
      * replace (2 - k) with (S (2 - S k)) by lia. done.
      * replace (2 - S k) with 0 by lia. replace (2 - k) with 0 by lia. done.
      * replace (2 - k) with (S (2 - S k)) by lia. done.
      * replace (2 - S k) with 0 by lia. replace (2 - k) with 0 by lia. done.
    + rewrite (IH 0).
      assert ((if (0 + run_length is_newline r <? 3)%nat
               then re_sub_runs is_newline 3 [LF; LF] 0 r
               else repeat LF (2 - 0) ++
                    re_sub_runs is_newline 3 [LF; LF] (run_length is_newline r) r)
              = re_sub_runs is_newline 3 [LF; LF] 0 r) as ->.
      { destruct (Nat.ltb_spec (0 + run_length is_newline r) 3); [done|].
        rewrite (re_sub_newlines_unfold r).
        destruct (Nat.leb_spec 3 (run_length is_newline r)); [done|lia]. }
      assert (re_sub_runs is_newline 3 [LF; LF] 0 (c :: r) =
              c :: re_sub_runs is_newline 3 [LF; LF] 0 r) as ->.
      { cbn [re_sub_runs run_length]. rewrite Hc. done. }
      change (3 <=? 0)%nat with false. cbv iota.
      destruct (Nat.ltb_spec (k + 0) 3); [done|].
      replace (2 - k) with 0 by lia. done.
Qed.

Lemma re_sub_newlines_cap t :
  re_sub_runs is_newline 3 [LF; LF] 0 t = cap_newlines 0 t.
Proof.
  rewrite (cap_newlines_re_sub t 0).
  destruct (Nat.ltb_spec (0 + run_length is_newline t) 3); [done|].
  rewrite (re_sub_newlines_unfold t).
  destruct (Nat.leb_spec 3 (run_length is_newline t)); [done|lia].
Qed.

(** [normalize_text] as the composition of the two one-pass readings. *)
Lemma normalize_text_passes t :
  normalize_text t = strip (cap_newlines 0 (squeeze_blanks false t)).
Proof.
  unfold normalize_text.
  by rewrite (proj1 (re_sub_blanks_squeeze t)), re_sub_newlines_cap.
Qed.

(** *** The blank pass and its fixed points *)

Lemma blanks_tidy_squeeze t b : blanks_tidy b (squeeze_blanks b t) = true.
Proof.
  revert b. induction t as [|c r IH]; intros b; [done|].
  cbn [squeeze_blanks]. destruct (is_blank c) eqn:Hc.
  - destruct b; [apply IH|].
    cbn [blanks_tidy]. change (is_blank SP) with true. cbv iota.
    rewrite IH. by rewrite bool_decide_eq_true_2.
  - cbn [blanks_tidy]. rewrite Hc. apply IH.
Qed.

Lemma squeeze_blanks_tidy t b :
  blanks_tidy b t = true → squeeze_blanks b t = t.
Proof.
  revert b. induction t as [|c r IH]; intros b H; [done|].
  cbn [blanks_tidy squeeze_blanks] in *. destruct (is_blank c).
  - apply andb_true_iff in H as [H Hr]. apply andb_true_iff in H as [Hc Hb].
    apply bool_decide_eq_true_1 in Hc as ->.
    destruct b; [done|]. by rewrite (IH true).
  - by rewrite (IH false).
Qed.

Lemma blanks_tidy_weaken t b : blanks_tidy b t = true → blanks_tidy false t = true.
Proof.
  destruct t as [|c r]; [done|]. cbn [blanks_tidy].
  destruct (is_blank c); [|done].
  rewrite !andb_true_iff. by intros [[-> _] ->].
Qed.

Lemma blanks_tidy_tail c r b :
  blanks_tidy b (c :: r) = true → blanks_tidy false r = true.
Proof.
  cbn [blanks_tidy]. destruct (is_blank c); [|done].
  rewrite !andb_true_iff. intros [_ H]. by eapply blanks_tidy_weaken.
Qed.

Lemma blanks_tidy_prefix l1 l2 b :
  blanks_tidy b (l1 ++ l2) = true → blanks_tidy b l1 = true.
Proof.
  revert b. induction l1 as [|c r IH]; intros b; [done|].
  cbn [app blanks_tidy]. destruct (is_blank c); [|apply IH].
  rewrite !andb_true_iff. intros [? ?]. split; [done|by eapply IH].
Qed.

Lemma newline_not_blank c : is_newline c = true → is_blank c = false.
Proof.
  unfold is_newline, is_blank. intros ->%bool_decide_eq_true_1. done.
Qed.

Lemma blanks_tidy_cap_newlines t k b :
  (0 < k → b = false) →
  blanks_tidy b t = true → blanks_tidy b (cap_newlines k t) = true.
Proof.
  revert k b. induction t as [|c r IH]; intros k b Hk H; [done|].
  cbn [cap_newlines]. destruct (is_newline c) eqn:Hn.
  - pose proof (newline_not_blank _ Hn) as Hb.
    cbn [blanks_tidy] in H. rewrite Hb in H.
    destruct (Nat.ltb_spec k 2).
    + cbn [blanks_tidy]. rewrite Hb. by apply IH.
    + rewrite Hk by lia. by apply IH.
  - cbn [blanks_tidy] in *. destruct (is_blank c).
    + apply andb_true_iff in H as [H Hr]. rewrite H. cbn [andb].
      apply IH; [lia|done].
    + apply IH; [lia|done].
Qed.

(** *** The line-feed pass and its fixed points *)

Lemma newlines_capped_mono t k k' :
  k' ≤ k → newlines_capped k t = true → newlines_capped k' t = true.
Proof.
  destruct t as [|c r]; [done|]. cbn [newlines_capped].
  destruct (is_newline c); [|done]. intros Hk.
  rewrite !andb_true_iff, !Nat.ltb_lt. intros [? H]. split; [lia|].
  revert H. generalize (S k), (S k'), (le_n_S _ _ Hk). clear.
  induction r as [|c r IH]; intros k k' Hk; [done|]. cbn [newlines_capped].
  destruct (is_newline c); [|done].
  rewrite !andb_true_iff, !Nat.ltb_lt. intros [? H]. split; [lia|].
  eapply IH; [|done]. lia.
Qed.

Lemma newlines_capped_cap t k : newlines_capped k (cap_newlines k t) = true.
Proof.
  revert k. induction t as [|c r IH]; intros k; [done|].
  cbn [cap_newlines]. destruct (is_newline c) eqn:Hc.
  - destruct (Nat.ltb_spec k 2) as [Hk|Hk].
    + cbn [newlines_capped]. rewrite Hc, IH.
      by rewrite (proj2 (Nat.ltb_lt _ _) Hk).
    + apply (newlines_capped_mono _ (S k)); [lia|apply IH].
  - cbn [newlines_capped]. rewrite Hc. apply IH.
Qed.

Lemma cap_newlines_capped t k :
  newlines_capped k t = true → cap_newlines k t = t.
Proof.
  revert k. induction t as [|c r IH]; intros k H; [done|].
  cbn [newlines_capped cap_newlines] in *. destruct (is_newline c).
  - apply andb_true_iff in H as [Hk Hr]. rewrite Hk. by rewrite IH.
  - by rewrite IH.
Qed.

Lemma newlines_capped_tail c r k :
  newlines_capped k (c :: r) = true → newlines_capped 0 r = true.
Proof.
  cbn [newlines_capped]. destruct (is_newline c); [|done].
  rewrite andb_true_iff. intros [_ H].
  apply (newlines_capped_mono _ (S k)); [lia|done].
Qed.

Lemma newlines_capped_prefix l1 l2 k :
  newlines_capped k (l1 ++ l2) = true → newlines_capped k l1 = true.
Proof.
  revert k. induction l1 as [|c r IH]; intros k; [done|].
  cbn [app newlines_capped]. destruct (is_newline c); [|apply IH].
  rewrite !andb_true_iff. intros [? ?]. split; [done|by eapply IH].
Qed.

(** *** Stripping *)

Lemma lstrip_suffix t : ∃ p, t = p ++ lstrip t ∧ Forall (λ c, is_space c = true) p.
Proof.
  induction t as [|c r (p & Hp & Hall)]; [by exists []|].
  cbn [lstrip]. destruct (is_space c) eqn:Hc.
  - exists (c :: p). split; [by rewrite Hp at 1|by constructor].
  - by exists [].
Qed.

Lemma lstrip_head t : starts_unspaced (lstrip t).
Proof.
  induction t as [|c r IH]; [done|].
  cbn [lstrip]. by destruct (is_space c) eqn:Hc.
Qed.

Lemma lstrip_fixed t : starts_unspaced t → lstrip t = t.
Proof. destruct t as [|c r]; [done|]. cbn. by intros ->. Qed.

Lemma lstrip_idemp t : lstrip (lstrip t) = lstrip t.
Proof. apply lstrip_fixed, lstrip_head. Qed.

Lemma rstrip_prefix t : ∃ s, t = rstrip t ++ s ∧ Forall (λ c, is_space c = true) s.
Proof.
  unfold rstrip. destruct (lstrip_suffix (reverse t)) as (p & Hp & Hall).
  exists (reverse p). split.
  - rewrite <- reverse_app, <- Hp. by rewrite reverse_involutive.
  - by apply Forall_reverse.
Qed.

Lemma rstrip_idemp t : rstrip (rstrip t) = rstrip t.
Proof. unfold rstrip. by rewrite reverse_involutive, lstrip_idemp. Qed.

Lemma lstrip_rstrip_fixed t : lstrip t = t → lstrip (rstrip t) = rstrip t.
Proof.
  intros Ht. apply lstrip_fixed.
  destruct (rstrip_prefix t) as (s & Hs & _).
  destruct (rstrip t) as [|c r] eqn:E; [done|].
  pose proof (lstrip_head t) as Hh. rewrite Ht, Hs in Hh. done.
Qed.

Lemma strip_idemp t : strip (strip t) = strip t.
Proof.
  unfold strip.
  rewrite (lstrip_rstrip_fixed (lstrip t)) by apply lstrip_idemp.
  apply rstrip_idemp.
Qed.

Lemma strip_infix t : ∃ p s, t = p ++ strip t ++ s.
Proof.
  destruct (lstrip_suffix t) as (p & Hp & _).
  destruct (rstrip_prefix (lstrip t)) as (s & Hs & _).
  exists p, s. unfold strip. by rewrite <- Hs.
Qed.

Lemma blanks_tidy_drop p t b :
  blanks_tidy b (p ++ t) = true → blanks_tidy false t = true.
Proof.
  revert b. induction p as [|c r IH]; intros b H.
  - by eapply blanks_tidy_weaken.
  - apply (IH false). by eapply blanks_tidy_tail.
Qed.

Lemma newlines_capped_drop p t k :
  newlines_capped k (p ++ t) = true → newlines_capped 0 t = true.
Proof.
  revert k. induction p as [|c r IH]; intros k H.
  - apply (newlines_capped_mono _ k); [lia|done].
  - apply (IH 0). by eapply newlines_capped_tail.
Qed.

(** *** What the two passes do to a maximal run *)

Lemma squeeze_blanks_after_run run b :
  Forall (λ c, is_blank c = true) run → not_first is_blank b →
  squeeze_blanks true (run ++ b) = squeeze_blanks false b.
Proof.
  intros Hrun Hb. induction Hrun as [|c r Hc _ IH].
  - destruct b as [|c b]; [done|]. cbn. by rewrite (Hb c).
  - cbn [app squeeze_blanks]. by rewrite Hc.
Qed.

Lemma squeeze_blanks_app_ne a l b :
  a ≠ [] → not_last is_blank a →
  squeeze_blanks b (a ++ l) = squeeze_blanks b a ++ squeeze_blanks false l.
Proof.
  intros Hne Ha. revert b. induction a as [|c r IH]; intros b; [done|].
  cbn [app squeeze_blanks].
  destruct r as [|c' r'].
  - rewrite (Ha c) by done. done.
  - assert (not_last is_blank (c' :: r')) as Hr.
    { intros x Hx. apply Ha. done. }
    rewrite !(IH ltac:(done) Hr).
    by destruct (is_blank c), b.
Qed.

Lemma squeeze_blanks_app a l :
  not_last is_blank a →
  squeeze_blanks false (a ++ l) = squeeze_blanks false a ++ squeeze_blanks false l.
Proof.
  intros Ha. destruct a as [|c a]; [done|]. by apply squeeze_blanks_app_ne.
Qed.

Lemma squeeze_blanks_run a run b :
  run ≠ [] → Forall (λ c, is_blank c = true) run →
  not_last is_blank a → not_first is_blank b →
  squeeze_blanks false (a ++ run ++ b) =
  squeeze_blanks false a ++ [SP] ++ squeeze_blanks false b.
Proof.
  intros Hne Hrun Ha Hb. rewrite squeeze_blanks_app by done. f_equal.
  destruct Hrun as [|c r Hc Hr]; [done|].
  cbn [app squeeze_blanks]. rewrite Hc.
  by rewrite squeeze_blanks_after_run.
Qed.

Lemma cap_newlines_reset b k :
  not_first is_newline b → cap_newlines k b = cap_newlines 0 b.
Proof.
  intros Hb. destruct b as [|c b]; [done|]. cbn. by rewrite (Hb c).
Qed.

Lemma cap_newlines_in_run run b k :
  Forall (λ c, is_newline c = true) run → not_first is_newline b →
  cap_newlines k (run ++ b) = take (2 - k) run ++ cap_newlines 0 b.
Proof.
  intros Hrun Hb. revert k. induction Hrun as [|c r Hc _ IH]; intros k.
  - rewrite take_nil. by apply cap_newlines_reset.
  - cbn [app cap_newlines]. rewrite Hc, IH.
    destruct (Nat.ltb_spec k 2).
    + replace (2 - k) with (S (2 - S k)) by lia. done.
    + replace (2 - S k) with 0 by lia. replace (2 - k) with 0 by lia. done.
Qed.

Lemma cap_newlines_app a l k :
  a ≠ [] → not_last is_newline a →
  cap_newlines k (a ++ l) = cap_newlines k a ++ cap_newlines 0 l.
Proof.
  intros Hne Ha. revert k. induction a as [|c r IH]; intros k; [done|].
  cbn [app cap_newlines].
  destruct r as [|c' r'].
  - rewrite (Ha c) by done. done.
  - assert (not_last is_newline (c' :: r')) as Hr.
    { intros x Hx. apply Ha. done. }
    rewrite !(IH ltac:(done) Hr).
    by destruct (is_newline c), (k <? 2)%nat.
Qed.

Lemma cap_newlines_run a run b :
  Forall (λ c, is_newline c = true) run →
  not_last is_newline a → not_first is_newline b →
  cap_newlines 0 (a ++ run ++ b) =
  cap_newlines 0 a ++ (if (3 <=? length run)%nat then [LF; LF] else run)
    ++ cap_newlines 0 b.
Proof.
  intros Hrun Ha Hb.
  assert (cap_newlines 0 (run ++ b) =
          (if (3 <=? length run)%nat then [LF; LF] else run) ++ cap_newlines 0 b) as E.
  { rewrite cap_newlines_in_run by done. f_equal.
    destruct Hrun as [|c1 ? H1 [|c2 ? H2 [|c3 ? H3 ?]]]; try done.
    unfold is_newline in *.
    apply bool_decide_eq_true_1 in H1 as ->.
    apply bool_decide_eq_true_1 in H2 as ->. done. }
  destruct a as [|c a]; [done|].
  rewrite cap_newlines_app by done. by rewrite E.
Qed.

(** The result of [normalize_text] has single spaces for blanks, at most two
    line feeds in a row and no white space at either end. *)
Lemma normalize_text_shape t :
  blanks_tidy false (normalize_text t) = true ∧
  newlines_capped 0 (normalize_text t) = true ∧
  strip (normalize_text t) = normalize_text t.
Proof.
  rewrite normalize_text_passes.
  set (u := cap_newlines 0 (squeeze_blanks false t)).
  assert (blanks_tidy false u = true) as Hb.
  { apply blanks_tidy_cap_newlines; [lia|apply blanks_tidy_squeeze]. }
  assert (newlines_capped 0 u = true) as Hn by apply newlines_capped_cap.
  destruct (strip_infix u) as (p & s & Hu).
  rewrite Hu in Hb, Hn.
  split_and!.
  - eapply blanks_tidy_prefix, blanks_tidy_drop, Hb.
  - eapply newlines_capped_prefix, newlines_capped_drop, Hn.
  - apply strip_idemp.
Qed.

Lemma normalize_text_fixed t :
  blanks_tidy false t = true → newlines_capped 0 t = true → strip t = t →
  normalize_text t = t.
Proof.
  intros Hb Hn Hs. rewrite normalize_text_passes.
  by rewrite (squeeze_blanks_tidy _ _ Hb), (cap_newlines_capped _ _ Hn).
Qed.

Lemma normalize_text_idempotent t :
  normalize_text (normalize_text t) = normalize_text t.
Proof.
  destruct (normalize_text_shape t) as (Hb & Hn & Hs).
  by apply normalize_text_fixed.
Qed.

Lemma Forall_squeeze_blanks (P : codepoint → Prop) t b :
  P SP → Forall P t → Forall P (squeeze_blanks b t).
Proof.
  intros HP H. revert b. induction H as [|c r Hc _ IH]; intros b; [done|].
  cbn [squeeze_blanks]. destruct (is_blank c), b; auto.
Qed.

Lemma Forall_cap_newlines (P : codepoint → Prop) t k :
  Forall P t → Forall P (cap_newlines k t).
Proof.
  intros H. revert k. induction H as [|c r Hc _ IH]; intros k; [done|].
  cbn [cap_newlines]. destruct (is_newline c), (k <? 2)%nat; auto.
Qed.

Lemma Forall_normalize_text (P : codepoint → Prop) t :
  P SP → Forall P t → Forall P (normalize_text t).
Proof.
  intros HP H. rewrite normalize_text_passes.
  destruct (strip_infix (cap_newlines 0 (squeeze_blanks false t))) as (p & s & E).
  pose proof (Forall_cap_newlines P _ 0 (Forall_squeeze_blanks P t false HP H)) as HF.
  rewrite E in HF. apply Forall_app in HF as [_ HF]. by apply Forall_app in HF as [HF _].
Qed.

Lemma strip_ends t :
  starts_unspaced (strip t) ∧ starts_unspaced (reverse (strip t)).
Proof.
  split.
  - unfold strip.
    rewrite <- (lstrip_rstrip_fixed (lstrip t)) by apply lstrip_idemp.
    apply lstrip_head.
  - unfold strip, rstrip. rewrite reverse_involutive. apply lstrip_head.
Qed.

(** C4. [normalize_text] is a total function and is idempotent; its first
    pass replaces every maximal run of spaces and tabs by one space, its
    second pass replaces every maximal run of three or more line feeds by
    two, and its result is what is left of the second pass once the white
    space at both ends is removed. *)
Theorem normalize_text_total_idempotent :
  (∀ t, normalize_text (normalize_text t) = normalize_text t) ∧
  (∀ a run b,
     run ≠ [] → Forall (λ c, is_blank c = true) run →
     not_last is_blank a → not_first is_blank b →
     re_sub_runs is_blank 1 [SP] 0 (a ++ run ++ b) =
     re_sub_runs is_blank 1 [SP] 0 a ++ [SP] ++ re_sub_runs is_blank 1 [SP] 0 b) ∧
  (∀ a run b,
     3 ≤ length run → Forall (λ c, is_newline c = true) run →
     not_last is_newline a → not_first is_newline b →
     re_sub_runs is_newline 3 [LF; LF] 0 (a ++ run ++ b) =
     re_sub_runs is_newline 3 [LF; LF] 0 a ++ [LF; LF] ++
     re_sub_runs is_newline 3 [LF; LF] 0 b) ∧
  (∀ t, ∃ p s,
     re_sub_runs is_newline 3 [LF; LF] 0 (re_sub_runs is_blank 1 [SP] 0 t) =
       p ++ normalize_text t ++ s ∧
     Forall (λ c, is_space c = true) p ∧ Forall (λ c, is_space c = true) s ∧
     starts_unspaced (normalize_text t) ∧
     starts_unspaced (reverse (normalize_text t))).
Proof.
  split_and!.
  - apply normalize_text_idempotent.
  - intros a run b Hne Hrun Ha Hb.
    rewrite !(proj1 (re_sub_blanks_squeeze _)). by apply squeeze_blanks_run.
  - intros a run b Hlen Hrun Ha Hb.
    rewrite !re_sub_newlines_cap, cap_newlines_run by done.
    by rewrite (proj2 (Nat.leb_le _ _) Hlen).
  - intros t. unfold normalize_text.
    set (u := re_sub_runs is_newline 3 [LF; LF] 0 (re_sub_runs is_blank 1 [SP] 0 t)).
    destruct (lstrip_suffix u) as (p & Hp & Hpall).
    destruct (rstrip_prefix (lstrip u)) as (s & Hs & Hsall).
    exists p, s. fold (strip u) in Hs. rewrite <- Hs.
    split_and!; [done..| |]; apply strip_ends.
Qed.

Lemma normalize_text_total_idempotent_witness :
  normalize_text (normalize_text [SP; 97; TAB; SP; 98; LF; LF; LF; LF; 99; SP]%N)
    = [97; SP; 98; LF; LF; 99]%N ∧
  re_sub_runs is_blank 1 [SP] 0 ([97%N] ++ [SP; TAB; SP] ++ [98%N])
    = [97; SP; 98]%N ∧
  re_sub_runs is_newline 3 [LF; LF] 0 ([97%N] ++ [LF; LF; LF; LF] ++ [98%N])
    = [97; LF; LF; 98]%N.
Proof.
  destruct normalize_text_total_idempotent as (Hidem & Hblank & Hnl & _).
  split_and!.
  - rewrite Hidem. reflexivity.
  - rewrite Hblank.
    + reflexivity.
    + discriminate.
    + repeat constructor.
    + intros c Hc. injection Hc as <-. reflexivity.
    + intros c Hc. injection Hc as <-. reflexivity.
  - rewrite Hnl.
    + reflexivity.
    + simpl. lia.
    + repeat constructor.
    + intros c Hc. injection Hc as <-. reflexivity.
    + intros c Hc. injection Hc as <-. reflexivity.
Defined.

End Normalisation.


(** ** Fingerprints *)

Section Fingerprint.

Lemma hex_digit_lower d : (d < 16)%N → is_lower_hex (Sha256.hex_digit d) = true.
Proof.
  intros Hd. unfold Sha256.hex_digit, is_lower_hex.
  destruct (N.ltb_spec d 10).
  - apply orb_true_iff. left. apply andb_true_iff. split; apply N.leb_le; lia.
  - apply orb_true_iff. right. apply andb_true_iff. split; apply N.leb_le; lia.
Qed.

Lemma hex_word_shape w :
  length (Sha256.hex_word w) = 8 ∧
  Forall (λ c, is_lower_hex c = true) (Sha256.hex_word w).
Proof.
  split; [done|]. unfold Sha256.hex_word.
  apply Forall_map, Forall_forall. intros i _.
  apply hex_digit_lower, N.mod_lt. done.
Qed.

Lemma sha256_hexdigest_shape bs :
  length (sha256_hexdigest bs) = 64 ∧
  Forall (λ c, is_lower_hex c = true) (sha256_hexdigest bs).
Proof.
  unfold sha256_hexdigest, Sha256.hexdigest.
  generalize (Sha256.digest bs). intros s. split.
  - rewrite !length_app, !(proj1 (hex_word_shape _)). done.
  - rewrite !Forall_app. split_and!; apply hex_word_shape.
Qed.

Lemma encode_codepoint_scalar c :
  scalar_value c → is_Some (encode_codepoint c).
Proof.
  unfold scalar_value, encode_codepoint. intros Hc.
  destruct (N.ltb_spec c 0x80); [done|].
  destruct (N.ltb_spec c 0x800); [done|].
  destruct (N.ltb_spec c 0x10000).
  - destruct (N.leb_spec 0xD800 c), (N.leb_spec c 0xDFFF); try done. lia.
  - destruct (N.ltb_spec c 0x110000); [done|lia].
Qed.

Lemma encode_utf8_scalar t :
  Forall scalar_value t → is_Some (encode_utf8 t).
Proof.
  induction 1 as [|c r Hc _ [rest IH]]; [done|].
  destruct (encode_codepoint_scalar c Hc) as [bs Hbs].
  cbn [encode_utf8]. rewrite Hbs, IH. done.
Qed.

(** Known digests, as a check of the model of [hashlib.sha256]. *)
Example sha256_empty :
  sha256_hexdigest [] =
  py "e3b0c44298fc1c149afbf4c8996fb92427ae41e4649b934ca495991b7852b855".
Proof. vm_compute. reflexivity. Qed.

Example sha256_abc :
  sha256_hexdigest [97; 98; 99]%N =
  py "ba7816bf8f01cfea414140de5dae2223b00361a396177a9cb410ff61f20015ad".
Proof. vm_compute. reflexivity. Qed.

Example sha256_two_blocks :
  sha256_hexdigest
    <$> encode_utf8 (py "abcdbcdecdefdefgefghfghighijhijkijkljklmklmnlmnomnopnopq") =
  Some (py "248d6a61d20638b8e5c026930c3e6039a33ce45964ff2167f6ecedd419db06c1").
Proof. vm_compute. reflexivity. Qed.

(** Fingerprints as [hashlib] gives them, for texts with characters of
    two, three and four bytes. *)
Example fingerprint_japanese :
  calculate_fingerprint
    (py "  投稿 " ++ [TAB] ++ py " テスト" ++ [LF; LF; LF; LF] ++ py "本文　") =
  Some (py "9fe38f02de974825386124595b41f56117a2e15dcaf43a25a43e57ced522227b").
Proof. vm_compute. reflexivity. Qed.

Example fingerprint_wide :
  calculate_fingerprint [0x1f600; 0x20; 0xe9; 0x20; 0xf1; 0x800]%N =
  Some (py "e1528a4ee4deb8a5fd527fe3e1dc4daa0736314633f77cd08a57c9fd37ad6727").
Proof. vm_compute. reflexivity. Qed.

Example fingerprint_surrogate : calculate_fingerprint [0xD800%N] = None.
Proof. vm_compute. reflexivity. Qed.

(** C5. [calculate_fingerprint t] is the SHA-256 digest of the UTF-8 bytes
    of [normalize_text t] in hexadecimal: 64 characters among [0-9a-f], and
    defined whenever [t] holds Unicode scalar values only.  It is unchanged
    by normalising [t] first, so texts with one normalised form share their
    fingerprint, as ["a  b"] and ["a b"] do. *)
Theorem calculate_fingerprint_normalized :
  (∀ t, calculate_fingerprint t =
        sha256_hexdigest <$> encode_utf8 (normalize_text t)) ∧
  (∀ t, calculate_fingerprint t = calculate_fingerprint (normalize_text t)) ∧
  (∀ t t', normalize_text t = normalize_text t' →
           calculate_fingerprint t = calculate_fingerprint t') ∧
  (∀ t d, calculate_fingerprint t = Some d →
          length d = 64 ∧ Forall (λ c, is_lower_hex c = true) d) ∧
  (∀ t, Forall scalar_value t → is_Some (calculate_fingerprint t)) ∧
  calculate_fingerprint (py "a  b") = calculate_fingerprint (py "a b").
Proof.
  assert (∀ t t', normalize_text t = normalize_text t' →
                  calculate_fingerprint t = calculate_fingerprint t') as Hinv.
  { intros t t' E. unfold calculate_fingerprint. by rewrite E. }
  split_and!.
  - done.
  - intros t. apply Hinv. by rewrite normalize_text_idempotent.
  - done.
  - intros t d. unfold calculate_fingerprint.
    destruct (encode_utf8 (normalize_text t)) as [bs|]; [|done].
    intros [= <-]. apply sha256_hexdigest_shape.
  - intros t Ht. unfold calculate_fingerprint.
    destruct (encode_utf8_scalar (normalize_text t)) as [bs ->]; [|done].
    apply Forall_normalize_text; [|done]. left. done.
  - apply Hinv. vm_compute. reflexivity.
Qed.

Lemma calculate_fingerprint_normalized_witness :
  calculate_fingerprint [97; SP; SP; 98; LF]%N = calculate_fingerprint (py "a b") ∧
  is_Some (calculate_fingerprint (py "投稿 テスト")).
Proof.
  destruct calculate_fingerprint_normalized as (_ & _ & Hinv & _ & Hdef & _).
  split.
  - apply Hinv. vm_compute. reflexivity.
  - apply Hdef. apply (bool_decide_unpack _). vm_compute. exact I.
Defined.

End Fingerprint.

(** ** The duplicate guard *)

Section DuplicateGuard.

Lemma str_le_nil a : str_le [] a = true.
Proof. done. Qed.

Lemma str_le_total a b : str_le a b = false → str_le b a = true.
Proof.
  revert b. induction a as [|x a IH]; intros [|y b]; try done.
  cbn [str_le].
  destruct (N.ltb_spec x y), (N.ltb_spec y x); try done; try lia.
  apply IH.
Qed.

Lemma str_le_trans a b c :
  str_le a b = true → str_le b c = true → str_le a c = true.
Proof.
  revert b c. induction a as [|x a IH]; intros [|y b] [|z c]; try done.
  cbn [str_le].
  destruct (N.ltb_spec x y), (N.ltb_spec y x), (N.ltb_spec y z),
           (N.ltb_spec z y), (N.ltb_spec x z), (N.ltb_spec z x);
    try done; try lia.
  apply IH.
Qed.

Lemma insert_desc_perm x l : insert_desc x l ≡ₚ x :: l.
Proof.
  induction l as [|y l IH]; [done|]. cbn [insert_desc].
  destruct (str_le (posted_key y) (posted_key x)); [done|].
  rewrite IH. apply Permutation_swap.
Qed.

Lemma sort_desc_perm l : sort_desc l ≡ₚ l.
Proof.
  induction l as [|x l IH]; [done|].
  cbn [sort_desc]. by rewrite insert_desc_perm, IH.
Qed.

Lemma insert_desc_sorted x l :
  StronglySorted recent l → StronglySorted recent (insert_desc x l).
Proof.
  induction 1 as [|y l Hl IH Hy]; cbn [insert_desc].
  - by repeat constructor.
  - destruct (str_le (posted_key y) (posted_key x)) eqn:E.
    + constructor; [by constructor|].
      constructor; [done|].
      eapply Forall_impl; [exact Hy|]. cbn. intros z Hz.
      by eapply str_le_trans.
    + constructor; [done|].
      rewrite insert_desc_perm. constructor; [|done].
      by apply str_le_total.
Qed.

Lemma sort_desc_sorted l : StronglySorted recent (sort_desc l).
Proof.
  induction l as [|x l IH]; [constructor|].
  cbn [sort_desc]. by apply insert_desc_sorted.
Qed.

Lemma str_le_refl a : str_le a a = true.
Proof. induction a as [|c a IH]; [done|]. cbn. by rewrite N.ltb_irrefl. Qed.

(** The sort is stable: records with one and the same key keep the order
    they have in the queue. *)
Lemma insert_desc_stable k x l :
  filter (λ y, posted_key y = k) (insert_desc x l) =
  filter (λ y, posted_key y = k) (x :: l).
Proof.
  induction l as [|y l IH]; [done|]. cbn [insert_desc].
  destruct (str_le (posted_key y) (posted_key x)) eqn:E; [done|].
  rewrite filter_cons, IH, !filter_cons.
  destruct (decide (posted_key y = k)) as [Ey|]; [|done].
  destruct (decide (posted_key x = k)) as [Ex|]; [|done].
  rewrite Ey, Ex, str_le_refl in E. done.
Qed.

Lemma sort_desc_stable k l :
  filter (λ y, posted_key y = k) (sort_desc l) = filter (λ y, posted_key y = k) l.
Proof.
  induction l as [|x l IH]; [done|]. cbn [sort_desc].
  by rewrite insert_desc_stable, !filter_cons, IH.
Qed.

Lemma get_posted_items_recent n q : spec_recent_window n q (get_posted_items q n).
Proof.
  unfold get_posted_items. set (posted := filter is_posted q).
  pose proof (sort_desc_sorted posted) as Hs.
  rewrite <- (take_drop n (sort_desc posted)) in Hs.
  exists (drop n (sort_desc posted)). split_and!.
  - by rewrite take_drop, sort_desc_perm.
  - by rewrite length_take, sort_desc_perm.
  - by eapply StronglySorted_app_1_l.
  - intros x y Hx Hy. by eapply StronglySorted_app_1_elem_of.
Qed.

Lemma get_posted_items_posted n q it :
  it ∈ get_posted_items q n → it ∈ q ∧ is_posted it.
Proof.
  unfold get_posted_items. intros Hit%subseteq_take.
  rewrite sort_desc_perm in Hit.
  apply list_elem_of_filter in Hit. tauto.
Qed.

Lemma existsb_elem_of {A} (f : A → bool) l :
  existsb f l = true ↔ ∃ x, x ∈ l ∧ f x = true.
Proof.
  rewrite existsb_exists. setoid_rewrite list_elem_of_In. done.
Qed.

Lemma sort_raises_spec (posted : list item) :
  Raising.sort_raises posted = true ↔
  2 ≤ length posted ∧ ∃ it, it ∈ posted ∧ item_posted_at_utc it = None.
Proof.
  unfold Raising.sort_raises, Raising.null_stamp.
  rewrite andb_true_iff, bool_decide_eq_true, existsb_elem_of.
  by setoid_rewrite bool_decide_eq_true.
Qed.

Lemma StronglySorted_lookup {A} (R : relation A) (l : list A) i j a b :
  StronglySorted R l → i < j → l !! i = Some a → l !! j = Some b → R a b.
Proof.
  intros Hs. revert i j. induction Hs as [|x l Hs IH Hall]; intros i j Hij Hi Hj.
  - done.
  - destruct j as [|j]; [lia|]. cbn in Hj. destruct i as [|i]; cbn in Hi.
    + injection Hi as <-. eapply Forall_forall in Hall; [done|].
      by eapply list_elem_of_lookup_2.
    + apply (IH i j); [lia|done..].
Qed.

Lemma recent_stamps a b ta tb :
  item_posted_at_utc a = Some ta → item_posted_at_utc b = Some tb →
  recent a b → str_le tb ta = true.
Proof. unfold recent, posted_key. by intros -> ->. Qed.

(** C6. Where the sort of [get_posted_items] returns,
    [check_fingerprint_duplicate fp q 50] answers [true] exactly when [fp]
    is the fingerprint of one of the (at most) 50 most recent posted
    records: the window holds posted records of the queue only, its records
    come in the order of their [posted_at_utc] from the latest on, and no
    posted record outside it has a later [posted_at_utc] than one inside.
    The call does not return but raises [TypeError] exactly when two or
    more records are posted and one of them holds null as [posted_at_utc]:
    so it does on the queue of a record posted on the last day of 2024 and
    a posted record with a null time stamp, asked for the fingerprint of
    the former. *)
Theorem check_fingerprint_duplicate_window :
  (∀ (q : queue) (fp : str),
     Raising.check_fingerprint_duplicate fp q 50 = None ↔
     2 ≤ length (filter is_posted q) ∧
     ∃ it, it ∈ q ∧ item_status it = Some (py "posted") ∧
           item_posted_at_utc it = None) ∧
  (∀ (q : queue) (fp : str) (answer : bool),
     Raising.check_fingerprint_duplicate fp q 50 = Some answer →
     ∃ window rest,
       filter is_posted q ≡ₚ window ++ rest ∧
       length window = 50 `min` length (filter is_posted q) ∧
       (answer = true ↔ ∃ it, it ∈ window ∧ item_fingerprint it = Some fp) ∧
       (∀ it, it ∈ window → it ∈ q ∧ item_status it = Some (py "posted")) ∧
       (∀ i j a b ta tb,
          i < j → window !! i = Some a → window !! j = Some b →
          item_posted_at_utc a = Some ta → item_posted_at_utc b = Some tb →
          str_le tb ta = true) ∧
       (∀ a b ta tb,
          a ∈ window → b ∈ rest →
          item_posted_at_utc a = Some ta → item_posted_at_utc b = Some tb →
          str_le tb ta = true) ∧
       (2 ≤ length (filter is_posted q) →
        ∀ it, it ∈ window ++ rest → is_Some (item_posted_at_utc it))) ∧
  (Raising.check_fingerprint_duplicate (py "f9")
     [Examples.posted_before; Examples.posted_undated] 50 = None ∧
   item_status Examples.posted_before = Some (py "posted") ∧
   item_fingerprint Examples.posted_before = Some (py "f9") ∧
   item_posted_at_utc Examples.posted_before = Some (py "2024-12-31T08:00:00Z") ∧
   item_status Examples.posted_undated = Some (py "posted") ∧
   item_posted_at_utc Examples.posted_undated = None).
Proof.
  split; [|split].
  - intros q fp.
    unfold Raising.check_fingerprint_duplicate, Raising.get_posted_items.
    destruct (Raising.sort_raises (filter is_posted q)) eqn:Hr; cbn.
    + apply sort_raises_spec in Hr as (Hlen & it & Hit & Hnull).
      apply list_elem_of_filter in Hit as [Hposted Hit].
      split; [intros _|done]. split; [done|]. by exists it.
    + split; [done|]. intros (Hlen & it & Hit & Hposted & Hnull).
      apply not_true_iff_false in Hr. destruct Hr. apply sort_raises_spec.
      split; [done|]. exists it. split; [|done]. by apply list_elem_of_filter.
  - intros q fp answer.
    unfold Raising.check_fingerprint_duplicate, Raising.get_posted_items.
    destruct (Raising.sort_raises (filter is_posted q)) eqn:Hr; cbn; [done|].
    intros [= <-].
    destruct (get_posted_items_recent 50 q) as (rest & Hperm & Hlen & Hs & Hout).
    exists (get_posted_items q 50), rest. split_and!; [done|done| | | | |].
    + rewrite existsb_elem_of. by setoid_rewrite bool_decide_eq_true.
    + apply get_posted_items_posted.
    + intros i j a b ta tb Hij Hi Hj Ha Hb.
      eapply (recent_stamps a b); [done..|].
      by eapply (StronglySorted_lookup recent).
    + intros a b ta tb Ha Hb Hta Htb.
      eapply (recent_stamps a b); [done..|]. by apply Hout.
    + intros Htwo it Hit. rewrite <- Hperm in Hit.
      destruct (item_posted_at_utc it) as [s|] eqn:Hnull; [by eexists|].
      apply not_true_iff_false in Hr. destruct Hr. apply sort_raises_spec.
      split; [done|]. by exists it.
  - vm_compute. done.
Qed.

(** With a window of two, the two latest posted records are compared: the
    posted record without timestamp and the draft are not. *)
Example window_sample :
  get_posted_items Examples.history 2 = [Examples.posted_late; Examples.posted_before] ∧
  check_fingerprint_duplicate (py "f9") Examples.history 2 = true ∧
  check_fingerprint_duplicate (py "f7") Examples.history 2 = false ∧
  check_fingerprint_duplicate (py "f1") Examples.history 2 = false.
Proof. vm_compute. done. Qed.

(** C10. A record whose [hook] is missing or empty gets, as its hook, the
    normalised first line of its [text] (the empty string if [text] is
    missing or empty too); a non-empty [hook] is used itself, normalised.
    The duplicate guard and the hook-frequency warning compare the value
    [extract_hook] returns. *)
Theorem extract_hook_falsy_fallback :
  (∀ it, item_hook it = None ∨ item_hook it = Some [] →
         extract_hook it = normalize_text (first_line (default [] (item_text it)))) ∧
  (∀ it, item_hook it = None ∨ item_hook it = Some [] →
         item_text it = None ∨ item_text it = Some [] →
         extract_hook it = []) ∧
  (∀ it h, item_hook it = Some h → h ≠ [] → extract_hook it = normalize_text h) ∧
  (∀ hook q n,
     check_hook_duplicate hook q n = true ↔
     ∃ it, it ∈ get_posted_items q n ∧
           normalize_text (extract_hook it) = normalize_text hook) ∧
  (∀ q q', map extract_hook q = map extract_hook q' →
           ValidateQueue.validate_hook_duplicates q =
           ValidateQueue.validate_hook_duplicates q').
Proof.
  assert (∀ it, item_hook it = None ∨ item_hook it = Some [] →
     extract_hook it = normalize_text (first_line (default [] (item_text it))))
    as Hfall.
  { intros it Hh. unfold extract_hook.
    destruct Hh as [-> | ->]; by destruct (default [] (item_text it)). }
  split_and!.
  - done.
  - intros it Hh Ht. rewrite Hfall by done. by destruct Ht as [-> | ->].
  - intros it h Hh Hne. unfold extract_hook. rewrite Hh. by destruct h.
  - intros hook q n. unfold check_hook_duplicate. rewrite existsb_elem_of.
    by setoid_rewrite bool_decide_eq_true.
  - intros q q' E. unfold ValidateQueue.validate_hook_duplicates.
    by rewrite <- !(map_map extract_hook normalize_text), E.
Qed.

Lemma extract_hook_falsy_fallback_witness :
  extract_hook Examples.hookless_item = py "最初 の行" ∧
  extract_hook (Item None None None None None None None None None None) = [] ∧
  extract_hook (Item None None None None (Some (py " a  b ")) (Some (py "x"))
                     None None None None) = py "a b".
Proof.
  destruct extract_hook_falsy_fallback as (Hfall & Hempty & Hhook & _).
  split_and!.
  - rewrite Hfall; [reflexivity|]. right. reflexivity.
  - apply Hempty; left; reflexivity.
  - rewrite (Hhook _ (py " a  b ")); [reflexivity|reflexivity|discriminate].
Defined.

End DuplicateGuard.

(** ** Dispatch *)

Section Dispatch.

Import PostSlot.

Variable lower : str → str.

Lemma find_target_post_Some today q slot it :
  find_target_post today q slot = Some it ↔
  ∃ before after,
    q = before ++ it :: after ∧ is_target today slot it ∧
    Forall (λ x, ¬ is_target today slot x) before.
Proof.
  induction q as [|x q IH]; cbn [find_target_post].
  - split; [done|]. intros (before & after & E & _). by destruct before.
  - destruct (decide (is_target today slot x)) as [Hx|Hx].
    + split.
      * intros [= <-]. by exists [], q.
      * intros ([|y before] & after & E & Hit & Hbefore).
        -- by injection E as -> _.
        -- injection E as -> _. by apply Forall_cons in Hbefore as [? _].
    + rewrite IH. split.
      * intros (before & after & -> & Hit & Hbefore).
        exists (x :: before), after. split_and!; [done|done|by constructor].
      * intros ([|y before] & after & E & Hit & Hbefore).
        -- by injection E as -> _.
        -- injection E as -> ->. apply Forall_cons in Hbefore as [_ ?].
           by exists before, after.
Qed.

Lemma find_target_post_None today q slot :
  find_target_post today q slot = None ↔
  Forall (λ x, ¬ is_target today slot x) q.
Proof.
  induction q as [|x q IH]; cbn [find_target_post]; [done|].
  destruct (decide (is_target today slot x)) as [Hx|Hx].
  - split; [done|]. by intros [? _]%Forall_cons.
  - rewrite IH. split; [by constructor|]. by intros [_ ?]%Forall_cons.
Qed.

Lemma find_target_index_post today q slot it :
  find_target_post today q slot = Some it →
  ∃ i, find_target_index today q slot = Some i ∧ q !! i = Some it.
Proof.
  induction q as [|x q IH]; cbn [find_target_post find_target_index]; [done|].
  destruct (decide (is_target today slot x)).
  - intros [= <-]. by exists 0.
  - intros (i & -> & Hi)%IH. by exists (S i).
Qed.

(** C7. [find_target_post] returns the first record of the queue, in the
    order of the document, whose date is today's, whose slot is the slot of
    the run and whose status is approved, and [None] when there is none; a
    record that misses one of the three is never returned, also when it is
    the only record. *)
Theorem find_target_post_first_match :
  ∀ (today : str) (q : queue) (slot : str),
    (∀ it, find_target_post today q slot = Some it ↔
           ∃ before after,
             q = before ++ it :: after ∧
             (item_date it = Some today ∧ item_slot it = Some slot ∧
              item_status it = Some (py "approved")) ∧
             Forall (λ x, ¬ (item_date x = Some today ∧ item_slot x = Some slot ∧
                             item_status x = Some (py "approved"))) before) ∧
    (find_target_post today q slot = None ↔
     Forall (λ x, ¬ (item_date x = Some today ∧ item_slot x = Some slot ∧
                     item_status x = Some (py "approved"))) q) ∧
    (∀ it, item_date it ≠ Some today ∨ item_slot it ≠ Some slot ∨
           item_status it ≠ Some (py "approved") →
           find_target_post today q slot ≠ Some it ∧
           find_target_post today [it] slot = None).
Proof.
  intros today q slot. split_and!.
  - intros it. apply find_target_post_Some.
  - apply find_target_post_None.
  - intros it Hit.
    assert (¬ is_target today slot it) as Hnot.
    { unfold is_target. intros (? & ? & ?). by destruct Hit as [?|[?|?]]. }
    split.
    + intros (_ & _ & _ & ? & _)%find_target_post_Some. done.
    + apply find_target_post_None. by constructor.
Qed.

Example find_target_post_sample :
  find_target_post (py "2025-01-04") Examples.approval_queue (py "19") =
    Some Examples.approved_inside ∧
  find_target_post (py "2025-01-03") Examples.approval_queue (py "17") = None ∧
  find_target_post (py "2025-01-04") Examples.approval_queue (py "17") = None.
Proof. vm_compute. done. Qed.

Lemma validate_post_failed it q why :
  validate_post lower it q = Raise (PostValidationError why) ↔
  failed_check lower it q why.
Proof.
  unfold validate_post, failed_check, validate_text_length.
  set (text := default [] (item_text it)).
  case_bool_decide as Hlen; cbn [negb].
  - destruct (check_forbidden_words lower text) as [|w ws] eqn:Hf.
    + destruct (fingerprint_to_check it) as [fp|].
      * destruct (check_fingerprint_duplicate fp q 50) eqn:Hfp.
        -- split.
           ++ intros [= <-]. right. split; [done|]. right. split; [done|].
              exists fp. split; [done|]. by left.
           ++ intros [[? _]|[_ [[? _]|[_ (fp' & [= <-] & [[_ ->]|[? _]])]]]];
                try done; try lia. congruence.
        -- destruct (check_hook_duplicate (extract_hook it) q 14) eqn:Hh.
           ++ split.
              ** intros [= <-]. right. split; [done|]. right. split; [done|].
                 exists fp. split; [done|]. by right.
              ** intros [[? _]|[_ [[? _]|[_ (fp' & [= <-] & [[? _]|(_ & _ & ->)])]]]];
                   try done; try lia. congruence.
           ++ split; [done|].
              intros [[? _]|[_ [[? _]|[_ (fp' & [= <-] & [[? _]|(_ & ? & _)])]]]];
                try done; try lia; congruence.
      * split; [done|].
        intros [[? _]|[_ [[? _]|[_ (fp' & ? & _)]]]]; try done; lia.
    + split.
      * intros [= <-]. right. split; [done|]. by left.
      * intros [[? _]|[_ [[_ ->]|[? _]]]]; try done; lia.
  - split.
    + intros [= <-]. left. split; [lia|done].
    + intros [[_ ->]|[? _]]; [done|lia].
Qed.

(** C8. When the re-validation of the selected record fails one of its
    checks (text longer than 260, a forbidden word, the fingerprint among
    the 50 latest posted, the hook among the 14 latest posted), it raises
    [PostValidationError] and the run ends with exit status 1 having read
    the queue and nothing else: no record is changed, the document is not
    written and the endpoint is not called.  The same holds, short of the
    exit status, for any other exception of the re-validation. *)
Theorem failed_validation_aborts :
  ∀ (w : world) (target : item),
    let slot := default (py "17") (env_slot w) in
    let q := load_queue (document w) in
    slot ∈ [py "17"; py "19"] →
    find_target_post (today_jst w) q slot = Some target →
    (∀ why, failed_check lower target q why ↔
            validate_post lower target q = Raise (PostValidationError why)) ∧
    (∀ why, failed_check lower target q why →
            main lower w = Outcome (Exit 1) [Loaded] q ∧
            document_after (document w) (main lower w) = document w) ∧
    (∀ e, validate_post lower target q = Raise e →
          events (main lower w) = [Loaded] ∧ memory (main lower w) = q).
Proof.
  intros w target slot q Hslot Hfind.
  destruct (find_target_index_post _ _ _ _ Hfind) as (i & Hi & _).
  assert (∀ e, validate_post lower target q = Raise e →
     main lower w = Outcome (match e with
                             | PostValidationError _ => Exit 1
                             | _ => Uncaught e
                             end) [Loaded] q) as Hmain.
  { intros e He. unfold main. fold slot. rewrite bool_decide_eq_true_2 by done.
    cbn [negb]. fold q. rewrite Hfind, Hi, He.
    destruct q; [done|]. by destruct e. }
  split_and!.
  - intros why. symmetry. apply validate_post_failed.
  - intros why Hwhy%validate_post_failed.
    rewrite (Hmain _ Hwhy). done.
  - intros e He. by rewrite (Hmain _ He).
Qed.

End Dispatch.

Lemma failed_validation_aborts_witness :
  PostSlot.main Examples.lower_ascii Examples.repeating_world =
    Outcome (Exit 1) [Loaded] [Examples.posted_before; Examples.repeated_target] ∧
  document_after (PostSlot.document Examples.repeating_world)
                 (PostSlot.main Examples.lower_ascii Examples.repeating_world) =
    Some [Examples.posted_before; Examples.repeated_target].
Proof.
  destruct (failed_validation_aborts Examples.lower_ascii Examples.repeating_world
              Examples.repeated_target) as (_ & Habort & _).
  - apply (bool_decide_unpack _). vm_compute. exact I.
  - vm_compute. reflexivity.
  - apply (Habort DuplicateFingerprint).
    right. split; [apply (bool_decide_unpack _); vm_compute; exact I|].
    right. split; [vm_compute; reflexivity|].
    exists (py "f9"). split; [vm_compute; reflexivity|].
    left. split; [vm_compute; reflexivity|reflexivity].
Defined.

(** A run of [main] that publishes: the target becomes posted in memory and
    in the saved document. *)
Example dispatch_goes_through :
  PostSlot.main Examples.lower_ascii Examples.fresh_world =
  let q' := [Examples.posted_before;
             PostSlot.update_posted_item Examples.fresh_target (Some (py "1"))
                                         (py "2025-01-01T08:00:00Z")] in
  Outcome (Exit 0)
          [Loaded; Published (py "年始の確認を忘れずに"); Saved q'] q'.
Proof. vm_compute. reflexivity. Qed.

(** ** Range approval *)

Section RangeApproval.

Import ApproveRange.

Variable strptime : str → option datetime.

Lemma selected_spec from_date to_date it :
  selected strptime from_date to_date it = true ↔ draft_in_window strptime from_date to_date it.
Proof.
  unfold selected, draft_in_window, is_in_range.
  rewrite andb_true_iff, bool_decide_eq_true.
  assert (default [] (item_status it) = py "draft" ↔
          item_status it = Some (py "draft")) as ->.
  { destruct (item_status it); cbn; [|done]. split; congruence. }
  destruct (parse_date strptime (default [] (item_date it))) as [d|].
  - rewrite andb_true_iff. split.
    + intros (? & ? & ?). split; [done|]. by exists d.
    + intros (? & d' & [= <-] & ? & ?). done.
  - split; [by intros [_ ?]|]. by intros (_ & d & ? & _).
Qed.

Lemma approve_loop_spec dry from_date to_date q n :
  approve_loop strptime dry from_date to_date q n =
  (map (λ it, if selected strptime from_date to_date it
              then (if dry then it else approve it) else it) q,
   n + length (filter (λ it, selected strptime from_date to_date it = true) q)).
Proof.
  revert n. induction q as [|it q IH]; intros n.
  - cbn. f_equal. lia.
  - rewrite filter_cons. cbn [approve_loop map].
    destruct (selected strptime from_date to_date it) eqn:E.
    + rewrite IH. rewrite decide_True by done. cbn [length]. f_equal. lia.
    + rewrite IH. rewrite decide_False by done. done.
Qed.

Lemma approve_frame it :
  item_status (approve it) = Some (py "approved") ∧
  item_date (approve it) = item_date it ∧
  item_slot (approve it) = item_slot it ∧
  item_pillar (approve it) = item_pillar it ∧
  item_format (approve it) = item_format it ∧
  item_hook (approve it) = item_hook it ∧
  item_text (approve it) = item_text it ∧
  item_fingerprint (approve it) = item_fingerprint it ∧
  item_tweet_id (approve it) = item_tweet_id it ∧
  item_posted_at_utc (approve it) = item_posted_at_utc it.
Proof. done. Qed.

Lemma map_no_change {A} (f : A → A) (p : A → bool) l :
  filter (λ x, p x = true) l = [] →
  map (λ x, if p x then f x else x) l = l.
Proof.
  induction l as [|x l IH]; [done|]. rewrite filter_cons.
  destruct (p x) eqn:E.
  - rewrite decide_True by done. done.
  - rewrite decide_False by done. intros H. cbn. by rewrite E, IH.
Qed.

(** C3. With bounds that parse and are in order, range approval (not in
    preview mode) ends with status 0 and leaves, in memory and in the
    document, the queue in which exactly the drafts whose date parses and
    lies within the bounds have become approved: those records differ from
    before in their status only, and every other record is as it was. *)
Theorem approve_range_exact :
  ∀ (a : args) (doc : option queue) (from_date to_date : datetime),
    parse_date strptime (arg_from a) = Some from_date →
    parse_date strptime (arg_to a) = Some to_date →
    datetime_le from_date to_date = true →
    arg_dry_run a = false →
    let q := load_queue doc in
    let out := main strptime a doc in
    ending_of out = Exit 0 ∧
    load_queue (document_after doc out) = memory out ∧
    length (memory out) = length q ∧
    (∀ i it, q !! i = Some it →
       (draft_in_window strptime from_date to_date it →
        memory out !! i = Some (approve it)) ∧
       (¬ draft_in_window strptime from_date to_date it →
        memory out !! i = Some it)) ∧
    (∀ it, item_status (approve it) = Some (py "approved") ∧
           item_date (approve it) = item_date it ∧
           item_slot (approve it) = item_slot it ∧
           item_pillar (approve it) = item_pillar it ∧
           item_format (approve it) = item_format it ∧
           item_hook (approve it) = item_hook it ∧
           item_text (approve it) = item_text it ∧
           item_fingerprint (approve it) = item_fingerprint it ∧
           item_tweet_id (approve it) = item_tweet_id it ∧
           item_posted_at_utc (approve it) = item_posted_at_utc it).
Proof.
  intros a doc from_date to_date Hfrom Hto Hle Hdry q out.
  set (f := λ it, if selected strptime from_date to_date it then approve it else it).
  assert (out = Outcome (Exit 0) [Loaded] (map f q) ∧ map f q = q ∨
          out = Outcome (Exit 0) [Loaded; Saved (map f q)] (map f q)) as Hout.
  { subst out. unfold main, datetime_gt.
    rewrite Hfrom, Hto, Hle, Hdry. cbn [negb]. fold q.
    rewrite approve_loop_spec. fold f. rewrite Nat.add_0_l.
    destruct q as [|it q'] eqn:Eq; [by left|]. rewrite <- Eq.
    case_bool_decide as Hn; [by right|]. left. split; [done|].
    apply map_no_change. apply length_zero_iff_nil. lia. }
  assert (ending_of out = Exit 0 ∧
          load_queue (document_after doc out) = memory out ∧
          memory out = map f q) as (He & Hd & Hm).
  { destruct Hout as [[-> E]| ->]; cbn; [|done]. by rewrite E. }
  split_and!; [done|done|by rewrite Hm, length_map| |apply approve_frame].
  intros i it Hi. rewrite Hm, list_lookup_fmap, Hi. cbn. unfold f. split.
  - intros Hw%selected_spec. by rewrite Hw.
  - intros Hw. destruct (selected strptime from_date to_date it) eqn:E; [|done].
    by apply selected_spec in E.
Qed.

Lemma datetime_le_spec ya ma da yb mb db :
  datetime_le (ya, ma, da) (yb, mb, db) = true ↔
  ya < yb ∨ ya = yb ∧ (ma < mb ∨ ma = mb ∧ da ≤ db).
Proof.
  unfold datetime_le.
  rewrite !orb_true_iff, !andb_true_iff, !orb_true_iff, !andb_true_iff.
  by rewrite !Nat.ltb_lt, !Nat.eqb_eq, Nat.leb_le.
Qed.

Lemma datetime_gt_strict (a b : datetime) :
  datetime_gt a b = true ↔ datetime_le b a = true ∧ a ≠ b.
Proof.
  destruct a as [[ya ma] da], b as [[yb mb] db]. unfold datetime_gt.
  rewrite negb_true_iff, <- not_true_iff_false, !datetime_le_spec. split.
  - intros Hn. split; [lia|]. intros [= -> -> ->]. lia.
  - intros [Hle Hne] Hge. apply Hne. f_equal; [f_equal|]; lia.
Qed.

(** C9. With bounds that parse and a start strictly after the end, range
    approval ends with exit status 1 before it reads the queue: nothing is
    loaded, nothing is saved and the document is as it was. *)
Theorem approve_inverted_range_rejected :
  ∀ (a : args) (doc : option queue) (from_date to_date : datetime),
    parse_date strptime (arg_from a) = Some from_date →
    parse_date strptime (arg_to a) = Some to_date →
    datetime_le to_date from_date = true ∧ from_date ≠ to_date →
    main strptime a doc = Outcome (Exit 1) [] [] ∧
    document_after doc (main strptime a doc) = doc.
Proof.
  intros a doc from_date to_date Hfrom Hto Hgt%datetime_gt_strict.
  unfold main. rewrite Hfrom, Hto, Hgt. done.
Qed.

End RangeApproval.

Lemma approve_range_exact_witness :
  ending_of (ApproveRange.main Examples.strptime_padded Examples.first_week
               (Some Examples.approval_queue)) = Exit 0 ∧
  memory (ApproveRange.main Examples.strptime_padded Examples.first_week
            (Some Examples.approval_queue)) =
    [ApproveRange.approve Examples.draft_inside; Examples.draft_outside;
     Examples.approved_inside; Examples.draft_undated] ∧
  load_queue (document_after (Some Examples.approval_queue)
                (ApproveRange.main Examples.strptime_padded Examples.first_week
                   (Some Examples.approval_queue))) =
    [ApproveRange.approve Examples.draft_inside; Examples.draft_outside;
     Examples.approved_inside; Examples.draft_undated].
Proof.
  destruct (approve_range_exact Examples.strptime_padded Examples.first_week
              (Some Examples.approval_queue) (2025, 1, 1) (2025, 1, 7))
    as (He & Hd & Hl & Hrec & _); [vm_compute; reflexivity..|].
  set (out := ApproveRange.main _ _ _) in *.
  assert (memory out =
          [ApproveRange.approve Examples.draft_inside; Examples.draft_outside;
           Examples.approved_inside; Examples.draft_undated]) as Hm.
  { assert (ApproveRange.draft_in_window Examples.strptime_padded
              (2025, 1, 1) (2025, 1, 7) Examples.draft_inside) as Hin.
    { split; [reflexivity|]. exists (2025, 1, 3).
      split_and!; vm_compute; reflexivity. }
    pose proof (proj1 (Hrec 0 Examples.draft_inside eq_refl) Hin) as H0.
    destruct (Hrec 1 Examples.draft_outside eq_refl) as [_ H1].
    destruct (Hrec 2 Examples.approved_inside eq_refl) as [_ H2].
    destruct (Hrec 3 Examples.draft_undated eq_refl) as [_ H3].
    destruct (memory out) as [|r0 [|r1 [|r2 [|r3 [|r4 m]]]]]; cbn in Hl; try lia.
    cbn in H0, H1, H2, H3. injection H0 as ->.
    assert (Some r1 = Some Examples.draft_outside) as [= ->].
    { apply H1. intros (_ & d & Hp & _ & Hle). vm_compute in Hp.
      injection Hp as <-. vm_compute in Hle. discriminate. }
    assert (Some r2 = Some Examples.approved_inside) as [= ->].
    { apply H2. intros (Hs & _). vm_compute in Hs. discriminate. }
    assert (Some r3 = Some Examples.draft_undated) as [= ->].
    { apply H3. intros (_ & d & Hp & _). vm_compute in Hp. discriminate. }
    done. }
  split_and!; [done|done|by rewrite Hd].
Defined.

Lemma approve_inverted_range_rejected_witness :
  ApproveRange.main Examples.strptime_padded Examples.inverted_week
    (Some Examples.approval_queue) = Outcome (Exit 1) [] [] ∧
  document_after (Some Examples.approval_queue)
    (ApproveRange.main Examples.strptime_padded Examples.inverted_week
       (Some Examples.approval_queue)) = Some Examples.approval_queue.
Proof.
  apply (approve_inverted_range_rejected Examples.strptime_padded
           Examples.inverted_week (Some Examples.approval_queue)
           (2025, 1, 7) (2025, 1, 1)); [vm_compute; reflexivity..|].
  split; [vm_compute; reflexivity|discriminate].
Defined.

(** ** Generation *)

Section Generation.

Import GenerateQueue.

Lemma bind_inv {A B} (m : M A) (f : A → M B) g r :
  (m ≫= f) g = Some r ↔ ∃ a g1, m g = Some (a, g1) ∧ f a g1 = Some r.
Proof.
  unfold mbind, M_bind. destruct (m g) as [[a g1]|].
  - split; [by exists a, g1|]. by intros (? & ? & [= <- <-] & ?).
  - split; [done|]. by intros (? & ? & ? & _).
Qed.

Lemma ret_inv {A} (a : A) g r : (mret a : M A) g = Some r ↔ r = (a, g).
Proof. unfold mret, M_ret. split; congruence. Qed.

Section Retry.

Variables (t : template) (pillar_data : pillar) (counts : option (list str)).
Variable used : gset str.

(** The loop returns after the first round whose hook is new, with the set
    extended by it ... *)
Lemma retry_loop_found n last k outs hook text g g' :
  k < n →
  attempts (S k) t pillar_data counts g = Some (outs ++ [(hook, text)], g') →
  length outs = k → Forall (collides used) outs → normalize_text hook ∉ used →
  retry_loop n t pillar_data counts last used g =
  Some ((Some (hook, text), {[normalize_text hook]} ∪ used), g').
Proof.
  revert last k outs g.
  induction n as [|n IH]; intros last k outs g Hk Hatt Hlen Hcol Hnew; [lia|].
  cbn [attempts] in Hatt.
  apply bind_inv in Hatt as ([h x] & g1 & Hgen & Hrest).
  apply bind_inv in Hrest as (rest & g2 & Hrest & Hret).
  apply ret_inv in Hret.
  cbn [retry_loop]. apply bind_inv. exists (h, x), g1. split; [done|].
  destruct outs as [|o outs]; simplify_eq/=.
  - apply ret_inv in Hrest. simplify_eq. by rewrite decide_True.
  - apply Forall_cons in Hcol as [Ho Hcol].
    rewrite decide_False by (intros Hn; by apply Hn).
    by apply (IH _ (length outs) outs); [lia|..].
Qed.

(** ... and otherwise goes through all its rounds and leaves with the hook
    and text of the last, the set unchanged. *)
Lemma retry_loop_exhausted n last outs g g' :
  attempts n t pillar_data counts g = Some (outs, g') →
  Forall (collides used) outs →
  retry_loop n t pillar_data counts last used g =
  Some ((from_option Some last (list.last outs), used), g').
Proof.
  revert last outs g. induction n as [|n IH]; intros last outs g Hatt Hcol.
  - apply ret_inv in Hatt. by simplify_eq.
  - cbn [attempts] in Hatt.
    apply bind_inv in Hatt as ([h x] & g1 & Hgen & Hrest).
    apply bind_inv in Hrest as (rest & g2 & Hrest & Hret).
    apply ret_inv in Hret. simplify_eq.
    apply Forall_cons in Hcol as [Ho Hcol].
    cbn [retry_loop]. apply bind_inv. exists (h, x), g1. split; [done|].
    rewrite decide_False by (intros Hn; by apply Hn).
    rewrite (IH _ _ _ Hrest Hcol), last_cons. by destruct (list.last rest).
Qed.

Lemma retry_loop_inv n last g res used' g' :
  retry_loop n t pillar_data counts last used g = Some ((res, used'), g') →
  (∃ outs, attempts n t pillar_data counts g = Some (outs, g') ∧
           length outs = n ∧ Forall (collides used) outs ∧
           res = from_option Some last (list.last outs) ∧ used' = used) ∨
  (∃ k outs hook text,
     k < n ∧
     attempts (S k) t pillar_data counts g = Some (outs ++ [(hook, text)], g') ∧
     length outs = k ∧ Forall (collides used) outs ∧
     (normalize_text hook ∉ used) ∧
     res = Some (hook, text) ∧ used' = {[normalize_text hook]} ∪ used).
Proof.
  revert last g. induction n as [|n IH]; intros last g Hloop.
  - apply ret_inv in Hloop. simplify_eq. left. by exists [].
  - cbn [retry_loop] in Hloop.
    apply bind_inv in Hloop as ([h x] & g1 & Hgen & Hrest).
    assert (∀ rest g2, attempts n t pillar_data counts g1 = Some (rest, g2) →
              attempts (S n) t pillar_data counts g = Some ((h, x) :: rest, g2))
      as Hcons.
    { intros rest g2 Hatt. cbn [attempts].
      apply bind_inv. exists (h, x), g1. split; [done|].
      apply bind_inv. by exists rest, g2. }
    destruct (decide (normalize_text h ∉ used)) as [Hnew|Hold].
    + apply ret_inv in Hrest. simplify_eq. right. exists 0, [], h, x.
      split_and!; try done; [lia|].
      cbn [attempts]. apply bind_inv. exists (h, x), g1. split; [done|].
      apply bind_inv. by exists [], g1.
    + apply dec_stable in Hold.
      apply IH in Hrest as [(outs & Hatt & Hlen & Hcol & -> & ->)
        |(k & outs & hook & text & Hk & Hatt & Hlen & Hcol & Hnew & -> & ->)].
      * left. exists ((h, x) :: outs). split_and!; try done.
        -- by apply Hcons.
        -- cbn. lia.
        -- by constructor.
        -- rewrite last_cons. by destruct (list.last outs).
      * right. exists (S k), ((h, x) :: outs), hook, text.
        split_and!; try done; [lia| |cbn; lia|by constructor].
        cbn [attempts]. apply bind_inv. exists (h, x), g1. split; [done|].
        apply bind_inv. by exists (outs ++ [(hook, text)]), g'.
Qed.

End Retry.

Lemma generate_post_text_normalized t pillar_data counts g hook text g' :
  generate_post_text t pillar_data counts g = Some ((hook, text), g') →
  normalize_text text = text.
Proof.
  unfold generate_post_text. intros H.
  repeat (apply bind_inv in H as (? & ? & _ & H)).
  apply ret_inv in H. simplify_eq. apply normalize_text_idempotent.
Qed.

Lemma attempts_normalized k t pillar_data counts g outs g' :
  attempts k t pillar_data counts g = Some (outs, g') →
  Forall (λ o, normalize_text o.2 = o.2) outs ∧ length outs = k.
Proof.
  revert g outs. induction k as [|k IH]; intros g outs Hatt.
  - apply ret_inv in Hatt. by simplify_eq.
  - cbn [attempts] in Hatt.
    apply bind_inv in Hatt as ([h x] & g1 & Hgen & Hrest).
    apply bind_inv in Hrest as (rest & g2 & Hrest & Hret).
    apply ret_inv in Hret. simplify_eq.
    apply IH in Hrest as [Hall Hlen]. split; [|by rewrite <- Hlen].
    constructor; [|done]. by eapply generate_post_text_normalized.
Qed.

(** What [generate_single_post] hands on from the loop: the hook and text
    of its last round, after at most five rounds. *)
Lemma retry_loop_five t pillar_data counts used g hook body used' g' :
  retry_loop 5 t pillar_data counts None used g =
    Some ((Some (hook, body), used'), g') →
  ∃ outs,
    attempts (S (length outs)) t pillar_data counts g =
      Some (outs ++ [(hook, body)], g') ∧
    length outs < 5 ∧ Forall (collides used) outs ∧
    (length outs < 4 → normalize_text hook ∉ used) ∧
    used' = {[normalize_text hook]} ∪ used.
Proof.
  intros [(outs & Hatt & Hlen & Hcol & Hres & ->)
         |(k & outs & h & x & Hk & Hatt & Hlen & Hcol & Hnew & Hres & ->)]%retry_loop_inv.
  - destruct (list.last outs) as [[h x]|] eqn:Hlast; [|done].
    cbn in Hres. simplify_eq.
    apply last_Some in Hlast as [outs' ->].
    rewrite length_app in Hlen. cbn in Hlen.
    apply Forall_app in Hcol as [Hcol Hlast].
    rewrite Forall_singleton in Hlast. unfold collides in Hlast. cbn in Hlast.
    exists outs'. replace (S (length outs')) with 5 by lia.
    split_and!; [done|lia|done|lia|].
    symmetry. apply subseteq_union_1_L. by apply singleton_subseteq_l.
  - simplify_eq. exists outs. split_and!; [done|lia|done|done|done].
Qed.

Lemma generate_single_post_spec date slot tpls lex used g rec used' g' :
  generate_single_post date slot tpls lex used g = Some ((Some rec, used'), g') ↔
  ∃ t pillar_key pillar_data ga g0 g1 hook body hashtags fingerprint,
    random_choice (default [] (dict_get tpls slot)) g = Some (t, ga) ∧
    random_choice (map fst (l_pillars lex)) ga = Some (pillar_key, g0) ∧
    dict_get (l_pillars lex) pillar_key = Some pillar_data ∧
    retry_loop 5 t pillar_data (l_counts lex) None used g0 =
      Some ((Some (hook, body), used'), g1) ∧
    generate_hashtags lex pillar_key g1 = Some (hashtags, g') ∧
    calculate_fingerprint (with_hashtags body hashtags) = Some fingerprint ∧
    rec = Item (Some date) (Some slot) (Some pillar_key)
               (Some (default [] (t_format t))) (Some hook)
               (Some (with_hashtags body hashtags)) (Some (py "draft"))
               (Some fingerprint) None None.
Proof.
  unfold generate_single_post.
  set (slot_templates := default [] (dict_get tpls slot)).
  set (body_of := λ t : template, _).
  assert (∀ r, (t ← random_choice slot_templates; body_of t) g = Some r ↔
    ∃ t pillar_key pillar_data ga g0 g1 hook body hashtags fingerprint,
      random_choice slot_templates g = Some (t, ga) ∧
      random_choice (map fst (l_pillars lex)) ga = Some (pillar_key, g0) ∧
      dict_get (l_pillars lex) pillar_key = Some pillar_data ∧
      retry_loop 5 t pillar_data (l_counts lex) None used g0 =
        Some ((Some (hook, body), r.1.2), g1) ∧
      generate_hashtags lex pillar_key g1 = Some (hashtags, r.2) ∧
      calculate_fingerprint (with_hashtags body hashtags) = Some fingerprint ∧
      r.1.1 = Some (Item (Some date) (Some slot) (Some pillar_key)
                 (Some (default [] (t_format t))) (Some hook)
                 (Some (with_hashtags body hashtags)) (Some (py "draft"))
                 (Some fingerprint) None None)) as Hrun.
  { intros r. rewrite bind_inv. split.
    - intros (t & ga & Ht & Hb). subst body_of. cbn beta in Hb.
      apply bind_inv in Hb as (pillar_key & g0 & Hk & Hb).
      destruct (dict_get (l_pillars lex) pillar_key) as [pillar_data|] eqn:Hp; [|done].
      apply bind_inv in Hb as ([last u] & g1 & Hloop & Hb). cbn beta iota in Hb.
      destruct last as [[hook body]|]; [|done].
      apply bind_inv in Hb as (hashtags & g2 & Htags & Hb).
      destruct (calculate_fingerprint (with_hashtags body hashtags)) as [fp|] eqn:Hfp;
        [|done].
      apply ret_inv in Hb as ->. cbn.
      by exists t, pillar_key, pillar_data, ga, g0, g1, hook, body, hashtags, fp.
    - intros (t & pillar_key & pillar_data & ga & g0 & g1 & hook & body & hashtags
              & fp & Ht & Hk & Hp & Hloop & Htags & Hfp & Hrec).
      exists t, ga. split; [done|]. subst body_of. cbn beta.
      apply bind_inv. exists pillar_key, g0. split; [done|]. rewrite Hp.
      apply bind_inv. eexists (_, _), g1. split; [exact Hloop|]. cbn beta iota.
      apply bind_inv. exists hashtags, r.2. split; [done|]. rewrite Hfp.
      apply ret_inv. destruct r as [[? ?] ?]. cbn in *. by subst. }
  destruct slot_templates as [|t0 ts] eqn:Ets.
  { split; [done|]. by intros (? & ? & ? & ? & ? & ? & ? & ? & ? & ? & ? & _). }
  destruct (l_pillars lex) as [|p0 ps] eqn:Eps.
  { split; [done|].
    by intros (? & ? & ? & ? & ? & ? & ? & ? & ? & ? & _ & ? & _). }
  rewrite <- Ets in *. rewrite Hrun. cbn [fst snd].
  split.
  - intros (t & k & pd & ga & g0 & g1 & h & b & tags & fp & ? & ? & ? & ? & ? & ? & [= ->]).
    by exists t, k, pd, ga, g0, g1, h, b, tags, fp.
  - intros (t & k & pd & ga & g0 & g1 & h & b & tags & fp & ? & ? & ? & ? & ? & ? & ->).
    by exists t, k, pd, ga, g0, g1, h, b, tags, fp.
Qed.


(** C2. A record [generate_single_post] returns carries the hook of the
    last of at most five rounds of [generate_post_text], made one after the
    other with the template and the pillar the call has drawn: every round
    before the last gave a hook already in the set of used hooks, and a
    round before the fifth is the last only if its hook is new.  After the
    call the set is the one before with the normalised hook of the record
    added, so the hook is in it.  Conversely, the first round whose hook is
    new ends the loop: the record is produced with that hook and the hook
    joins the set; and when all five rounds collide the record is produced
    all the same, with the hook of the fifth, and the set is as before. *)
Theorem hook_retry_at_most_five :
  (∀ date slot tpls lex used g rec used' g',
     generate_single_post date slot tpls lex used g = Some ((Some rec, used'), g') →
     ∃ t pillar_key pillar_data ga g0 g1 outs hook text,
       random_choice (default [] (dict_get tpls slot)) g = Some (t, ga) ∧
       random_choice (map fst (l_pillars lex)) ga = Some (pillar_key, g0) ∧
       dict_get (l_pillars lex) pillar_key = Some pillar_data ∧
       attempts (S (length outs)) t pillar_data (l_counts lex) g0 =
         Some (outs ++ [(hook, text)], g1) ∧
       length outs < 5 ∧
       Forall (collides used) outs ∧
       (length outs < 4 → normalize_text hook ∉ used) ∧
       item_hook rec = Some hook ∧
       used' = {[normalize_text hook]} ∪ used ∧
       normalize_text hook ∈ used') ∧
  (∀ date slot tpls lex used g t pillar_key pillar_data ga g0 g1 outs hook text
     hashtags fingerprint g',
     random_choice (default [] (dict_get tpls slot)) g = Some (t, ga) →
     random_choice (map fst (l_pillars lex)) ga = Some (pillar_key, g0) →
     dict_get (l_pillars lex) pillar_key = Some pillar_data →
     length outs < 5 →
     attempts (S (length outs)) t pillar_data (l_counts lex) g0 =
       Some (outs ++ [(hook, text)], g1) →
     Forall (collides used) outs →
     normalize_text hook ∉ used →
     generate_hashtags lex pillar_key g1 = Some (hashtags, g') →
     calculate_fingerprint (with_hashtags text hashtags) = Some fingerprint →
     ∃ rec, generate_single_post date slot tpls lex used g =
              Some ((Some rec, {[normalize_text hook]} ∪ used), g') ∧
            item_hook rec = Some hook ∧
            (normalize_text hook ∈ ({[normalize_text hook]} ∪ used : gset str))) ∧
  (∀ date slot tpls lex used g t pillar_key pillar_data ga g0 g1 outs hook text
     hashtags fingerprint g',
     random_choice (default [] (dict_get tpls slot)) g = Some (t, ga) →
     random_choice (map fst (l_pillars lex)) ga = Some (pillar_key, g0) →
     dict_get (l_pillars lex) pillar_key = Some pillar_data →
     attempts 5 t pillar_data (l_counts lex) g0 = Some (outs ++ [(hook, text)], g1) →
     Forall (collides used) (outs ++ [(hook, text)]) →
     generate_hashtags lex pillar_key g1 = Some (hashtags, g') →
     calculate_fingerprint (with_hashtags text hashtags) = Some fingerprint →
     ∃ rec, generate_single_post date slot tpls lex used g =
              Some ((Some rec, used), g') ∧
            item_hook rec = Some hook ∧
            normalize_text hook ∈ used).
Proof.
  split; [|split].
  - intros date slot tpls lex used g rec used' g' Hgen.
    apply generate_single_post_spec in Hgen
      as (t & key & pd & ga & g0 & g1 & hook & body & hashtags & fp
          & Ht & Hkey & Hpd & Hloop & _ & _ & ->).
    apply retry_loop_five in Hloop as (outs & Hatt & Hlen & Hcol & Hnew & ->).
    exists t, key, pd, ga, g0, g1, outs, hook, body.
    split_and!; try done. apply elem_of_union_l, elem_of_singleton. done.
  - intros date slot tpls lex used g t key pd ga g0 g1 outs hook text hashtags fp g'
           Ht Hkey Hpd Hlen Hatt Hcol Hnew Htags Hfp.
    eexists. split_and!.
    + apply generate_single_post_spec.
      exists t, key, pd, ga, g0, g1, hook, text, hashtags, fp.
      split_and!; try done.
      by apply (retry_loop_found _ _ _ _ 5 None (length outs) outs).
    + done.
    + apply elem_of_union_l, elem_of_singleton. done.
  - intros date slot tpls lex used g t key pd ga g0 g1 outs hook text hashtags fp g'
           Ht Hkey Hpd Hatt Hcol Htags Hfp.
    eexists. split_and!.
    + apply generate_single_post_spec.
      exists t, key, pd, ga, g0, g1, hook, text, hashtags, fp.
      split_and!; try done.
      rewrite (retry_loop_exhausted _ _ _ _ _ _ _ _ _ Hatt Hcol).
      by rewrite last_snoc.
    + done.
    + apply Forall_app in Hcol as [_ Hlast].
      rewrite Forall_singleton in Hlast. exact Hlast.
Qed.

Lemma too_long_reported it n :
  ValidateQueue.TooLong n ∈ ValidateQueue.validate_text_length it ↔
  n = length (default [] (item_text it)) ∧ MAX_TEXT_LENGTH < n.
Proof.
  unfold ValidateQueue.validate_text_length.
  set (len := length (default [] (item_text it))).
  rewrite elem_of_app.
  case_bool_decide as H1; case_bool_decide as H2;
    rewrite ?list_elem_of_singleton, ?elem_of_nil;
    (split; [intros [?|?]; simplify_eq; done|intros [-> ?]; auto; lia]).
Qed.


End Generation.

(** To state a property of the record of a concrete run, it is enough to
    know that the run returns one. *)
Lemma for_generated_record
    (r : option (option item * gset str * GenerateQueue.rng))
    (P : item → gset str → Prop) :
  (∀ rec used' g', r = Some (Some rec, used', g') → P rec used') →
  is_Some (Examples.text_of r) →
  match r with
  | Some (Some rec, used', _) => P rec used'
  | _ => False
  end.
Proof.
  destruct r as [[[[rec|] used'] g']|]; cbn.
  - intros H _. by eapply H.
  - by intros _ [? ?].
  - by intros _ [? ?].
Defined.

Lemma hook_retry_at_most_five_witness :
  match GenerateQueue.generate_single_post (py "2025-01-01") (py "17")
          [(py "17", [Examples.fixed_template])] Examples.small_lexicon
          ∅ Examples.counting with
  | Some (Some rec, used', _) =>
      ∃ outs hook,
        length outs < 5 ∧
        Forall (GenerateQueue.collides ∅) outs ∧
        (length outs < 4 → normalize_text hook ∉ (∅ : gset str)) ∧
        item_hook rec = Some hook ∧
        used' = {[normalize_text hook]} ∪ ∅ ∧
        normalize_text hook ∈ used'
  | _ => False
  end.
Proof.
  apply (for_generated_record _ (λ rec used', ∃ outs hook, _)).
  - intros rec used' g' E.
    destruct (proj1 hook_retry_at_most_five _ _ _ _ _ _ _ _ _ E)
      as (t & key & pd & ga & g0 & g1 & outs & hook & text & _ & _ & _ & _
          & Hlen & Hcol & Hnew & Hhook & Hused & Hin).
    exists outs, hook.
    split; [exact Hlen|]. split; [exact Hcol|]. split; [exact Hnew|].
    split; [exact Hhook|]. split; [exact Hused|exact Hin].
  - vm_compute. eexists. reflexivity.
Defined.

(** With no hook used before, the first round ends the loop and its hook is
    the one element of the set after the call. *)
Example fresh_retry_sample :
  (λ r : option item * gset str * GenerateQueue.rng,
     (r.1.1 ≫= item_hook, elements r.1.2))
    <$> GenerateQueue.generate_single_post (py "2025-01-01") (py "17")
          [(py "17", [Examples.fixed_template])] Examples.small_lexicon
          ∅ Examples.counting =
  Some (Some (py "今日の確認"), [py "今日の確認"]).
Proof. vm_compute. reflexivity. Qed.

(** With the only hook already used, the five rounds collide and the record
    comes with that hook all the same. *)
Example exhausted_retry_sample :
  item_hook <$> (GenerateQueue.generate_single_post (py "2025-01-01") (py "17")
                   [(py "17", [Examples.fixed_template])] Examples.small_lexicon
                   {[py "今日の確認"]} Examples.counting ≫= λ r, r.1.1) =
  Some (Some (py "今日の確認")).
Proof. vm_compute. reflexivity. Qed.


(** The text of that record. *)
Example generated_text_sample :
  Examples.text_of
    (GenerateQueue.generate_single_post (py "2025-01-01") (py "17")
       [(py "17", [Examples.checklist_template])] Examples.small_lexicon
       ∅ Examples.counting) =
  Some (py "確定申告の確認5点

☑ 控除の確認
☑ 申告漏れ

今日のうちに。

#軽貨物 #確定申告").
Proof. vm_compute. reflexivity. Qed.

(** The record generated from a template whose hook pattern has 261
    characters has a text of 261 characters. *)
Lemma generated_text_over_limit :
  Examples.text_length_of
    (GenerateQueue.generate_single_post (py "2025-01-01") (py "17")
       [(py "17", [Examples.long_template])] Examples.bare_lexicon
       ∅ Examples.counting) = Some 261 ∧
  MAX_TEXT_LENGTH < 261.
Proof. split; [vm_compute; reflexivity|unfold MAX_TEXT_LENGTH; lia]. Qed.

(** * Further properties of the code *)

(** ** Normalisation: what the result looks like *)

Section NormalisedText.

Lemma length_squeeze_blanks t b : length (squeeze_blanks b t) ≤ length t.
Proof.
  revert b. induction t as [|c r IH]; intros b; [done|].
  pose proof (IH true). pose proof (IH false).
  cbn [squeeze_blanks]. destruct (is_blank c), b; cbn [length]; lia.
Qed.

Lemma length_cap_newlines t k : length (cap_newlines k t) ≤ length t.
Proof.
  revert k. induction t as [|c r IH]; intros k; [done|].
  pose proof (IH (S k)). pose proof (IH 0).
  cbn [cap_newlines]. destruct (is_newline c), (k <? 2)%nat; cbn [length]; lia.
Qed.

(** X1. Normalising never makes a text longer. *)
Theorem normalize_text_never_longer :
  ∀ t, length (normalize_text t) ≤ length t.
Proof.
  intros t. rewrite normalize_text_passes.
  set (u := cap_newlines 0 (squeeze_blanks false t)).
  destruct (strip_infix u) as (p & s & Hu).
  assert (length (strip u) ≤ length u) as H1.
  { rewrite Hu at 2. rewrite !length_app. lia. }
  pose proof (length_cap_newlines (squeeze_blanks false t) 0).
  pose proof (length_squeeze_blanks t false). subst u. lia.
Qed.

Lemma blank_is_space c : is_blank c = true → is_space c = true.
Proof.
  unfold is_blank. intros [H|H]%orb_true_iff;
    apply bool_decide_eq_true_1 in H; by subst.
Qed.

Lemma newline_is_space c : is_newline c = true → is_space c = true.
Proof. unfold is_newline. intros H%bool_decide_eq_true_1. by subst. Qed.

Lemma lstrip_nil t : lstrip t = [] ↔ Forall (λ c, is_space c = true) t.
Proof.
  induction t as [|c r IH]; [done|]. cbn [lstrip].
  destruct (is_space c) eqn:Hc.
  - rewrite IH. split; [by constructor|]. by intros [_ ?]%Forall_cons.
  - split; [done|]. intros [? _]%Forall_cons. congruence.
Qed.

Lemma strip_nil t : strip t = [] ↔ Forall (λ c, is_space c = true) t.
Proof.
  unfold strip, rstrip. split.
  - intros H. apply (f_equal reverse) in H. rewrite reverse_involutive in H.
    cbn in H. apply lstrip_nil, Forall_reverse in H.
    rewrite reverse_involutive in H.
    destruct (lstrip_suffix t) as (p & Hp & Hall).
    rewrite Hp. by apply Forall_app.
  - intros H%lstrip_nil. by rewrite H.
Qed.

Lemma Forall_space_squeeze t b :
  Forall (λ c, is_space c = true) (squeeze_blanks b t) ↔
  Forall (λ c, is_space c = true) t.
Proof.
  revert b. induction t as [|c r IH]; intros b; [done|].
  cbn [squeeze_blanks]. destruct (is_blank c) eqn:Hc.
  - pose proof (blank_is_space _ Hc) as Hs. destruct b.
    + rewrite IH. split; [by constructor|]. by intros [_ ?]%Forall_cons.
    + rewrite !Forall_cons, IH. split; intros [_ ?]; done.
  - by rewrite !Forall_cons, IH.
Qed.

Lemma Forall_space_cap t k :
  Forall (λ c, is_space c = true) (cap_newlines k t) ↔
  Forall (λ c, is_space c = true) t.
Proof.
  revert k. induction t as [|c r IH]; intros k; [done|].
  cbn [cap_newlines]. destruct (is_newline c) eqn:Hc.
  - pose proof (newline_is_space _ Hc) as Hs. destruct (k <? 2)%nat.
    + by rewrite !Forall_cons, IH.
    + rewrite IH. split; [by constructor|]. by intros [_ ?]%Forall_cons.
  - by rewrite !Forall_cons, IH.
Qed.

(** X2. The normal form of a text is empty exactly when the text holds
    nothing but white space (the characters [str.strip] removes). *)
Theorem normalize_text_empty_iff_blank :
  ∀ t, normalize_text t = [] ↔ Forall (λ c, is_space c = true) t.
Proof.
  intros t.
  by rewrite normalize_text_passes, strip_nil, Forall_space_cap,
    Forall_space_squeeze.
Qed.

Lemma blanks_tidy_no_tab t b : blanks_tidy b t = true → TAB ∉ t.
Proof.
  revert b. induction t as [|c r IH]; intros b H.
  - apply not_elem_of_nil.
  - cbn [blanks_tidy] in H. apply not_elem_of_cons.
    destruct (is_blank c) eqn:Hc.
    + apply andb_true_iff in H as [H Hr]. apply andb_true_iff in H as [Hsp _].
      apply bool_decide_eq_true_1 in Hsp as ->. split; [done|by eapply IH].
    + split; [|by eapply IH]. intros <-. done.
Qed.

(** X3. A normalised text has no tab, no two spaces in a row and no three
    line feeds in a row. *)
Theorem normalize_text_output_shape :
  ∀ t,
    (TAB ∉ normalize_text t) ∧
    (∀ a b, normalize_text t ≠ a ++ [SP; SP] ++ b) ∧
    (∀ a b, normalize_text t ≠ a ++ [LF; LF; LF] ++ b).
Proof.
  intros t. destruct (normalize_text_shape t) as (Hb & Hn & _).
  split_and!.
  - by eapply blanks_tidy_no_tab.
  - intros a b E. rewrite E in Hb. apply blanks_tidy_drop in Hb. done.
  - intros a b E. rewrite E in Hn. apply newlines_capped_drop in Hn. done.
Qed.

End NormalisedText.

(** ** Forbidden words *)

Section ForbiddenWords.

Variable lower : str → str.

Lemma starts_with_spec needle hay :
  starts_with needle hay = true ↔ ∃ post, hay = needle ++ post.
Proof.
  revert hay. induction needle as [|x n IH]; intros hay.
  - split; [by exists hay|done].
  - destruct hay as [|y h]; cbn [starts_with].
    + split; [done|]. by intros (post & ?).
    + rewrite andb_true_iff, bool_decide_eq_true, IH. split.
      * intros (-> & post & ->). by exists post.
      * intros (post & [= -> ->]). split; [done|]. by exists post.
Qed.

Lemma contains_spec needle hay :
  contains needle hay = true ↔ ∃ pre post, hay = pre ++ needle ++ post.
Proof.
  induction hay as [|y h IH]; cbn [contains].
  - rewrite orb_false_r, starts_with_spec. split.
    + intros (post & ->). by exists [], post.
    + intros (pre & post & E). symmetry in E.
      apply app_eq_nil in E as [-> E]. apply app_eq_nil in E as [-> ->].
      by exists [].
  - rewrite orb_true_iff, starts_with_spec, IH. split.
    + intros [(post & ->)|(pre & post & ->)].
      * by exists [], post.
      * by exists (y :: pre), post.
    + intros ([|x pre] & post & E).
      * left. by exists post.
      * injection E as -> ->. right. by exists pre, post.
Qed.

(** X4. A word of the forbidden list is reported exactly when its
    lower-cased form occurs somewhere in the lower-cased text, inside a
    longer word or not; the words reported come in the order of the list. *)
Theorem forbidden_word_found_iff_substring :
  ∀ text,
    (∀ w, w ∈ check_forbidden_words lower text ↔
          w ∈ FORBIDDEN_WORDS ∧ ∃ pre post, lower text = pre ++ lower w ++ post) ∧
    check_forbidden_words lower text `sublist_of` FORBIDDEN_WORDS.
Proof.
  intros text. unfold check_forbidden_words. split.
  - intros w. rewrite list_elem_of_filter, contains_spec. tauto.
  - apply sublist_filter.
Qed.

End ForbiddenWords.

(** ** The duplicate guard: windows *)

Section Windows.

Lemma elem_of_take_le {A} (x : A) l n m : n ≤ m → x ∈ take n l → x ∈ take m l.
Proof.
  rewrite !elem_of_take. intros Hnm (i & Hi & Hlt). exists i. split; [done|lia].
Qed.

(** X5. Widening the window never loses a duplicate: a fingerprint or hook
    found among the [n] latest posted records is found among the [m] latest
    for every [m] from [n] on. *)
Theorem duplicate_window_widening :
  ∀ (fp hook : str) (q : queue) (n m : nat),
    n ≤ m →
    (check_fingerprint_duplicate fp q n = true →
     check_fingerprint_duplicate fp q m = true) ∧
    (check_hook_duplicate hook q n = true →
     check_hook_duplicate hook q m = true).
Proof.
  intros fp hook q n m Hnm.
  unfold check_fingerprint_duplicate, check_hook_duplicate, get_posted_items.
  rewrite !existsb_elem_of. split; intros (it & Hit & ?); exists it;
    (split; [by eapply elem_of_take_le|done]).
Qed.

Lemma duplicate_window_widening_witness :
  check_fingerprint_duplicate (py "f9") Examples.history 50 = true.
Proof.
  apply (proj1 (duplicate_window_widening (py "f9") [] Examples.history 2 50
                  ltac:(lia))).
  vm_compute. reflexivity.
Defined.

(** X6. Records that are not posted play no part in the guard: putting one
    anywhere into the queue, or taking it out, changes neither answer. *)
Theorem duplicate_guard_ignores_unposted :
  ∀ (q1 q2 : queue) (it : item) (fp hook : str) (n : nat),
    item_status it ≠ Some (py "posted") →
    check_fingerprint_duplicate fp (q1 ++ it :: q2) n =
      check_fingerprint_duplicate fp (q1 ++ q2) n ∧
    check_hook_duplicate hook (q1 ++ it :: q2) n =
      check_hook_duplicate hook (q1 ++ q2) n.
Proof.
  intros q1 q2 it fp hook n Hit.
  unfold check_fingerprint_duplicate, check_hook_duplicate, get_posted_items.
  assert (filter is_posted (q1 ++ it :: q2) = filter is_posted (q1 ++ q2)) as ->.
  { rewrite !filter_app, filter_cons. by rewrite decide_False. }
  done.
Qed.

Lemma duplicate_guard_ignores_unposted_witness :
  check_fingerprint_duplicate (py "f1")
    ([Examples.posted_undated; Examples.posted_before] ++
     Examples.draft_inside :: [Examples.posted_late]) 50 = false.
Proof.
  rewrite (proj1 (duplicate_guard_ignores_unposted
                    [Examples.posted_undated; Examples.posted_before]
                    [Examples.posted_late] Examples.draft_inside
                    (py "f1") [] 50 ltac:(discriminate))).
  vm_compute. reflexivity.
Defined.

Lemma filter_take_prefix {A} (P : A → Prop) `{∀ x, Decision (P x)} (l : list A) n :
  filter P (take n l) `prefix_of` filter P l.
Proof.
  exists (filter P (drop n l)). by rewrite <- filter_app, take_drop.
Qed.

(** X7. Posted records with one and the same [posted_at_utc] (or all
    without one) come in the window in the order they have in the queue;
    where the window ends among them, the later ones in the queue are left
    out. *)
Theorem posted_ties_keep_queue_order :
  ∀ (q : queue) (n : nat) (k : str),
    filter (λ it, posted_key it = k) (get_posted_items q n)
      `prefix_of` filter (λ it, posted_key it = k) (filter is_posted q).
Proof.
  intros q n k. unfold get_posted_items.
  rewrite <- (sort_desc_stable k (filter is_posted q)).
  apply filter_take_prefix.
Qed.

(** X8. The hook [extract_hook] gives is in normal form, so the guard's
    second normalisation changes nothing: [check_hook_duplicate] answers
    [true] exactly when the normalised candidate is the extracted hook of a
    record in the window, and normalising the candidate beforehand does not
    change the answer. *)
Theorem extract_hook_is_normalised :
  (∀ it, normalize_text (extract_hook it) = extract_hook it) ∧
  (∀ hook q n,
     check_hook_duplicate hook q n = true ↔
     ∃ it, it ∈ get_posted_items q n ∧ extract_hook it = normalize_text hook) ∧
  (∀ hook q n,
     check_hook_duplicate (normalize_text hook) q n = check_hook_duplicate hook q n).
Proof.
  assert (∀ it, normalize_text (extract_hook it) = extract_hook it) as Hn.
  { intros it. unfold extract_hook.
    destruct (item_hook it) as [[|c h]|]; apply normalize_text_idempotent. }
  split_and!; [done| |].
  - intros hook q n. unfold check_hook_duplicate. rewrite existsb_elem_of.
    setoid_rewrite bool_decide_eq_true. by setoid_rewrite Hn.
  - intros hook q n. unfold check_hook_duplicate.
    by rewrite normalize_text_idempotent.
Qed.

End Windows.

(** ** Dispatch: what a run of [main] can and cannot do *)

Section DispatchRuns.

Import PostSlot.

Variable lower : str → str.

Lemma find_target_index_spec today q slot i :
  find_target_index today q slot = Some i ↔
  (∃ it, q !! i = Some it ∧ is_target today slot it) ∧
  ∀ j it, j < i → q !! j = Some it → ¬ is_target today slot it.
Proof.
  revert i. induction q as [|x q IH]; intros i; cbn [find_target_index].
  - split; [done|]. by intros [(it & ? & _) _].
  - destruct (decide (is_target today slot x)) as [Hx|Hx].
    + split.
      * intros [= <-]. split; [by exists x|]. intros j it Hj. lia.
      * intros [(it & Hi & Hit) Hbefore]. destruct i as [|i]; [done|].
        by destruct (Hbefore 0 x ltac:(lia) eq_refl).
    + destruct (find_target_index today q slot) as [k|] eqn:Hk; cbn.
      * destruct (proj1 (IH k) eq_refl) as [(it & Hit & Htg) Hbefore]. split.
        -- intros [= <-]. split; [by exists it|].
           intros [|j] it' Hj Hl; cbn in Hl; [by injection Hl as <-|].
           eapply Hbefore; [|done]. lia.
        -- intros [(it' & Hi & Hit') Hb]. destruct i as [|i]; cbn in Hi.
           { by injection Hi as <-. }
           f_equal. symmetry. assert (Some i = Some k) as [= ->]; [|done].
           rewrite <- (proj2 (IH i)); [done|]. split; [by exists it'|].
           intros j it'' Hj Hl. apply (Hb (S j) it''); [lia|done].
      * split; [done|]. intros [(it' & Hi & Hit') Hb].
        destruct i as [|i]; cbn in Hi; [by injection Hi as <-|].
        assert (None = Some i) as [=]. rewrite <- (proj2 (IH i)); [done|].
        split; [by exists it'|].
        intros j it'' Hj Hl. apply (Hb (S j) it''); [lia|done].
Qed.

(** The runs of [main], case by case. *)
Lemma main_cases w :
  let slot := default (py "17") (env_slot w) in
  let q := load_queue (document w) in
  ((slot ∉ [py "17"; py "19"]) ∧ main lower w = Outcome (Exit 1) [] []) ∨
  (slot ∈ [py "17"; py "19"] ∧
   ((find_target_post (today_jst w) q slot = None ∧
     main lower w = Outcome (Exit 0) [Loaded] q) ∨
    ∃ target i,
      find_target_post (today_jst w) q slot = Some target ∧
      find_target_index (today_jst w) q slot = Some i ∧
      q !! i = Some target ∧
      ((∃ e, validate_post lower target q = Raise e ∧
             main lower w = Outcome (ending_for e) [Loaded] q) ∨
       (validate_post lower target q = Return () ∧
        ((dry_run w = true ∧ main lower w = Outcome (Exit 0) [Loaded] q) ∨
         (dry_run w = false ∧ credentials w = false ∧
          main lower w = Outcome (Exit 1) [Loaded] q) ∨
         (dry_run w = false ∧ credentials w = true ∧
          ((∃ tweet_id,
              endpoint w (default [] (item_text target)) = Created tweet_id ∧
              main lower w =
                Outcome (Exit 0)
                  [Loaded; Published (default [] (item_text target));
                   Saved (<[i := update_posted_item target tweet_id (utc_iso w)]> q)]
                  (<[i := update_posted_item target tweet_id (utc_iso w)]> q)) ∨
           ((∀ tweet_id,
               endpoint w (default [] (item_text target)) ≠ Created tweet_id) ∧
            main lower w =
              Outcome (Exit 1)
                [Loaded; Published (default [] (item_text target))] q)))))))).
Proof.
  intros slot q. unfold main. fold slot. fold q.
  case_bool_decide as Hslot; cbn [negb]; [right|by left]. split; [done|].
  destruct (find_target_post (today_jst w) q slot) as [target|] eqn:Hfind.
  - right. destruct (find_target_index_post _ _ _ _ Hfind) as (i & Hi & Hqi).
    exists target, i. split_and!; [done..|]. rewrite Hi.
    destruct q as [|x q']; [done|].
    destruct (validate_post lower target (x :: q')) as [[]|e] eqn:Hv.
    + right. split; [done|].
      destruct (dry_run w); [by left|right].
      destruct (credentials w); cbn [negb]; [right|by left].
      split_and!; [done..|].
      destruct (endpoint w (default [] (item_text target))) eqn:He.
      * left. by eexists.
      * right. split; [intros ?; congruence|done].
      * right. split; [intros ?; congruence|done].
    + left. exists e. split; [done|]. by destruct e.
  - left. split; [done|]. by destruct q.
Qed.

Lemma validate_post_passed it q :
  validate_post lower it q = Return () →
  length (default [] (item_text it)) ≤ MAX_TEXT_LENGTH ∧
  check_forbidden_words lower (default [] (item_text it)) = [] ∧
  ∃ fp, fingerprint_to_check it = Some fp ∧
        check_fingerprint_duplicate fp q 50 = false ∧
        check_hook_duplicate (extract_hook it) q 14 = false.
Proof.
  unfold validate_post, validate_text_length.
  case_bool_decide as Hlen; cbn [negb]; [|done].
  destruct (check_forbidden_words lower _) as [|? ?]; [|done].
  destruct (fingerprint_to_check it) as [fp|]; [|done].
  destruct (check_fingerprint_duplicate fp q 50) eqn:Hfp; [done|].
  destruct (check_hook_duplicate (extract_hook it) q 14) eqn:Hh; [done|].
  intros _. split_and!; [done..|]. by exists fp.
Qed.

(** X9. Whatever [main] sends to the endpoint is the text of the first
    approved record of the day and slot, and that record has passed the
    re-validation against the queue as loaded: the text has at most 260
    characters and no forbidden word, and neither the fingerprint nor the
    hook is among the latest posted ones.  Nothing is sent in a dry run or
    without credentials. *)
Theorem publish_only_after_validation :
  ∀ (w : world) (text : str),
    Published text ∈ events (main lower w) →
    dry_run w = false ∧ credentials w = true ∧
    ∃ target,
      find_target_post (today_jst w) (load_queue (document w))
        (default (py "17") (env_slot w)) = Some target ∧
      text = default [] (item_text target) ∧
      validate_post lower target (load_queue (document w)) = Return () ∧
      length text ≤ MAX_TEXT_LENGTH ∧
      check_forbidden_words lower text = [] ∧
      ∃ fp, fingerprint_to_check target = Some fp ∧
            check_fingerprint_duplicate fp (load_queue (document w)) 50 = false ∧
            check_hook_duplicate (extract_hook target)
              (load_queue (document w)) 14 = false.
Proof.
  intros w text Hpub.
  destruct (main_cases w)
    as [[_ Hm]|[_ [[_ Hm]|(target & i & Hfind & _ & _ & Hcase)]]].
  - rewrite Hm in Hpub. by apply elem_of_nil in Hpub.
  - rewrite Hm in Hpub. cbn in Hpub.
    apply list_elem_of_singleton in Hpub. done.
  - assert (∀ t, Published text ∈ [Loaded; Published t] → text = t) as Hin.
    { intros t [?|[[= ->]|[]%elem_of_nil]%elem_of_cons]%elem_of_cons; done. }
    assert (Published text ∉ [Loaded]) as Hnot.
    { intros [?|[]%elem_of_nil]%elem_of_cons. done. }
    destruct Hcase
      as [(e & _ & Hm)|[Hv [[_ Hm]|[(_ & _ & Hm)|(Hdry & Hcred & Hend)]]]];
      try (rewrite Hm in Hpub; by destruct Hnot).
    assert (text = default [] (item_text target)) as ->.
    { destruct Hend as [(id & _ & Hm)|[_ Hm]]; rewrite Hm in Hpub; cbn in Hpub.
      - apply Hin. apply elem_of_cons in Hpub as [?|Hpub]; [done|].
        apply elem_of_cons in Hpub as [->|Hpub]; [set_solver|].
        apply list_elem_of_singleton in Hpub. done.
      - by apply Hin. }
    split_and!; [done..|]. exists target.
    destruct (validate_post_passed _ _ Hv) as (? & ? & ?). by split_and!.
Qed.

(** X10. The trace of a run of [main] has one of four shapes: nothing at
    all; the load of the queue; the load and one call of the endpoint, with
    exit status 1 and the queue as loaded; or the load, one call and one
    save, with exit status 0, where what is saved is the queue in memory.
    So the endpoint is called at most once and the document is written only
    after a call that succeeded. *)
Theorem dispatch_trace_shapes :
  ∀ w : world,
    (events (main lower w) = [] ∧ memory (main lower w) = []) ∨
    (events (main lower w) = [Loaded] ∧
     memory (main lower w) = load_queue (document w)) ∨
    (∃ text, events (main lower w) = [Loaded; Published text] ∧
             ending_of (main lower w) = Exit 1 ∧
             memory (main lower w) = load_queue (document w)) ∨
    (∃ text q', events (main lower w) = [Loaded; Published text; Saved q'] ∧
                ending_of (main lower w) = Exit 0 ∧
                memory (main lower w) = q').
Proof.
  intros w.
  destruct (main_cases w) as [[_ Hm]|[_ [[_ Hm]|(target & i & _ & _ & _ & Hcase)]]].
  - left. by rewrite Hm.
  - right. left. by rewrite Hm.
  - destruct Hcase as [(e & _ & Hm)|[_ [[_ Hm]|[(_ & _ & Hm)|(_ & _ & Hend)]]]].
    + right. left. by rewrite Hm.
    + right. left. by rewrite Hm.
    + right. left. by rewrite Hm.
    + destruct Hend as [(id & _ & Hm)|[_ Hm]].
      * right. right. right. rewrite Hm. by eexists _, _.
      * right. right. left. rewrite Hm. by eexists.
Qed.

(** The run that publishes. *)
Lemma main_publishes w target tweet_id :
  default (py "17") (env_slot w) ∈ [py "17"; py "19"] →
  find_target_post (today_jst w) (load_queue (document w))
    (default (py "17") (env_slot w)) = Some target →
  validate_post lower target (load_queue (document w)) = Return () →
  dry_run w = false → credentials w = true →
  endpoint w (default [] (item_text target)) = Created tweet_id →
  ∃ i,
    find_target_index (today_jst w) (load_queue (document w))
      (default (py "17") (env_slot w)) = Some i ∧
    load_queue (document w) !! i = Some target ∧
    main lower w =
      Outcome (Exit 0)
        [Loaded; Published (default [] (item_text target));
         Saved (<[i := update_posted_item target tweet_id (utc_iso w)]>
                  (load_queue (document w)))]
        (<[i := update_posted_item target tweet_id (utc_iso w)]>
           (load_queue (document w))).
Proof.
  intros Hslot Hfind Hv Hdry Hcred Hend.
  destruct (main_cases w)
    as [[? _]|[_ [[Hnone _]|(target' & i & Hfind' & Hi & Hqi & Hcase)]]];
    [done|congruence|].
  assert (target' = target) as -> by congruence.
  exists i. split_and!; [done..|].
  destruct Hcase as [(e & ? & _)|[_ [[? _]|[(_ & ? & _)|(_ & _ & Hcase)]]]];
    try congruence.
  destruct Hcase as [(id & Hid & Hm)|[Hno _]].
  - assert (id = tweet_id) as -> by congruence. done.
  - by destruct (Hno tweet_id).
Qed.

(** X11. A run that publishes changes one record and nothing else: the
    first approved record of the day and slot gets status posted, the
    identifier the endpoint returned and the current time; its other seven
    fields, the other records and the length of the queue stay as they
    were, and this queue is what is saved. *)
Theorem dispatch_changes_one_record :
  ∀ (w : world) (target : item) (tweet_id : option str),
    default (py "17") (env_slot w) ∈ [py "17"; py "19"] →
    find_target_post (today_jst w) (load_queue (document w))
      (default (py "17") (env_slot w)) = Some target →
    validate_post lower target (load_queue (document w)) = Return () →
    dry_run w = false → credentials w = true →
    endpoint w (default [] (item_text target)) = Created tweet_id →
    ∃ i q' p,
      main lower w =
        Outcome (Exit 0)
          [Loaded; Published (default [] (item_text target)); Saved q'] q' ∧
      load_queue (document w) !! i = Some target ∧
      length q' = length (load_queue (document w)) ∧
      (∀ j, j ≠ i → q' !! j = load_queue (document w) !! j) ∧
      q' !! i = Some p ∧
      item_status p = Some (py "posted") ∧
      item_tweet_id p = tweet_id ∧
      item_posted_at_utc p = Some (utc_iso w) ∧
      item_date p = item_date target ∧ item_slot p = item_slot target ∧
      item_pillar p = item_pillar target ∧ item_format p = item_format target ∧
      item_hook p = item_hook target ∧ item_text p = item_text target ∧
      item_fingerprint p = item_fingerprint target.
Proof.
  intros w target tweet_id Hslot Hfind Hv Hdry Hcred Hend.
  destruct (main_publishes w target tweet_id) as (i & Hi & Hqi & Hm); [done..|].
  exists i, (<[i := update_posted_item target tweet_id (utc_iso w)]>
               (load_queue (document w))),
         (update_posted_item target tweet_id (utc_iso w)).
  split_and!; try done.
  - apply length_insert.
  - intros j Hj. by apply list_lookup_insert_ne.
  - apply list_lookup_insert_eq. by eapply lookup_lt_Some.
Qed.

(** X12. No record is published twice: in the queue a publishing run
    saves, the first approved record of the day and slot, if there is one,
    comes after the record just published. *)
Theorem no_double_posting :
  ∀ (w : world) (q' : queue) (i j : nat),
    Saved q' ∈ events (main lower w) →
    find_target_index (today_jst w) (load_queue (document w))
      (default (py "17") (env_slot w)) = Some i →
    find_target_index (today_jst w) q' (default (py "17") (env_slot w)) = Some j →
    i < j.
Proof.
  intros w q' i j Hsaved Hi Hj.
  destruct (main_cases w)
    as [[_ Hm]|[_ [[_ Hm]|(target & i' & Hfind & Hi' & Hqi & Hcase)]]].
  - rewrite Hm in Hsaved. by apply elem_of_nil in Hsaved.
  - rewrite Hm in Hsaved. cbn in Hsaved.
    apply list_elem_of_singleton in Hsaved. done.
  - assert (i' = i) as -> by congruence.
    assert (Saved q' ∉ [Loaded]) as Hnot.
    { intros [?|[]%elem_of_nil]%elem_of_cons. done. }
    destruct Hcase as [(e & _ & Hm)|[_ [[_ Hm]|[(_ & _ & Hm)|(_ & _ & Hend)]]]];
      try (rewrite Hm in Hsaved; by destruct Hnot).
    destruct Hend as [(id & _ & Hm)|[_ Hm]]; rewrite Hm in Hsaved; cbn in Hsaved.
    + apply elem_of_cons in Hsaved as [?|Hsaved]; [done|].
      apply elem_of_cons in Hsaved as [?|Hsaved]; [done|].
      apply list_elem_of_singleton in Hsaved. injection Hsaved as ->.
      apply find_target_index_spec in Hi as [_ Hbefore].
      apply find_target_index_spec in Hj as [(it & Hit & Htg) _].
      destruct (decide (j = i)) as [->|Hne].
      * rewrite list_lookup_insert_eq in Hit by (by eapply lookup_lt_Some).
        injection Hit as <-. destruct Htg as (_ & _ & Hst). done.
      * rewrite list_lookup_insert_ne in Hit by done.
        destruct (decide (j < i)) as [Hlt|?]; [|lia].
        by destruct (Hbefore j it Hlt Hit).
    + apply elem_of_cons in Hsaved as [?|Hsaved]; [done|].
      apply list_elem_of_singleton in Hsaved. done.
Qed.

(** X13. When the endpoint does not answer with a created tweet, the run
    ends with exit status 1 after the one call; nothing is saved and the
    queue is as it was, so the record is still the first approved one of
    the day and slot. *)
Theorem publish_failure_keeps_record :
  ∀ (w : world) (target : item),
    default (py "17") (env_slot w) ∈ [py "17"; py "19"] →
    find_target_post (today_jst w) (load_queue (document w))
      (default (py "17") (env_slot w)) = Some target →
    validate_post lower target (load_queue (document w)) = Return () →
    dry_run w = false → credentials w = true →
    (∀ tweet_id, endpoint w (default [] (item_text target)) ≠ Created tweet_id) →
    main lower w =
      Outcome (Exit 1) [Loaded; Published (default [] (item_text target))]
              (load_queue (document w)) ∧
    document_after (document w) (main lower w) = document w ∧
    find_target_post (today_jst w)
      (load_queue (document_after (document w) (main lower w)))
      (default (py "17") (env_slot w)) = Some target.
Proof.
  intros w target Hslot Hfind Hv Hdry Hcred Hend.
  assert (main lower w =
            Outcome (Exit 1) [Loaded; Published (default [] (item_text target))]
                    (load_queue (document w))) as Hm.
  { destruct (main_cases w)
      as [[? _]|[_ [[Hnone _]|(target' & i & Hfind' & Hi & Hqi & Hcase)]]];
      [done|congruence|].
    assert (target' = target) as -> by congruence.
    destruct Hcase as [(e & ? & _)|[_ [[? _]|[(_ & ? & _)|(_ & _ & Hcase)]]]];
      try congruence.
    destruct Hcase as [(id & Hid & _)|[_ Hm]]; [by destruct (Hend id)|done]. }
  rewrite Hm. done.
Qed.



End DispatchRuns.

Lemma dispatch_changes_one_record_witness :
  ∃ i q',
    PostSlot.main Examples.lower_ascii Examples.fresh_world =
      Outcome (Exit 0)
        [Loaded; Published (default [] (item_text Examples.fresh_target));
         Saved q'] q' ∧
    load_queue (PostSlot.document Examples.fresh_world) !! i =
      Some Examples.fresh_target ∧
    length q' = length (load_queue (PostSlot.document Examples.fresh_world)).
Proof.
  destruct (dispatch_changes_one_record Examples.lower_ascii Examples.fresh_world
              Examples.fresh_target (Some (py "1")))
    as (i & q' & p & Hm & Hi & Hlen & _).
  - apply (bool_decide_unpack _). vm_compute. exact I.
  - vm_compute. reflexivity.
  - vm_compute. reflexivity.
  - reflexivity.
  - reflexivity.
  - vm_compute. reflexivity.
  - exists i, q'. split; [exact Hm|]. split; [exact Hi|exact Hlen].
Defined.

Lemma no_double_posting_witness : 1 < 2.
Proof.
  apply (no_double_posting Examples.lower_ascii Examples.double_world
           [Examples.posted_before;
            PostSlot.update_posted_item Examples.fresh_target (Some (py "2"))
              (py "2025-01-01T08:00:00Z");
            Examples.second_target]).
  - apply list_elem_of_lookup_2 with 2. vm_compute. reflexivity.
  - vm_compute. reflexivity.
  - vm_compute. reflexivity.
Defined.

Lemma publish_failure_keeps_record_witness :
  PostSlot.main Examples.lower_ascii Examples.refusing_world =
    Outcome (Exit 1)
      [Loaded; Published (default [] (item_text Examples.fresh_target))]
      (load_queue (PostSlot.document Examples.refusing_world)).
Proof.
  destruct (publish_failure_keeps_record Examples.lower_ascii
              Examples.refusing_world Examples.fresh_target) as [Hm _].
  - apply (bool_decide_unpack _). vm_compute. exact I.
  - vm_compute. reflexivity.
  - vm_compute. reflexivity.
  - reflexivity.
  - reflexivity.
  - intros tweet_id. discriminate.
  - exact Hm.
Defined.


Lemma publish_only_after_validation_witness :
  PostSlot.dry_run Examples.fresh_world = false ∧
  PostSlot.credentials Examples.fresh_world = true ∧
  length (default [] (item_text Examples.fresh_target)) ≤ MAX_TEXT_LENGTH.
Proof.
  destruct (publish_only_after_validation Examples.lower_ascii
              Examples.fresh_world
              (default [] (item_text Examples.fresh_target)))
    as (Hdry & Hcred & target & _ & _ & _ & Hlen & _).
  - apply list_elem_of_lookup_2 with 1. vm_compute. reflexivity.
  - split; [exact Hdry|]. split; [exact Hcred|exact Hlen].
Defined.

(** ** Range approval: what a run of [main] can and cannot do *)

Section RangeRuns.

Import ApproveRange.

Variable strptime : str → option datetime.

Lemma preview_loop_keeps from_date to_date (q : queue) :
  map (λ it, if selected strptime from_date to_date it then it else it) q = q.
Proof.
  induction q as [|it q IH]; [done|]. cbn. rewrite IH.
  by destruct (selected strptime from_date to_date it).
Qed.

(** The runs of [main], case by case. *)
Lemma approve_main_cases a doc :
  let q := load_queue doc in
  ((parse_date strptime (arg_from a) = None ∨
    parse_date strptime (arg_to a) = None ∨
    ∃ from_date to_date,
      parse_date strptime (arg_from a) = Some from_date ∧
      parse_date strptime (arg_to a) = Some to_date ∧
      datetime_le from_date to_date = false) ∧
   main strptime a doc = Outcome (Exit 1) [] []) ∨
  ∃ from_date to_date,
    parse_date strptime (arg_from a) = Some from_date ∧
    parse_date strptime (arg_to a) = Some to_date ∧
    datetime_le from_date to_date = true ∧
    (((arg_dry_run a = true ∨
       filter (λ it, selected strptime from_date to_date it = true) q = []) ∧
      main strptime a doc = Outcome (Exit 0) [Loaded] q) ∨
     (arg_dry_run a = false ∧
      filter (λ it, selected strptime from_date to_date it = true) q ≠ [] ∧
      main strptime a doc =
        Outcome (Exit 0)
          [Loaded;
           Saved (map (λ it, if selected strptime from_date to_date it
                             then approve it else it) q)]
          (map (λ it, if selected strptime from_date to_date it
                      then approve it else it) q))).
Proof.
  intros q. unfold main, datetime_gt. fold q.
  destruct (parse_date strptime (arg_from a)) as [from_date|]; [|left; auto].
  destruct (parse_date strptime (arg_to a)) as [to_date|]; [|left; auto].
  destruct (datetime_le from_date to_date) eqn:Hle; cbn [negb];
    [|left; split; [|done]; right; right; by exists from_date, to_date].
  right. exists from_date, to_date. split_and!; [done..|].
  destruct q as [|it q'] eqn:Eq; [left; split; [by right|done]|]. rewrite <- Eq.
  rewrite approve_loop_spec, Nat.add_0_l.
  destruct (arg_dry_run a).
  - left. split; [by left|]. by rewrite preview_loop_keeps.
  - case_bool_decide as Hn.
    + right. split_and!; [done| |done]. intros E. rewrite E in Hn. cbn in Hn. lia.
    + left. assert (filter (λ it, selected strptime from_date to_date it = true) q
                    = []) as E by (apply length_zero_iff_nil; lia).
      split; [by right|]. by rewrite map_no_change.
Qed.

(** X15. A preview changes nothing: with [--dry-run] the queue is at most
    loaded, never saved; the document is as it was, and the queue in memory
    is the queue as loaded. *)
Theorem approve_preview_changes_nothing :
  ∀ (a : args) (doc : option queue),
    arg_dry_run a = true →
    let out := main strptime a doc in
    (events out = [] ∨
     events out = [Loaded] ∧ memory out = load_queue doc) ∧
    document_after doc out = doc.
Proof.
  intros a doc Hdry out. subst out.
  destruct (approve_main_cases a doc)
    as [[_ Hm]|(fd & td & _ & _ & _ & [[_ Hm]|(Hnot & _)])].
  - rewrite Hm. split; [by left|done].
  - rewrite Hm. split; [by right|done].
  - congruence.
Qed.

(** X16. On a queue document that loads, the exit status of range approval
    is decided by the command line: it is 2 exactly when the command line
    is rejected, 1 exactly when it is accepted and a bound does not parse
    or the start is after the end, and 0 exactly when help is asked for or
    both bounds parse and are in order.  Unless the status is 0 the queue
    is not even loaded. *)
Theorem approve_exit_status :
  ∀ (cl : ApproveRangeScript.command_line) (doc : option queue),
    let out := ApproveRangeScript.main strptime cl doc in
    (ending_of out = Exit 2 ↔ cl = ApproveRangeScript.Rejected) ∧
    (ending_of out = Exit 1 ↔
     ∃ a, cl = ApproveRangeScript.Accepted a ∧
          ¬ ∃ from_date to_date,
              parse_date strptime (arg_from a) = Some from_date ∧
              parse_date strptime (arg_to a) = Some to_date ∧
              datetime_le from_date to_date = true) ∧
    (ending_of out = Exit 0 ↔
     cl = ApproveRangeScript.Help ∨
     ∃ a, cl = ApproveRangeScript.Accepted a ∧
          ∃ from_date to_date,
            parse_date strptime (arg_from a) = Some from_date ∧
            parse_date strptime (arg_to a) = Some to_date ∧
            datetime_le from_date to_date = true) ∧
    (ending_of out ≠ Exit 0 → events out = [] ∧ document_after doc out = doc).
Proof.
  intros [| |a] doc out; subst out; cbn [ApproveRangeScript.main].
  - cbn. split_and!; [done| |split; [by left|done]|done].
    split; [done|]. by intros (a & ? & _).
  - cbn. split_and!; [done| | |done].
    + split; [done|]. by intros (a & ? & _).
    + split; [done|]. by intros [?|(a & ? & _)].
  - destruct (approve_main_cases a doc)
      as [[Hbad Hm]|(fd & td & Hf & Ht & Hle & Hcase)].
    + assert (¬ ∃ from_date to_date,
                  parse_date strptime (arg_from a) = Some from_date ∧
                  parse_date strptime (arg_to a) = Some to_date ∧
                  datetime_le from_date to_date = true) as Hnot.
      { intros (fd & td & Hf & Ht & Hle).
        destruct Hbad as [?|[?|(fd' & td' & ? & ? & ?)]]; congruence. }
      rewrite Hm. cbn. split_and!; [done| | |done].
      * split; [intros _; by exists a|done].
      * split; [done|]. intros [?|(a' & [= <-] & Hfine)]; [done|].
        by destruct Hnot.
    + assert (ending_of (main strptime a doc) = Exit 0) as ->.
      { destruct Hcase as [[_ ->]|(_ & _ & ->)]; done. }
      split_and!; [done| | |done].
      * split; [done|]. intros (a' & [= <-] & Hnot). destruct Hnot.
        by exists fd, td.
      * split; [|done]. intros _. right. exists a. split; [done|].
        by exists fd, td.
Qed.

(** X17. Whatever the arguments, a run of range approval only promotes
    drafts: the document afterwards has as many records as before, in the
    same places, and each one is the record as it was or, if that was a
    draft, the record with status approved and nothing else changed. *)
Theorem approve_only_promotes_drafts :
  ∀ (a : args) (doc : option queue),
    let q := load_queue doc in
    let q' := load_queue (document_after doc (main strptime a doc)) in
    length q' = length q ∧
    ∀ i it, q !! i = Some it →
      q' !! i = Some it ∨
      (item_status it = Some (py "draft") ∧ q' !! i = Some (approve it) ∧
       item_status (approve it) = Some (py "approved") ∧
       item_date (approve it) = item_date it ∧
       item_slot (approve it) = item_slot it ∧
       item_pillar (approve it) = item_pillar it ∧
       item_format (approve it) = item_format it ∧
       item_hook (approve it) = item_hook it ∧
       item_text (approve it) = item_text it ∧
       item_fingerprint (approve it) = item_fingerprint it ∧
       item_tweet_id (approve it) = item_tweet_id it ∧
       item_posted_at_utc (approve it) = item_posted_at_utc it).
Proof.
  intros a doc q q'. subst q'.
  destruct (approve_main_cases a doc)
    as [[_ Hm]|(fd & td & _ & _ & _ & [[_ Hm]|(_ & _ & Hm)])]; rewrite Hm;
    cbn; fold q; try (split; [done|]; intros i it Hi; by left).
  split; [by rewrite length_map|]. intros i it Hi.
  rewrite list_lookup_fmap, Hi. cbn.
  destruct (selected strptime fd td it) eqn:Hsel; [right|by left].
  apply selected_spec in Hsel as [Hdraft _]. by split_and!.
Qed.

Lemma selected_after_approval from_date to_date it :
  selected strptime from_date to_date
    (if selected strptime from_date to_date it then approve it else it) = false.
Proof.
  destruct (selected strptime from_date to_date it) eqn:Hsel; [|done].
  unfold selected. cbn. rewrite bool_decide_eq_false_2; [done|].
  intros H. apply (f_equal length) in H. vm_compute in H. discriminate.
Qed.

Lemma none_selected_after_approval from_date to_date (q : queue) :
  filter (λ it, selected strptime from_date to_date it = true)
    (map (λ it, if selected strptime from_date to_date it
                then approve it else it) q) = [].
Proof.
  induction q as [|it q IH]; [done|].
  cbn [map]. rewrite filter_cons, decide_False; [done|].
  by rewrite selected_after_approval.
Qed.

(** X18. Range approval is idempotent: a second run with the same
    arguments on the document the first run left saves nothing and leaves
    that document as it is. *)
Theorem approve_twice_changes_nothing :
  ∀ (a : args) (doc : option queue),
    let doc1 := document_after doc (main strptime a doc) in
    let out2 := main strptime a doc1 in
    (∀ q, Saved q ∉ events out2) ∧
    document_after doc1 out2 = doc1.
Proof.
  intros a doc doc1 out2.
  assert (events out2 = [] ∨ events out2 = [Loaded]) as Hev.
  { subst out2.
    destruct (approve_main_cases a doc1)
      as [[_ Hm]|(fd & td & Hf & Ht & Hle & [[_ Hm]|(Hrun & Hsome & _)])];
      [rewrite Hm; by left|rewrite Hm; by right|].
    destruct Hsome. subst doc1.
    destruct (approve_main_cases a doc)
      as [[Hbad _]|(fd' & td' & Hf' & Ht' & _ & [[[Hdry|Hnone] Hm]|(_ & _ & Hm)])].
    - destruct Hbad as [?|[?|(? & ? & ? & ? & ?)]]; congruence.
    - congruence.
    - assert (fd' = fd) as -> by congruence.
      assert (td' = td) as -> by congruence.
      rewrite Hm. done.
    - assert (fd' = fd) as -> by congruence.
      assert (td' = td) as -> by congruence.
      rewrite Hm. apply none_selected_after_approval. }
  split.
  - intros q Hq. destruct Hev as [E|E]; rewrite E in Hq.
    + by apply elem_of_nil in Hq.
    + by apply list_elem_of_singleton in Hq.
  - unfold document_after. by destruct Hev as [->| ->].
Qed.

(** X19. The number a preview reports is the number a real run reports,
    and it is the number of records whose status the real run changes. *)
Theorem approve_count_is_number_changed :
  ∀ (from_date to_date : datetime) (q : queue),
    let preview := approve_loop strptime true from_date to_date q 0 in
    let run := approve_loop strptime false from_date to_date q 0 in
    preview.1 = q ∧ preview.2 = run.2 ∧
    run.2 = length (filter (λ p, item_status p.1 ≠ item_status p.2)
                           (zip q run.1)).
Proof.
  intros from_date to_date q preview run. subst preview run.
  rewrite !approve_loop_spec. cbn [fst snd]. rewrite preview_loop_keeps.
  split_and!; [done..|]. rewrite Nat.add_0_l.
  induction q as [|it q IH]; [done|].
  cbn [map zip zip_with]. rewrite !filter_cons. cbn [fst snd].
  destruct (selected strptime from_date to_date it) eqn:Hsel.
  - rewrite decide_True by done. rewrite decide_True; [cbn; by rewrite IH|].
    apply selected_spec in Hsel as [-> _]. cbn. by intros [= H].
  - rewrite decide_False by done.
    by rewrite decide_False by (intros H; by apply H).
Qed.

Lemma datetime_le_trans a b c :
  datetime_le a b = true → datetime_le b c = true → datetime_le a c = true.
Proof.
  destruct a as [[ya ma] da], b as [[yb mb] db], c as [[yc mc] dc].
  rewrite !datetime_le_spec. lia.
Qed.

(** X20. Widening the range never drops a record: what a range selects is
    selected by every range that starts no later and ends no earlier. *)
Theorem wider_range_selects_more :
  ∀ (from_date to_date from_date' to_date' : datetime) (it : item),
    datetime_le from_date' from_date = true →
    datetime_le to_date to_date' = true →
    selected strptime from_date to_date it = true →
    selected strptime from_date' to_date' it = true.
Proof.
  intros fd td fd' td' it Hf Ht. rewrite !selected_spec.
  intros (Hdraft & d & Hd & H1 & H2). split; [done|]. exists d.
  split_and!; [done|by eapply datetime_le_trans..].
Qed.

End RangeRuns.

Lemma approve_preview_changes_nothing_witness :
  document_after (Some Examples.approval_queue)
    (ApproveRange.main Examples.strptime_padded Examples.first_week_preview
       (Some Examples.approval_queue)) = Some Examples.approval_queue.
Proof.
  destruct (approve_preview_changes_nothing Examples.strptime_padded
              Examples.first_week_preview (Some Examples.approval_queue))
    as [_ Hdoc].
  - reflexivity.
  - exact Hdoc.
Defined.

Lemma wider_range_selects_more_witness :
  ApproveRange.selected Examples.strptime_padded (2025, 1, 1) (2025, 1, 31)
    Examples.draft_inside = true.
Proof.
  apply (wider_range_selects_more Examples.strptime_padded
           (2025, 1, 1) (2025, 1, 7) (2025, 1, 1) (2025, 1, 31)).
  - reflexivity.
  - reflexivity.
  - vm_compute. reflexivity.
Defined.

(** ** Queue validation *)

Section QueueValidation.

Import ValidateQueueScript.

Variable is_digit : codepoint → bool.
Variable lower : str → str.

Lemma count_pos {A} `{EqDecision A} (x : A) l :
  x ∈ l ↔ 0 < length (filter (λ y, y = x) l).
Proof.
  split.
  - intros Hx. assert (x ∈ filter (λ y, y = x) l) as Hin.
    { by apply list_elem_of_filter. }
    destruct (filter (λ y, y = x) l); [by apply elem_of_nil in Hin|cbn; lia].
  - destruct (filter (λ y, y = x) l) as [|y ys] eqn:E; cbn; [lia|]. intros _.
    assert (y ∈ filter (λ y, y = x) l) as Hin by (rewrite E; by left).
    by apply list_elem_of_filter in Hin as [-> ?].
Qed.

Lemma elem_of_count_elements {A} `{EqDecision A} (seen l : list A) x n :
  (x, n) ∈ count_elements seen l ↔
  (x ∉ seen) ∧ x ∈ l ∧ n = length (filter (λ y, y = x) l).
Proof.
  revert seen. induction l as [|h rest IH]; intros seen; cbn [count_elements].
  - split; [by intros ?%elem_of_nil|]. by intros (_ & ?%elem_of_nil & _).
  - rewrite filter_cons. destruct (decide (h ∈ seen)) as [Hh|Hh].
    + rewrite IH. split.
      * intros (Hx & Hin & ->). split_and!; [done|by right|].
        rewrite decide_False; [done|]. by intros ->.
      * intros (Hx & Hin & ->). assert (h ≠ x) by (by intros ->).
        rewrite decide_False by done. split_and!; [done| |done].
        by apply elem_of_cons in Hin as [?|?].
    + rewrite elem_of_cons, IH. split.
      * intros [[= -> ->]|(Hx & Hin & ->)].
        -- split_and!; [done|by left|]. by rewrite decide_True.
        -- apply not_elem_of_cons in Hx as [Hne Hx].
           split_and!; [done|by right|]. by rewrite decide_False.
      * intros (Hx & Hin & ->). destruct (decide (h = x)) as [->|Hne].
        -- by left.
        -- right. split_and!; [|by apply elem_of_cons in Hin as [?|?]|done].
           by apply not_elem_of_cons.
Qed.

Lemma NoDup_count {A} `{EqDecision A} (l : list A) :
  NoDup l ↔ ∀ x, x ∈ l → length (filter (λ y, y = x) l) ≤ 1.
Proof.
  induction l as [|a l IH].
  - split; [by intros _ x ?%elem_of_nil|]. intros _. constructor.
  - rewrite NoDup_cons, IH. split.
    + intros [Ha Hl] x Hx. rewrite filter_cons.
      destruct (decide (a = x)) as [->|Hne]; cbn.
      * destruct (decide (0 < length (filter (λ y, y = x) l)))
          as [Hp%count_pos|]; [done|lia].
      * apply Hl. by apply elem_of_cons in Hx as [?|?].
    + intros Hall. split.
      * intros Ha. pose proof (Hall a ltac:(by left)) as Hc.
        rewrite filter_cons, decide_True in Hc by done. cbn in Hc.
        apply count_pos in Ha. lia.
      * intros x Hx. pose proof (Hall x ltac:(by right)) as Hc.
        rewrite filter_cons in Hc.
        destruct (decide (a = x)); cbn in Hc; lia.
Qed.

Lemma flat_map_nil {A B} (f : A → list B) l :
  flat_map f l = [] ↔ ∀ x, x ∈ l → f x = [].
Proof.
  induction l as [|a l IH]; cbn.
  - split; [by intros _ x ?%elem_of_nil|done].
  - rewrite app_nil, IH. split.
    + intros [Ha Hl] x [->|Hx]%elem_of_cons; auto.
    + intros Hall. split; [apply Hall; by left|].
      intros x Hx. apply Hall. by right.
Qed.

Lemma repeated_nil {A B} `{EqDecision A} (g : A * nat → B) (l : list A) :
  flat_map (λ c, if bool_decide (1 < c.2) then [g c] else [])
           (count_elements [] l) = [] ↔ NoDup l.
Proof.
  rewrite flat_map_nil, NoDup_count. split.
  - intros Hall x Hx.
    pose proof (Hall (x, length (filter (λ y, y = x) l))) as Hc. cbn in Hc.
    case_bool_decide as Hn; [|lia]. discriminate Hc.
    apply elem_of_count_elements. split_and!; [by intros ?%elem_of_nil|done..].
  - intros Hall [x n] (_ & Hx & ->)%elem_of_count_elements. cbn.
    rewrite bool_decide_eq_false_2; [done|]. specialize (Hall x Hx). lia.
Qed.

Lemma and_iff_both (P P' Q Q' : Prop) :
  (P ↔ P') → (Q ↔ Q') → (P ∧ Q ↔ P' ∧ Q').
Proof. tauto. Qed.

Lemma omap_cons {A B} (f : A → option B) a l :
  omap f (a :: l) =
  match f a with Some y => y :: omap f l | None => omap f l end.
Proof. done. Qed.

Lemma NoDup_omap_index {A B} (f : A → option B) (l : list A) :
  NoDup (omap f l) ↔
  ∀ i j x y v, l !! i = Some x → l !! j = Some y →
               f x = Some v → f y = Some v → i = j.
Proof.
  induction l as [|a l IH].
  - split; [by intros _ i j x y v ?|]. intros _. constructor.
  - assert ((∀ i j x y v, (a :: l) !! i = Some x → (a :: l) !! j = Some y →
                          f x = Some v → f y = Some v → i = j) ↔
            (∀ y v, y ∈ l → f a = Some v → f y ≠ Some v) ∧
            (∀ i j x y v, l !! i = Some x → l !! j = Some y →
                          f x = Some v → f y = Some v → i = j)) as ->.
    { split.
      - intros Hall. split.
        + intros y v [j Hj]%list_elem_of_lookup Ha Hy.
          by specialize (Hall 0 (S j) a y v eq_refl Hj Ha Hy).
        + intros i j x y v Hi Hj Hx Hy.
          by specialize (Hall (S i) (S j) x y v Hi Hj Hx Hy) as [= ->].
      - intros [Hhead Htail] [|i] [|j] x y v Hi Hj Hx Hy; cbn in Hi, Hj.
        + done.
        + injection Hi as <-. destruct (Hhead y v); [|done..].
          by eapply list_elem_of_lookup_2.
        + injection Hj as <-. destruct (Hhead x v); [|done..].
          by eapply list_elem_of_lookup_2.
        + f_equal. by eapply Htail. }
    rewrite <- IH.
    rewrite omap_cons.
    destruct (f a) as [v|] eqn:Ha.
    + rewrite NoDup_cons, list_elem_of_omap. split.
      * intros [Hnot Hnd]. split; [|done]. intros y v' Hy [= <-] Hfy.
        apply Hnot. by exists y.
      * intros [Hhead Hnd]. split; [|done]. intros (y & Hy & Hfy).
        by apply (Hhead y v).
    + split; [|by intros [_ ?]]. intros Hnd. split; [|done]. by intros y v _ ?.
Qed.

Lemma date_slot_pairs_values (q : queue) :
  (date_slot_pairs q).*2 =
  omap (λ it, if is_pending it
              then Some (item_date it, item_slot it) else None) q.
Proof.
  unfold date_slot_pairs.
  enough (∀ f : nat → nat,
            (omap (λ ix : nat * item,
                     if is_pending ix.2
                     then Some (ix.1, (item_date ix.2, item_slot ix.2))
                     else None)
                  (imap (λ i it, (f i, it)) q)).*2 =
            omap (λ it, if is_pending it
                        then Some (item_date it, item_slot it) else None) q)
    as Hgen by apply (Hgen id).
  induction q as [|it q IH]; intros f; [done|].
  rewrite imap_cons, !omap_cons. cbn [fst snd].
  destruct (is_pending it).
  - rewrite fmap_cons. f_equal. exact (IH (f ∘ S)).
  - exact (IH (f ∘ S)).
Qed.

(** X21. The duplicate check of [validate_queue.py] finds nothing exactly
    when no two records of the queue carry the same non-empty fingerprint
    and no two records that are approved or drafts have the same date and
    the same slot. *)
Theorem validate_duplicates_clean_iff :
  ∀ q : queue,
    validate_duplicates q = [] ↔
    (∀ i j a b fp,
       q !! i = Some a → q !! j = Some b → fp ≠ [] →
       item_fingerprint a = Some fp → item_fingerprint b = Some fp → i = j) ∧
    (∀ i j a b,
       q !! i = Some a → q !! j = Some b →
       is_pending a = true → is_pending b = true →
       item_date a = item_date b → item_slot a = item_slot b → i = j).
Proof.
  intros q. unfold validate_duplicates.
  rewrite app_nil, !repeated_nil, date_slot_pairs_values.
  unfold fingerprints. rewrite !NoDup_omap_index.
  apply and_iff_both; split.
  - intros Hall i j a b fp Hi Hj Hfp Ha Hb.
    apply (Hall i j a b fp Hi Hj); [rewrite Ha|rewrite Hb]; by destruct fp.
  - intros Hall i j a b fp Hi Hj Ha Hb.
    destruct (item_fingerprint a) as [[|c f]|] eqn:Ea; try done.
    destruct (item_fingerprint b) as [[|c' f']|] eqn:Eb; try done.
    injection Ha as <-. injection Hb as -> ->.
    by apply (Hall i j a b (c :: f) Hi Hj).
  - intros Hall i j a b Hi Hj Ha Hb Hd Hs.
    apply (Hall i j a b (item_date a, item_slot a) Hi Hj).
    + by rewrite Ha.
    + by rewrite Hb, Hd, Hs.
  - intros Hall i j a b v Hi Hj Ha Hb.
    destruct (is_pending a) eqn:Epa; [|done].
    destruct (is_pending b) eqn:Epb; [|done].
    apply (Hall i j a b Hi Hj); [done|done|congruence..].
Qed.

Lemma concat_imap_nil {A B} (f : nat → A → list B) (l : list A) :
  concat (imap f l) = [] ↔ ∀ i x, l !! i = Some x → f i x = [].
Proof.
  revert f. induction l as [|a l IH]; intros f; cbn [imap concat].
  - split; [by intros _ i x ?|done].
  - rewrite app_nil, IH. split.
    + intros [Ha Hl] [|i] x Hi; cbn in Hi; [by injection Hi as <-|].
      by apply Hl.
    + intros Hall. split; [by apply Hall|]. intros i x Hi. by apply (Hall (S i)).
Qed.

Lemma missing_nil {A B} (v : option A) (e : B) :
  match v with None => [e] | Some _ => [] end = [] ↔ is_Some v.
Proof.
  destruct v; split; intros H; first [done|by eexists|by destruct H].
Qed.

Lemma report_nil {B} (b : bool) (e : B) :
  (if b then [e] else []) = [] ↔ b = false.
Proof. by destruct b. Qed.

Lemma fmap_report_nil {B C} (g : B → C) (b : bool) (e : B) :
  g <$> (if b then [e] else []) = [] ↔ b = false.
Proof. by destruct b. Qed.

Lemma invalid_in_false valid value :
  invalid_in valid value = false ↔ value = [] ∨ value ∈ valid.
Proof.
  unfold invalid_in. rewrite andb_false_iff, !bool_decide_eq_false. split.
  - intros [H|H]; [left|right]; by apply dec_stable.
  - intros [->|H]; [left|right]; auto.
Qed.

Lemma present_and_fine (P : str → Prop) (v : option str) :
  is_Some v ∧ P (default [] v) ↔ ∃ s, v = Some s ∧ P s.
Proof.
  split.
  - intros [[s ->] HP]. by exists s.
  - intros (s & -> & HP). by split.
Qed.

(** What it takes for one record to pass the three checks of the loop. *)
Lemma record_passes it i :
  validate_schema is_digit it i ++
  (BadLength i <$> ValidateQueue.validate_text_length it) ++
  validate_forbidden lower it i = [] ↔
  (∃ date, item_date it = Some date ∧
           (date = [] ∨ validate_date_format is_digit date = true)) ∧
  (∃ slot, item_slot it = Some slot ∧ (slot = [] ∨ slot ∈ VALID_SLOTS)) ∧
  (∃ pillar, item_pillar it = Some pillar ∧
             (pillar = [] ∨ pillar ∈ VALID_PILLARS)) ∧
  (∃ format_type, item_format it = Some format_type ∧
                  (format_type = [] ∨ format_type ∈ VALID_FORMATS)) ∧
  (∃ status, item_status it = Some status ∧
             (status = [] ∨ status ∈ VALID_STATUSES)) ∧
  is_Some (item_hook it) ∧ is_Some (item_fingerprint it) ∧
  (∃ text, item_text it = Some text ∧
           10 ≤ length text ≤ MAX_TEXT_LENGTH ∧
           check_forbidden_words lower text = []).
Proof.
  unfold validate_schema, validate_forbidden, ValidateQueue.validate_text_length.
  cbn [flat_map REQUIRED_FIELDS fst snd].
  rewrite fmap_app, !app_nil, !missing_nil, !report_nil, !invalid_in_false.
  rewrite !fmap_report_nil, !bool_decide_eq_false.
  rewrite andb_false_iff, negb_false_iff, bool_decide_eq_false.
  rewrite <- !present_and_fine.
  assert (match check_forbidden_words lower (default [] (item_text it)) with
          | [] => []
          | _ :: _ =>
              [ForbiddenWords i
                 (check_forbidden_words lower (default [] (item_text it)))]
          end = [] ↔
          check_forbidden_words lower (default [] (item_text it)) = []) as ->.
  { by destruct (check_forbidden_words lower _). }
  assert (¬ default [] (item_date it) ≠ [] ↔ default [] (item_date it) = [])
    as -> by (split; [apply dec_stable|auto]).
  split.
  - intros (((? & ? & ? & ? & ? & ? & ? & ? & _) & ? & ? & ? & ? & ?)
            & (? & ?) & ?).
    split_and!; try done; lia.
  - intros ((? & ?) & (? & ?) & (? & ?) & (? & ?) & (? & ?) & ? & ? & ? & ? & ?).
    split_and!; try done; lia.
Qed.

Lemma main_passes doc :
  ending_of (run (main is_digit lower doc)) = Exit 0 ↔
  validate_items is_digit lower (load_queue doc) = [] ∧
  validate_duplicates (load_queue doc) = [].
Proof.
  unfold main. destruct (load_queue doc) as [|it q] eqn:Eq; [done|].
  rewrite <- app_nil.
  destruct (validate_items is_digit lower (it :: q) ++ validate_duplicates (it :: q));
    by cbn.
Qed.

(** X22. [validate_queue.py] ends with exit status 0 exactly when every
    record has the eight required fields, each of date, slot, pillar, format
    and status is empty or of the expected form, the text has between 10 and
    260 characters and no forbidden word, and the duplicate check finds
    nothing; it ends with status 1 otherwise.  The warnings about hooks have
    no part in it. *)
Theorem validation_passes_iff :
  ∀ doc : option queue,
    let out := run (main is_digit lower doc) in
    (ending_of out = Exit 0 ∨ ending_of out = Exit 1) ∧
    (ending_of out = Exit 0 ↔
     (∀ it, it ∈ load_queue doc →
        (∃ date, item_date it = Some date ∧
                 (date = [] ∨ validate_date_format is_digit date = true)) ∧
        (∃ slot, item_slot it = Some slot ∧ (slot = [] ∨ slot ∈ VALID_SLOTS)) ∧
        (∃ pillar, item_pillar it = Some pillar ∧
                   (pillar = [] ∨ pillar ∈ VALID_PILLARS)) ∧
        (∃ format_type, item_format it = Some format_type ∧
                        (format_type = [] ∨ format_type ∈ VALID_FORMATS)) ∧
        (∃ status, item_status it = Some status ∧
                   (status = [] ∨ status ∈ VALID_STATUSES)) ∧
        is_Some (item_hook it) ∧ is_Some (item_fingerprint it) ∧
        (∃ text, item_text it = Some text ∧
                 10 ≤ length text ≤ MAX_TEXT_LENGTH ∧
                 check_forbidden_words lower text = [])) ∧
     validate_duplicates (load_queue doc) = []).
Proof.
  intros doc out. subst out. split.
  - unfold main. destruct (load_queue doc); [by left|].
    destruct (_ ++ _); [by left|by right].
  - rewrite main_passes. apply and_iff_compat_r.
    unfold validate_items. rewrite concat_imap_nil. split.
    + intros Hall it [i Hi]%list_elem_of_lookup.
      by apply (record_passes it i), Hall.
    + intros Hall i it Hi. apply record_passes, Hall.
      by eapply list_elem_of_lookup_2.
Qed.


Lemma counter_count_elements seen hooks :
  ValidateQueue.counter seen hooks = count_elements seen hooks.
Proof.
  revert seen. induction hooks as [|h rest IH]; intros seen; [done|].
  cbn. by rewrite !IH.
Qed.

Lemma count_map {A B} `{EqDecision B} (g : A → B) (l : list A) (y : B) :
  length (filter (λ z, z = y) (map g l)) = length (filter (λ x, g x = y) l).
Proof.
  induction l as [|a l IH]; [done|]. cbn [map]. rewrite !filter_cons.
  destruct (decide (g a = y)); cbn; by rewrite IH.
Qed.

Lemma NoDup_count_elements {A} `{EqDecision A} (seen l : list A) :
  NoDup (count_elements seen l).*1.
Proof.
  revert seen. induction l as [|h rest IH]; intros seen; cbn [count_elements].
  - constructor.
  - destruct (decide (h ∈ seen)); [apply IH|]. cbn. apply NoDup_cons.
    split; [|apply IH]. intros ([x c] & -> & Hin)%list_elem_of_fmap.
    apply elem_of_count_elements in Hin as (Hx & _). apply Hx. by left.
Qed.

(** X24. A hook gets a warning exactly when it is not empty and more than
    three records of the queue have it as their normalised hook; the number
    in the warning is the number of these records, and no hook is warned
    about twice. *)
Theorem hook_warning_iff :
  ∀ (q : queue) (hook : str) (count : nat),
    ((hook, count) ∈ ValidateQueue.validate_hook_duplicates q ↔
     hook ≠ [] ∧ 3 < count ∧
     count = length (filter (λ it, normalize_text (extract_hook it) = hook) q)) ∧
    NoDup (ValidateQueue.validate_hook_duplicates q).*1.
Proof.
  intros q hook count. unfold ValidateQueue.validate_hook_duplicates.
  rewrite counter_count_elements. split.
  - rewrite list_elem_of_filter, elem_of_count_elements, count_map. cbn. split.
    + intros ((? & ?) & _ & _ & ?). done.
    + intros (Hne & Hn & ->). split_and!; [done..|by intros ?%elem_of_nil| |done].
      apply count_pos. rewrite count_map. lia.
  - eapply sublist_NoDup; [apply (NoDup_count_elements [])|].
    apply fmap_sublist, sublist_filter.
Qed.

End QueueValidation.


(** ** Generation of the queue *)

Section GeneratedQueue.

Import GenerateQueue GenerateQueueScript.

Lemma random_choice_elem {A} (l : list A) g x g' :
  random_choice l g = Some (x, g') → x ∈ l.
Proof.
  destruct l as [|a l]; [done|]. unfold random_choice.
  intros (i & g1 & _ & H)%bind_inv.
  destruct ((a :: l) !! i) as [y|] eqn:E; [|done].
  apply ret_inv in H. injection H as <- _. by eapply list_elem_of_lookup_2.
Qed.

Lemma generate_single_post_fields date slot tpls lex used g rec used' g' :
  generate_single_post date slot tpls lex used g = Some ((Some rec, used'), g') →
  item_date rec = Some date ∧ item_slot rec = Some slot ∧
  item_status rec = Some (py "draft") ∧
  item_tweet_id rec = None ∧ item_posted_at_utc rec = None ∧
  (∃ pillar_key, item_pillar rec = Some pillar_key ∧
                 pillar_key ∈ map fst (l_pillars lex)) ∧
  (∃ t, t ∈ default [] (dict_get tpls slot) ∧
        item_format rec = Some (default [] (t_format t))) ∧
  (∃ text fingerprint,
     item_text rec = Some text ∧ item_fingerprint rec = Some fingerprint ∧
     calculate_fingerprint text = Some fingerprint) ∧
  (∃ hook, item_hook rec = Some hook ∧ used' = {[normalize_text hook]} ∪ used).
Proof.
  intros (t & pillar_key & pillar_data & ga & g0 & g1 & hook & body & hashtags
          & fingerprint & Ht & Hk & _ & Hloop & _ & Hfp & ->)%generate_single_post_spec.
  apply retry_loop_five in Hloop as (outs & _ & _ & _ & _ & Hused).
  split_and!; try done.
  - exists pillar_key. split; [done|]. by eapply random_choice_elem.
  - exists t. split; [|done]. by eapply random_choice_elem.
  - by exists (with_hashtags body hashtags), fingerprint.
  - by exists hook.
Qed.

(** X25. A record [generate_single_post] returns is a draft for the date
    and slot asked for, without tweet identifier or posting time; its pillar
    is a key of the lexicon and its format that of a template of the slot;
    the fingerprint stored is the fingerprint of the text stored; and the
    normalised hook has joined the set of used hooks.  No dispatch can
    pick the record as it is. *)
Theorem generated_record_fields :
  ∀ date slot tpls lex used g rec used' g',
    generate_single_post date slot tpls lex used g = Some ((Some rec, used'), g') →
    item_date rec = Some date ∧ item_slot rec = Some slot ∧
    item_status rec = Some (py "draft") ∧
    item_tweet_id rec = None ∧ item_posted_at_utc rec = None ∧
    (∃ pillar_key, item_pillar rec = Some pillar_key ∧
                   pillar_key ∈ map fst (l_pillars lex)) ∧
    (∃ t, t ∈ default [] (dict_get tpls slot) ∧
          item_format rec = Some (default [] (t_format t))) ∧
    (∃ text fingerprint,
       item_text rec = Some text ∧ item_fingerprint rec = Some fingerprint ∧
       calculate_fingerprint text = Some fingerprint) ∧
    (∃ hook, item_hook rec = Some hook ∧
             used' = {[normalize_text hook]} ∪ used) ∧
    (∀ today s, ¬ PostSlot.is_target today s rec).
Proof.
  intros date slot tpls lex used g rec used' g' Hgen.
  pose proof (generate_single_post_fields _ _ _ _ _ _ _ _ _ Hgen)
    as (? & ? & Hst & ? & ? & ? & ? & ? & ?).
  split_and!; try done. intros today s (_ & _ & Hap). rewrite Hst in Hap.
  discriminate Hap.
Qed.

Lemma generate_single_post_none date slot tpls lex used g used' g' :
  generate_single_post date slot tpls lex used g = Some ((None, used'), g') →
  (default [] (dict_get tpls slot) = [] ∨ l_pillars lex = []) ∧
  used' = used ∧ g' = g.
Proof.
  unfold generate_single_post.
  destruct (default [] (dict_get tpls slot)) as [|t0 ts] eqn:Ets.
  { intros [= -> ->]%ret_inv. auto. }
  destruct (l_pillars lex) as [|p0 ps] eqn:Eps.
  { intros [= -> ->]%ret_inv. auto. }
  intros (t & ga & _ & Hb)%bind_inv.
  apply bind_inv in Hb as (pillar_key & g0 & _ & Hb).
  destruct (dict_get (p0 :: ps) pillar_key) as [pillar_data|]; [|done].
  apply bind_inv in Hb as ([last u] & g1 & _ & Hb). cbn beta iota in Hb.
  destruct last as [[hook body]|]; [|done].
  apply bind_inv in Hb as (hashtags & g2 & _ & Hb).
  destruct (calculate_fingerprint (with_hashtags body hashtags)); [|done].
  by apply ret_inv in Hb.
Qed.

(** X26. [generate_single_post] returns no record exactly when the slot has
    no template or the lexicon no pillar; it then leaves the set of used
    hooks and the random source as they were. *)
Theorem generate_single_post_none_iff :
  ∀ date slot tpls lex used g used' g',
    generate_single_post date slot tpls lex used g = Some ((None, used'), g') ↔
    (default [] (dict_get tpls slot) = [] ∨ l_pillars lex = []) ∧
    used' = used ∧ g' = g.
Proof.
  intros date slot tpls lex used g used' g'. split.
  - apply generate_single_post_none.
  - intros (Hnone & -> & ->). unfold generate_single_post.
    destruct (default [] (dict_get tpls slot)) as [|t0 ts]; [done|].
    destruct (l_pillars lex) as [|p0 ps]; [done|].
    by destruct Hnone.
Qed.




Lemma seed_hooks_from (q : queue) (used : gset str) (h : str) :
  h ∈ fold_left (λ used_hooks it,
                   match item_hook it with
                   | Some (c :: hook) => {[normalize_text (c :: hook)]} ∪ used_hooks
                   | _ => used_hooks
                   end) q used ↔
  h ∈ used ∨
  ∃ it hook, it ∈ q ∧ item_hook it = Some hook ∧ hook ≠ [] ∧
             h = normalize_text hook.
Proof.
  revert used. induction q as [|x q IH]; intros used; cbn [fold_left].
  - split; [by left|]. intros [?|(? & ? & ?%elem_of_nil & _)]; done.
  - rewrite IH. split.
    + intros [Hh|(it & hook & Hit & Hhook & Hne & ->)].
      * destruct (item_hook x) as [[|c hook]|] eqn:Ex; try by left.
        apply elem_of_union in Hh as [->%elem_of_singleton|?]; [|by left].
        right. exists x, (c :: hook). split_and!; [by left|done..].
      * right. exists it, hook. split_and!; [by right|done..].
    + intros [Hh|(it & hook & [->|Hit]%elem_of_cons & Hhook & Hne & ->)].
      * left. destruct (item_hook x) as [[|c hook]|]; try done.
        apply elem_of_union. by right.
      * left. rewrite Hhook. destruct hook as [|c hook]; [done|].
        apply elem_of_union. left. by apply elem_of_singleton.
      * right. by exists it, hook.
Qed.

(** X28. The hooks a run with [--append] starts from are the normalised
    hook fields of the existing records, where the field is there and not
    empty; a record without it contributes nothing, whatever its text. *)
Theorem seed_hooks_spec :
  ∀ (q : queue) (h : str),
    h ∈ seed_hooks q ↔
    ∃ it hook, it ∈ q ∧ item_hook it = Some hook ∧ hook ≠ [] ∧
               h = normalize_text hook.
Proof.
  intros q h. unfold seed_hooks. rewrite seed_hooks_from. split.
  - by intros [?%elem_of_empty|?].
  - by right.
Qed.

End GeneratedQueue.


Lemma generated_record_fields_witness :
  match GenerateQueue.generate_single_post (py "2025-01-01") (py "17")
          [(py "17", [Examples.checklist_template])] Examples.small_lexicon
          ∅ Examples.counting with
  | Some (Some rec, used', _) =>
      item_date rec = Some (py "2025-01-01") ∧
      item_status rec = Some (py "draft") ∧
      ∃ text fingerprint,
        item_text rec = Some text ∧ item_fingerprint rec = Some fingerprint ∧
        calculate_fingerprint text = Some fingerprint
  | _ => False
  end.
Proof.
  apply (for_generated_record _ (λ rec _, _ ∧ _ ∧ ∃ text fingerprint, _)).
  - intros rec used' g' E.
    destruct (generated_record_fields _ _ _ _ _ _ _ _ _ E)
      as (Hd & _ & Hs & _ & _ & _ & _ & Hfp & _).
    split; [exact Hd|]. split; [exact Hs|exact Hfp].
  - vm_compute. eexists. reflexivity.
Defined.


(** ** Generation: when the composer returns *)

Section ComposerReturns.

Import GenerateQueue.

Lemma bind_eq {A B} (m : M A) (f : A → M B) g a g1 :
  m g = Some (a, g1) → (m ≫= f) g = f a g1.
Proof. unfold mbind, M_bind. by intros ->. Qed.

Lemma random_choice_returns {A} (l : list A) g :
  l ≠ [] → ∃ x g', random_choice l g = Some (x, g') ∧ x ∈ l.
Proof.
  destruct l as [|a l]; [done|]. intros _. unfold random_choice.
  assert (g 0 mod length (a :: l) < length (a :: l)) as Hlt.
  { apply Nat.mod_upper_bound. cbn. lia. }
  apply lookup_lt_is_Some in Hlt as [x Hx].
  exists x, (λ i, g (S i)). split; [|by eapply list_elem_of_lookup_2].
  erewrite bind_eq by reflexivity. by rewrite Hx.
Qed.

Lemma sample_from_returns {A} k (pool : list A) g :
  k ≤ length pool →
  ∃ s g', sample_from k pool g = Some (s, g') ∧ length s = k.
Proof.
  revert pool g. induction k as [|k IH]; intros pool g Hk; cbn [sample_from].
  - by exists [], g.
  - assert (g 0 mod length pool < length pool) as Hlt.
    { apply Nat.mod_upper_bound. lia. }
    pose proof Hlt as [x Hx]%lookup_lt_is_Some.
    destruct (IH (delete (g 0 mod length pool) pool) (λ i, g (S i)))
      as (s & g' & Hs & Hlen).
    { rewrite length_delete by by eexists. lia. }
    exists (x :: s), g'. split; [|cbn; by rewrite Hlen].
    erewrite bind_eq by reflexivity. rewrite Hx.
    by erewrite bind_eq by exact Hs.
Qed.

Lemma random_sample_returns {A} (population : list A) (k : Z) g :
  (0 ≤ k ≤ Z.of_nat (length population))%Z →
  ∃ s g', random_sample population k g = Some (s, g') ∧ length s = Z.to_nat k.
Proof.
  intros Hk. unfold random_sample. rewrite bool_decide_eq_true_2 by done.
  apply sample_from_returns. lia.
Qed.

Lemma numbered_returns glyphs selected :
  length selected ≤ length glyphs → is_Some (numbered glyphs selected).
Proof.
  revert glyphs. induction selected as [|x rest IH]; intros glyphs Hlen.
  - destruct glyphs; by eexists.
  - destruct glyphs as [|c glyphs]; cbn in Hlen; [lia|]. cbn.
    destruct (IH glyphs) as [tl ->]; [lia|]. by eexists.
Qed.

Lemma generate_hook_returns t pillar_data counts g :
  t_hook_patterns t = [] ∨ (counts ≠ Some [] ∧ p_actions pillar_data ≠ Some []) →
  ∃ hook g', generate_hook t pillar_data counts g = Some (hook, g').
Proof.
  intros Hfine. unfold generate_hook.
  destruct (t_hook_patterns t) as [|h hs] eqn:Eh; [by eexists _, _|].
  destruct Hfine as [?|[Hc Ha]]; [done|].
  destruct (random_choice_returns (h :: hs) g) as (pattern & g1 & E1 & _); [done|].
  destruct (random_choice_returns (default [py "5"] counts) g1)
    as (count & g2 & E2 & _).
  { destruct counts as [[|? ?]|]; done. }
  destruct (random_choice_returns (default [py "対応"] (p_actions pillar_data)) g2)
    as (action & g3 & E3 & _).
  { destruct (p_actions pillar_data) as [[|? ?]|]; done. }
  erewrite bind_eq by exact E1. erewrite bind_eq by exact E2.
  erewrite bind_eq by exact E3. by eexists _, _.
Qed.

Lemma generate_closing_returns t g :
  ∃ closing g', generate_closing t g = Some (closing, g').
Proof.
  unfold generate_closing. destruct (t_closing_patterns t) as [|p ps];
    [by eexists _, _|].
  destruct (random_choice_returns (p :: ps) g) as (x & g' & E & _); [done|].
  by exists x, g'.
Qed.

Lemma generate_lesson_returns t g :
  ∃ lesson g', generate_lesson t g = Some (lesson, g').
Proof.
  unfold generate_lesson. destruct (t_lesson_patterns t) as [|p ps];
    [by eexists _, _|].
  destruct (random_choice_returns (p :: ps) g) as (x & g' & E & _); [done|].
  by exists x, g'.
Qed.

Lemma generate_story_body_returns pillar_data g :
  ∃ body g', generate_story_body pillar_data g = Some (body, g').
Proof.
  unfold generate_story_body.
  assert (∀ (l : list str) g,
            ∃ part g', match l with
                       | [] => mret []
                       | _ => x ← random_choice l; mret [x]
                       end g = Some (part, g')) as Hpart.
  { intros [|x l] g0; [by eexists _, _|].
    destruct (random_choice_returns (x :: l) g0) as (y & g' & E & _); [done|].
    erewrite bind_eq by exact E. by eexists _, _. }
  destruct (Hpart (p_story_elements pillar_data) g) as (part1 & g1 & E1).
  destruct (Hpart (p_examples pillar_data) g1) as (part2 & g2 & E2).
  erewrite bind_eq by exact E1. erewrite bind_eq by exact E2.
  destruct (part1 ++ part2); by eexists _, _.
Qed.

Lemma generate_criteria_body_returns pillar_data g :
  ∃ body g', generate_criteria_body pillar_data g = Some (body, g').
Proof.
  unfold generate_criteria_body.
  destruct (random_sample_returns
              (p_cautions pillar_data ++ p_check_items pillar_data)
              (Z.of_nat (3 `min` (length (p_cautions pillar_data) +
                                  length (p_check_items pillar_data)))) g)
    as (items & g' & E & _).
  { rewrite length_app. lia. }
  erewrite bind_eq by exact E. by eexists _, _.
Qed.

Lemma generate_options_returns pillar_data g :
  ∃ options g', generate_options pillar_data g = Some (options, g').
Proof.
  unfold generate_options.
  destruct (p_options pillar_data); [by eexists _, _|].
  case_bool_decide as Hlen; [|by eexists _, _].
  destruct (random_sample_returns (default [] (p_actions pillar_data)) 2 g)
    as (selected & g' & E & Hsel); [lia|].
  erewrite bind_eq by exact E.
  destruct selected as [|a [|b rest]]; cbn in Hsel; [lia..|]. by eexists _, _.
Qed.

Lemma generate_items_returns t pillar_data ty g :
  let spec := match ty with Items => t_items_count t | Steps => t_steps_count t end in
  let fmt := match ty with Items => t_items_format t | Steps => t_steps_format t end in
  possible_counts spec ≠ [] →
  (∀ c, c ∈ possible_counts spec →
        (0 ≤ c)%Z ∧ (fmt = Some (py "numbered") → (c ≤ 6)%Z)) →
  ∃ text g', generate_items t pillar_data ty g = Some (text, g').
Proof.
  intros spec fmt Hne Hfine. unfold generate_items. fold spec fmt.
  assert (∃ c g1, match default (CountList [4%Z]) spec with
                  | CountList l => random_choice l
                  | CountInt n => mret n
                  end g = Some (c, g1) ∧ c ∈ possible_counts spec)
    as (c & g1 & Ec & Hc).
  { unfold possible_counts in *.
    destruct (default (CountList [4%Z]) spec) as [l|n].
    - by apply random_choice_returns.
    - exists n, g. split; [done|]. by left. }
  erewrite bind_eq by exact Ec.
  destruct (Hfine c Hc) as [Hpos Hsix].
  set (all_items := match ty with
                    | Items => p_check_items pillar_data ++ p_cautions pillar_data
                    | Steps => default [] (p_actions pillar_data) ++
                               p_check_items pillar_data
                    end).
  set (count := if bool_decide (Z.of_nat (length all_items) < c)%Z
                then Z.of_nat (length all_items) else c).
  assert ((0 ≤ count ≤ Z.of_nat (length all_items))%Z ∧ (count ≤ c)%Z)
    as [Hcount Hle].
  { subst count. case_bool_decide; lia. }
  assert (∃ selected g2, match all_items with
                         | [] => mret []
                         | _ => random_sample all_items count
                         end g1 = Some (selected, g2) ∧
                         (Z.of_nat (length selected) ≤ count)%Z)
    as (selected & g2 & Es & Hlen).
  { destruct all_items as [|x xs] eqn:Ea.
    - exists [], g1. split; [done|]. cbn. lia.
    - rewrite <- Ea in *.
      destruct (random_sample_returns all_items count g1) as (s & g2 & E & Hs);
        [done|].
      exists s, g2. split; [done|]. lia. }
  erewrite bind_eq by exact Es.
  destruct (decide (default (py "bullet") fmt = py "checkbox")); [by eexists _, _|].
  destruct (decide (default (py "bullet") fmt = py "numbered")) as [Hnum|];
    [|by eexists _, _].
  destruct (numbered_returns (py "①②③④⑤⑥") selected) as [lines ->].
  { assert (fmt = Some (py "numbered")) as Hfmt.
    { destruct fmt as [f|]; [by rewrite <- Hnum|]. cbn in Hnum.
      apply (f_equal length) in Hnum. vm_compute in Hnum. discriminate. }
    specialize (Hsix Hfmt).
    change (length (py "①②③④⑤⑥")) with 6. lia. }
  by eexists _, _.
Qed.

(** X29. The composer returns for every state of the random source when
    the documents are sound: a template with hook patterns needs a list of
    counts and a list of actions that are not empty where they are given,
    and the item and step counts must be there to choose from, not
    negative, and at most 6 where the format is numbered.  The text then
    returned is in normal form. *)
Theorem generate_post_text_returns :
  ∀ (t : template) (pillar_data : pillar) (counts : option (list str)) (g : rng),
    t_hook_patterns t = [] ∨
      (counts ≠ Some [] ∧ p_actions pillar_data ≠ Some []) →
    possible_counts (t_items_count t) ≠ [] →
    possible_counts (t_steps_count t) ≠ [] →
    (∀ c, c ∈ possible_counts (t_items_count t) →
          (0 ≤ c)%Z ∧ (t_items_format t = Some (py "numbered") → (c ≤ 6)%Z)) →
    (∀ c, c ∈ possible_counts (t_steps_count t) →
          (0 ≤ c)%Z ∧ (t_steps_format t = Some (py "numbered") → (c ≤ 6)%Z)) →
    ∃ hook text g',
      generate_post_text t pillar_data counts g = Some ((hook, text), g') ∧
      normalize_text text = text.
Proof.
  intros t pillar_data counts g Hhook Hi Hs Hitems Hsteps.
  assert (∃ r g', generate_post_text t pillar_data counts g = Some (r, g'))
    as ([hook text] & g' & E).
  { unfold generate_post_text.
    destruct (generate_hook_returns t pillar_data counts g Hhook)
      as (hook & g1 & E1).
    destruct (generate_closing_returns t g1) as (closing & g2 & E2).
    destruct (generate_items_returns t pillar_data Items g2 Hi Hitems)
      as (items & g3 & E3).
    destruct (generate_items_returns t pillar_data Steps g3 Hs Hsteps)
      as (steps & g4 & E4).
    destruct (generate_story_body_returns pillar_data g4) as (b1 & g5 & E5).
    destruct (generate_criteria_body_returns pillar_data g5) as (c1 & g6 & E6).
    destruct (generate_story_body_returns pillar_data g6) as (b2 & g7 & E7).
    destruct (generate_lesson_returns t g7) as (lesson & g8 & E8).
    destruct (generate_criteria_body_returns pillar_data g8) as (c2 & g9 & E9).
    destruct (generate_options_returns pillar_data g9) as (o & g10 & E10).
    destruct (generate_closing_returns t g10) as (context & g11 & E11).
    destruct (generate_story_body_returns pillar_data g11) as (b3 & g12 & E12).
    destruct (generate_story_body_returns pillar_data g12) as (b4 & g13 & E13).
    erewrite bind_eq by exact E1. erewrite bind_eq by exact E2.
    erewrite bind_eq by exact E3. erewrite bind_eq by exact E4.
    erewrite bind_eq by exact E5. erewrite bind_eq by exact E6.
    erewrite bind_eq by exact E7. erewrite bind_eq by exact E8.
    erewrite bind_eq by exact E9. erewrite bind_eq by exact E10.
    erewrite bind_eq by exact E11. erewrite bind_eq by exact E12.
    erewrite bind_eq by exact E13. by eexists _, _. }
  exists hook, text, g'. split; [done|].
  by eapply generate_post_text_normalized.
Qed.

(** X30. [generate_hook] ends with an exception exactly when the template
    has hook patterns and the list of counts or the pillar's list of actions
    is given and empty, whether or not the pattern chosen mentions a count
    or an action. *)
Theorem generate_hook_raises_iff :
  ∀ (t : template) (pillar_data : pillar) (counts : option (list str)) (g : rng),
    generate_hook t pillar_data counts g = None ↔
    t_hook_patterns t ≠ [] ∧
    (counts = Some [] ∨ p_actions pillar_data = Some []).
Proof.
  intros t pillar_data counts g. split.
  - intros Hnone. split.
    + intros Eh.
      destruct (generate_hook_returns t pillar_data counts g) as (? & ? & E);
        [by left|congruence].
    + destruct (decide (counts = Some [])) as [?|Hc]; [by left|].
      destruct (decide (p_actions pillar_data = Some [])) as [?|Ha]; [by right|].
      destruct (generate_hook_returns t pillar_data counts g) as (? & ? & E);
        [by right|congruence].
  - intros [Hne Hempty]. unfold generate_hook.
    destruct (t_hook_patterns t) as [|h hs]; [done|].
    destruct (random_choice_returns (h :: hs) g) as (pattern & g1 & E1 & _);
      [done|].
    erewrite bind_eq by exact E1.
    destruct Hempty as [->| ->]; [done|].
    unfold mbind at 1, M_bind at 1.
    by destruct (random_choice (default [py "5"] counts) g1) as [[count g2]|].
Qed.

End ComposerReturns.

Lemma generate_post_text_returns_witness :
  ∃ hook text g',
    GenerateQueue.generate_post_text Examples.checklist_template
      Examples.tax_pillar (Some [py "3"; py "5"]) Examples.counting =
      Some ((hook, text), g') ∧
    normalize_text text = text.
Proof.
  apply generate_post_text_returns.
  - right. split; discriminate.
  - discriminate.
  - discriminate.
  - intros c Hc. change (c ∈ [2%Z]) in Hc.
    apply list_elem_of_singleton in Hc as ->. split; [lia|]. intros _. lia.
  - intros c Hc. change (c ∈ [4%Z]) in Hc.
    apply list_elem_of_singleton in Hc as ->. split; [lia|]. intros _. lia.
Defined.

(** ** Generation: the text of a record and its length *)

Section GeneratedLength.

Import GenerateQueue.

Lemma replace_from_absent old new hay k :
  head old = Some k → k ∉ hay → replace_from old new 0 hay = hay.
Proof.
  destruct old as [|k' old']; [done|]. intros [= ->].
  induction hay as [|c r IH]; [done|]. intros [Hne Hr]%not_elem_of_cons.
  cbn. rewrite bool_decide_eq_false_2 by done. cbn. by rewrite IH.
Qed.

Lemma replace_all_absent replacements hay k :
  Forall (λ kv : str * str, head kv.1 = Some k) replacements → k ∉ hay →
  replace_all replacements hay = hay.
Proof.
  unfold replace_all. induction 1 as [|kv rest Hkv _ IH]; intros Hk; [done|].
  cbn [fold_left]. unfold replace at 2.
  rewrite (replace_from_absent _ _ _ k) by done. by apply IH.
Qed.

Lemma replace_from_skip old new r : replace_from old new (length r) r = [].
Proof. induction r as [|c r IH]; [done|]. done. Qed.

Lemma starts_with_refl old : starts_with old old = true.
Proof.
  induction old as [|c r IH]; [done|]. cbn.
  by rewrite bool_decide_eq_true_2, IH.
Qed.

Lemma replace_self old new : old ≠ [] → replace old new old = new.
Proof.
  destruct old as [|c r]; [done|]. intros _. unfold replace.
  cbn [replace_from]. rewrite starts_with_refl. cbn [length].
  rewrite Nat.sub_succ, Nat.sub_0_r, replace_from_skip. by rewrite app_nil_r.
Qed.

Lemma normalize_text_plain t :
  Forall (λ c, is_space c = false) t → normalize_text t = t.
Proof.
  intros Hplain. rewrite normalize_text_passes.
  assert (∀ b, squeeze_blanks b t = t) as ->.
  { induction Hplain as [|c r Hc _ IH]; intros b; [done|]. cbn.
    destruct (is_blank c) eqn:Hb; [|by rewrite IH].
    apply blank_is_space in Hb. congruence. }
  assert (∀ k, cap_newlines k t = t) as ->.
  { induction Hplain as [|c r Hc _ IH]; intros k; [done|]. cbn.
    destruct (is_newline c) eqn:Hn; [|by rewrite IH].
    apply newline_is_space in Hn. congruence. }
  assert (∀ s, Forall (λ c, is_space c = false) s → lstrip s = s) as Hl.
  { intros s [|c r Hc _]; [done|]. cbn. by rewrite Hc. }
  unfold strip, rstrip. rewrite (Hl t) by done.
  rewrite Hl by by apply Forall_reverse. apply reverse_involutive.
Qed.

Lemma plain_pattern n :
  Forall (λ c, is_space c = false) (replicate n 12354%N) ∧
  (123%N ∉ replicate n 12354%N) ∧
  Forall scalar_value (replicate n 12354%N).
Proof.
  split_and!.
  - by apply Forall_replicate.
  - by intros ?%elem_of_replicate_inv.
  - apply Forall_replicate. unfold scalar_value. lia.
Qed.

Lemma generate_hook_of_length n pillar_data counts g hook g' :
  generate_hook (Examples.template_of_length n) pillar_data counts g =
    Some (hook, g') →
  hook = replicate n 12354%N.
Proof.
  unfold generate_hook. cbn [t_hook_patterns Examples.template_of_length].
  intros (pattern & g1 & Hp & H)%bind_inv.
  apply bind_inv in H as (count & g2 & _ & H).
  apply bind_inv in H as (action & g3 & _ & H).
  apply ret_inv in H. apply (f_equal fst) in H. cbn [fst] in H. subst hook.
  apply random_choice_elem, list_elem_of_singleton in Hp as ->.
  apply (replace_all_absent _ _ 123%N); [|apply plain_pattern].
  repeat (apply Forall_cons; split; [vm_compute; reflexivity|]).
  apply Forall_nil_2.
Qed.

Lemma generate_post_text_of_length n pillar_data counts g hook text g' :
  generate_post_text (Examples.template_of_length n) pillar_data counts g =
    Some ((hook, text), g') →
  hook = replicate n 12354%N ∧ text = replicate n 12354%N.
Proof.
  unfold generate_post_text. intros (hook0 & g1 & Hhook & H)%bind_inv.
  apply generate_hook_of_length in Hhook as ->.
  repeat (apply bind_inv in H as (? & ? & _ & H)).
  apply ret_inv in H. apply (f_equal fst) in H. cbn [fst] in H.
  pose proof (f_equal fst H) as Hh. pose proof (f_equal snd H) as Ht.
  cbn [fst snd] in Hh, Ht. subst hook text. clear H. split; [done|].
  cbn [t_structure Examples.template_of_length default].
  unfold replace_all at 1. cbn [fold_left fst snd].
  rewrite replace_self by (intros E; apply (f_equal length) in E; done).
  unfold replace.
  rewrite !(replace_from_absent _ _ (replicate n 12354%N) 123%N)
    by first [apply plain_pattern|vm_compute; reflexivity].
  apply normalize_text_plain, plain_pattern.
Qed.

Lemma generate_post_text_is_Some t pillar_data counts g :
  t_hook_patterns t = [] ∨
    (counts ≠ Some [] ∧ p_actions pillar_data ≠ Some []) →
  possible_counts (t_items_count t) ≠ [] →
  possible_counts (t_steps_count t) ≠ [] →
  (∀ c, c ∈ possible_counts (t_items_count t) →
        (0 ≤ c)%Z ∧ (t_items_format t = Some (py "numbered") → (c ≤ 6)%Z)) →
  (∀ c, c ∈ possible_counts (t_steps_count t) →
        (0 ≤ c)%Z ∧ (t_steps_format t = Some (py "numbered") → (c ≤ 6)%Z)) →
  ∃ r g', generate_post_text t pillar_data counts g = Some (r, g').
Proof.
  intros Hhook Hi Hs Hitems Hsteps. unfold generate_post_text.
  destruct (generate_hook_returns t pillar_data counts g Hhook)
    as (hook & g1 & E1).
  destruct (generate_closing_returns t g1) as (closing & g2 & E2).
  destruct (generate_items_returns t pillar_data Items g2 Hi Hitems)
    as (items & g3 & E3).
  destruct (generate_items_returns t pillar_data Steps g3 Hs Hsteps)
    as (steps & g4 & E4).
  destruct (generate_story_body_returns pillar_data g4) as (b1 & g5 & E5).
  destruct (generate_criteria_body_returns pillar_data g5) as (c1 & g6 & E6).
  destruct (generate_story_body_returns pillar_data g6) as (b2 & g7 & E7).
  destruct (generate_lesson_returns t g7) as (lesson & g8 & E8).
  destruct (generate_criteria_body_returns pillar_data g8) as (c2 & g9 & E9).
  destruct (generate_options_returns pillar_data g9) as (o & g10 & E10).
  destruct (generate_closing_returns t g10) as (context & g11 & E11).
  destruct (generate_story_body_returns pillar_data g11) as (b3 & g12 & E12).
  destruct (generate_story_body_returns pillar_data g12) as (b4 & g13 & E13).
  erewrite bind_eq by exact E1. erewrite bind_eq by exact E2.
  erewrite bind_eq by exact E3. erewrite bind_eq by exact E4.
  erewrite bind_eq by exact E5. erewrite bind_eq by exact E6.
  erewrite bind_eq by exact E7. erewrite bind_eq by exact E8.
  erewrite bind_eq by exact E9. erewrite bind_eq by exact E10.
  erewrite bind_eq by exact E11. erewrite bind_eq by exact E12.
  erewrite bind_eq by exact E13. by eexists _, _.
Qed.

(** The record generated from the template whose hook pattern has [n]
    characters, with a lexicon without hashtags: its text has [n]
    characters. *)
Lemma generate_single_post_of_length n :
  ∃ rec used' g',
    generate_single_post (py "2025-01-01") (py "17")
      [(py "17", [Examples.template_of_length n])] Examples.bare_lexicon
      ∅ Examples.counting = Some ((Some rec, used'), g') ∧
    item_text rec = Some (replicate n 12354%N).
Proof.
  set (t := Examples.template_of_length n).
  set (pat := replicate n 12354%N).
  assert (dict_get [(py "17", [t])] (py "17") = Some [t]) as Htpls.
  { cbn. by rewrite decide_True. }
  destruct (random_choice_returns [t] Examples.counting) as (t' & ga & Et & Hin);
    [done|].
  apply list_elem_of_singleton in Hin as ->.
  destruct (random_choice_returns [py "tax"] ga) as (key & g0 & Ek & Hin);
    [done|].
  apply list_elem_of_singleton in Hin as ->.
  assert (dict_get (l_pillars Examples.bare_lexicon) (py "tax") =
            Some Examples.tax_pillar) as Hpd.
  { cbn. by rewrite decide_True. }
  destruct (generate_post_text_is_Some t Examples.tax_pillar None g0)
    as ([hook text] & g1 & Egen).
  { right. split; discriminate. }
  { discriminate. }
  { discriminate. }
  { intros c Hc. split; [|done]. change (c ∈ [4%Z]) in Hc.
    apply list_elem_of_singleton in Hc as ->. lia. }
  { intros c Hc. split; [|done]. change (c ∈ [4%Z]) in Hc.
    apply list_elem_of_singleton in Hc as ->. lia. }
  destruct (generate_post_text_of_length _ _ _ _ _ _ _ Egen) as [-> ->].
  fold pat in Egen.
  assert (attempts 1 t Examples.tax_pillar None g0 =
            Some ([] ++ [(pat, pat)], g1)) as Hatt.
  { cbn [attempts]. erewrite bind_eq by exact Egen.
    by erewrite bind_eq by reflexivity. }
  pose proof (retry_loop_found t Examples.tax_pillar None ∅ 5 None 0 []
                pat pat g0 g1 ltac:(lia) Hatt eq_refl (Forall_nil_2 _)
                (not_elem_of_empty _)) as Hloop.
  destruct (plain_pattern n) as (Hplain & _ & Hscalar).
  destruct (encode_utf8_scalar pat Hscalar) as [bs Hbs].
  eexists _, _, g1. split.
  - apply generate_single_post_spec.
    exists t, (py "tax"), Examples.tax_pillar, ga, g0, g1, pat, pat, [],
           (sha256_hexdigest bs).
    rewrite Htpls. split_and!; [done|done|done|exact Hloop|done| |done].
    unfold calculate_fingerprint. cbn [with_hashtags].
    rewrite normalize_text_plain by done. by rewrite Hbs.
  - done.
Qed.

(** C1, as the code has it.  The text of a record [generate_single_post]
    returns is the text composed in the last round of the retry loop, which
    [normalize_text] leaves as it is, followed by an empty line and the line
    of hashtags of [generate_hashtags] when that line is not empty.  Its
    length is the sum of the lengths of these parts; the length check of the
    validator reports the record as too long exactly when it has more than
    260 code points.  The generator puts no bound on the length: for every
    number there is a call that returns a record with a longer text. *)
Theorem generated_text_shape :
  (∀ date slot tpls lex used g rec used' g',
     generate_single_post date slot tpls lex used g = Some ((Some rec, used'), g') →
     ∃ t pillar_key pillar_data ga g0 g1 outs hook body hashtags,
       random_choice (default [] (dict_get tpls slot)) g = Some (t, ga) ∧
       random_choice (map fst (l_pillars lex)) ga = Some (pillar_key, g0) ∧
       dict_get (l_pillars lex) pillar_key = Some pillar_data ∧
       retry_loop 5 t pillar_data (l_counts lex) None used g0 =
         Some ((Some (hook, body), used'), g1) ∧
       attempts (S (length outs)) t pillar_data (l_counts lex) g0 =
         Some (outs ++ [(hook, body)], g1) ∧
       generate_hashtags lex pillar_key g1 = Some (hashtags, g') ∧
       normalize_text body = body ∧
       (hashtags = [] → item_text rec = Some body) ∧
       (hashtags ≠ [] → item_text rec = Some (body ++ [LF; LF] ++ hashtags)) ∧
       (∃ text,
          item_text rec = Some text ∧
          length text = length body + match hashtags with
                                      | [] => 0
                                      | _ => 2 + length hashtags
                                      end ∧
          (MAX_TEXT_LENGTH < length text ↔
           ValidateQueue.TooLong (length text)
             ∈ ValidateQueue.validate_text_length rec))) ∧
  (∀ n : nat,
     ∃ date slot tpls lex used g rec used' g' text,
       generate_single_post date slot tpls lex used g =
         Some ((Some rec, used'), g') ∧
       item_text rec = Some text ∧ n < length text).
Proof.
  split.
  - intros date slot tpls lex used g rec used' g' Hgen.
    apply generate_single_post_spec in Hgen
      as (t & key & pd & ga & g0 & g1 & hook & body & hashtags & fp
          & Ht & Hkey & Hpd & Hloop & Htags & _ & ->).
    pose proof Hloop as (outs & Hatt & _)%retry_loop_five.
    exists t, key, pd, ga, g0, g1, outs, hook, body, hashtags.
    split_and!; try done.
    + apply attempts_normalized in Hatt as [Hall _].
      apply Forall_app in Hall as [_ Hlast].
      rewrite Forall_singleton in Hlast. exact Hlast.
    + by intros ->.
    + intros Hne. cbn. by destruct hashtags.
    + exists (with_hashtags body hashtags). split_and!; [done| |].
      * destruct hashtags; cbn; [lia|]. rewrite length_app. cbn. lia.
      * rewrite too_long_reported. cbn. split; [done|]. by intros [_ ?].
  - intros n.
    destruct (generate_single_post_of_length (S n)) as (rec & used' & g' & E & Ht).
    eexists _, _, _, _, _, _, rec, used', g', _. split_and!; [exact E|exact Ht|].
    rewrite length_replicate. lia.
Qed.

End GeneratedLength.

Lemma generated_text_shape_witness :
  match GenerateQueue.generate_single_post (py "2025-01-01") (py "17")
          [(py "17", [Examples.checklist_template])] Examples.small_lexicon
          ∅ Examples.counting with
  | Some (Some rec, _, _) =>
      ∃ body hashtags,
        normalize_text body = body ∧
        (hashtags ≠ [] → item_text rec = Some (body ++ [LF; LF] ++ hashtags)) ∧
        ∃ text,
          item_text rec = Some text ∧
          length text = length body + match hashtags with
                                      | [] => 0
                                      | _ => 2 + length hashtags
                                      end ∧
          (MAX_TEXT_LENGTH < length text ↔
           ValidateQueue.TooLong (length text)
             ∈ ValidateQueue.validate_text_length rec)
  | _ => False
  end.
Proof.
  apply (for_generated_record _ (λ rec _, ∃ body hashtags, _)).
  - intros rec used' g' E.
    destruct (proj1 generated_text_shape _ _ _ _ _ _ _ _ _ E)
      as (t & key & pd & ga & g0 & g1 & outs & hook & body & hashtags
          & _ & _ & _ & _ & _ & _ & Hnorm & _ & Htags & Htext).
    exists body, hashtags.
    split; [exact Hnorm|]. split; [exact Htags|exact Htext].
  - vm_compute. eexists. reflexivity.
Defined.
